(** * clox: the scanner and the bytecode interpreter

    A shallow embedding of [src/scanner.c] and [src/vm.c] and the
    properties of the execution core that are stated about them.

    Conventions.
    - A C pointer into an array is the index of the element it points at;
      a pointer to a heap object is the index of the object in the VM's
      object store.
    - A C operation whose behaviour is undefined (a read outside an array,
      a dereference of a null or mistyped pointer, an ordering comparison
      of unrelated pointers) has no result in the model. *)

From stdpp Require Import gmap strings list.
From Stdlib Require Import ZArith Floats Ascii.

(** ** Machine integers *)

Definition INT_MAX : Z := 2147483647.

(** The conversion [(int) x] of a [ptrdiff_t] or [size_t]: a 32-bit
    two's-complement wrap-around. *)
Definition to_int (x : Z) : Z := ((x + 2 ^ 31) mod 2 ^ 32 - 2 ^ 31)%Z.

Lemma to_int_small (x : Z) : (- 2 ^ 31 <= x <= INT_MAX)%Z → to_int x = x.
Proof.
  intros Hx. unfold to_int, INT_MAX in *.
  rewrite Z.mod_small; lia.
Qed.

(** ** Characters *)

Definition NUL : ascii := "000"%char.

(** [a <= b] on characters.  Every comparison of the scanner has an ASCII
    literal below 128 on one side, so the signedness of [char] does not
    change its result. *)
Definition char_le (a b : ascii) : bool := (N_of_ascii a <=? N_of_ascii b)%N.

Definition char_eq (a b : ascii) : bool := bool_decide (a = b).

Module Scanner.

(** Token kinds of [scanner.h]: the punctuation and literal kinds that
    [scanner.c] names, and the keyword kinds of the keyword table. *)
Inductive TokenType :=
| TOKEN_LEFT_PAREN | TOKEN_RIGHT_PAREN | TOKEN_LEFT_BRACE | TOKEN_RIGHT_BRACE
| TOKEN_SEMICOLON | TOKEN_COMMA | TOKEN_DOT | TOKEN_MINUS | TOKEN_PLUS
| TOKEN_SLASH | TOKEN_STAR | TOKEN_QUESTION | TOKEN_COLON
| TOKEN_BANG | TOKEN_BANG_EQUAL | TOKEN_EQUAL | TOKEN_EQUAL_EQUAL
| TOKEN_LESS | TOKEN_LESS_EQUAL | TOKEN_GREATER | TOKEN_GREATER_EQUAL
| TOKEN_IDENTIFIER | TOKEN_STRING | TOKEN_NUMBER
| TOKEN_AND | TOKEN_CLASS | TOKEN_ELSE | TOKEN_FALSE | TOKEN_FOR | TOKEN_FUN
| TOKEN_IF | TOKEN_NIL | TOKEN_OR | TOKEN_PRINT | TOKEN_RETURN | TOKEN_SUPER
| TOKEN_THIS | TOKEN_TRUE | TOKEN_VAR | TOKEN_WHILE
| TOKEN_ERROR | TOKEN_EOF.

#[global] Instance TokenType_eq_dec : EqDecision TokenType.
Proof. solve_decision. Defined.

(** What [token.start] can point at: a character of the source text, or
    the first character of a string literal of the scanner itself. *)
Inductive CharPtr :=
| SourcePtr (offset : nat)
| MessagePtr (message : string).

Record Token := mkToken {
  token_type : TokenType;
  token_start : CharPtr;
  token_length : Z;
  token_line : Z
}.

(** [start] and [current] are offsets from the first character of the
    source. *)
Record ScannerState := mkScanner {
  start : nat;
  current : nat;
  line : Z
}.

Definition initScanner : ScannerState :=
  {| start := 0; current := 0; line := 1 |}.

Definition isAlpha (c : ascii) : bool :=
  (char_le "a" c && char_le c "z")
  || (char_le "A" c && char_le c "Z")
  || char_eq c "_".

Definition isDigit (c : ascii) : bool :=
  char_le "0" c && char_le c "9".

Definition isHex (c : ascii) : bool :=
  (char_le "a" c && char_le c "f") || (char_le "A" c && char_le c "F").

Section WithSource.

(** The characters of the source before its terminating NUL.  Reading at
    offset [length source] yields the terminator. *)
Variable source : list ascii.

(** [checkKeyword] of the generated [lex.def]: the keyword kind of the
    text of the given length at the given address, if it is a keyword. *)
Variable checkKeyword : list ascii → Z → option TokenType.

Definition char_at (i : nat) : ascii := default NUL (source !! i).

Definition isAtEnd (s : ScannerState) : bool :=
  char_eq (char_at (current s)) NUL.

Definition advance (s : ScannerState) : ascii * ScannerState :=
  let s' := {| start := start s; current := S (current s); line := line s |} in
  (char_at (current s' - 1), s').

Definition peek (s : ScannerState) : ascii := char_at (current s).

Definition peekNext (s : ScannerState) : ascii :=
  if isAtEnd s then NUL else char_at (current s + 1).

Definition match_ (expected : ascii) (s : ScannerState) : bool * ScannerState :=
  if isAtEnd s then (false, s)
  else if negb (char_eq (char_at (current s)) expected) then (false, s)
  else (true, {| start := start s; current := S (current s); line := line s |}).

Definition makeToken (type : TokenType) (s : ScannerState) : Token :=
  {| token_type := type;
     token_start := SourcePtr (start s);
     token_length := to_int (Z.of_nat (current s) - Z.of_nat (start s));
     token_line := line s |}.

Definition errorToken (message : string) (s : ScannerState) : Token :=
  {| token_type := TOKEN_ERROR;
     token_start := MessagePtr message;
     token_length := to_int (Z.of_nat (String.length message));
     token_line := line s |}.

(** [while (cond) advance();], at most [fuel] iterations: [None] when the
    condition still holds after [fuel] of them. *)
Fixpoint advanceWhile (cond : ScannerState → bool) (fuel : nat)
    (s : ScannerState) : option ScannerState :=
  if cond s then
    match fuel with
    | O => None
    | S fuel' => advanceWhile cond fuel' (advance s).2
    end
  else Some s.

(** Loop budget of one call: no loop of the scanner iterates more often
    than the source has characters. *)
Definition budget : nat := S (length source).

(** [scanner.line++], on an [int].  The C standard leaves the overflow at
    [INT_MAX] undefined; the model takes the increment of the machine,
    which wraps around.  What is proved of line numbers is proved for
    counters that do not overflow. *)
Definition incr_line (s : ScannerState) : ScannerState :=
  {| start := start s; current := current s; line := to_int (line s + 1) |}.

Fixpoint skipWhitespaceLoop (fuel : nat) (s : ScannerState) : option ScannerState :=
  match fuel with
  | O => None
  | S fuel' =>
    let c := peek s in
    if char_eq c " " || char_eq c "013" || char_eq c "009" then
      skipWhitespaceLoop fuel' (advance s).2
    else if char_eq c "010" then
      skipWhitespaceLoop fuel' (advance (incr_line s)).2
    else if char_eq c "/" then
      if char_eq (peekNext s) "/" then
        (* A comment goes until the end of the line. *)
        s' ← advanceWhile
               (λ s, negb (char_eq (peek s) "010") && negb (isAtEnd s))
               budget s;
        skipWhitespaceLoop fuel' s'
      else Some s
    else Some s
  end.

Definition skipWhitespace (s : ScannerState) : option ScannerState :=
  skipWhitespaceLoop budget s.

Definition identifierType (s : ScannerState) : TokenType :=
  let length := to_int (Z.of_nat (current s) - Z.of_nat (start s)) in
  match checkKeyword (drop (start s) source) length with
  | Some kw => kw
  | None => TOKEN_IDENTIFIER
  end.

Definition identifier (s : ScannerState) : option (Token * ScannerState) :=
  s' ← advanceWhile (λ s, isAlpha (peek s) || isDigit (peek s)) budget s;
  Some (makeToken (identifierType s') s', s').

Definition number (s : ScannerState) : option (Token * ScannerState) :=
  let c := char_at (current s - 1) in
  s' ←
    (* If we see an x after a 0, parse a hexadecimal number. *)
    (if char_eq c "0" && (char_eq (peek s) "x" || char_eq (peek s) "X") then
       let s1 := (advance s).2 in (* consume the 'x' *)
       advanceWhile (λ s, isDigit (peek s) || isHex (peek s)) budget s1
     else
       s1 ← advanceWhile (λ s, isDigit (peek s)) budget s;
       (* Look for a fractional part. *)
       if char_eq (peek s1) "." && isDigit (peekNext s1) then
         (* Consume the ".". *)
         let s2 := (advance s1).2 in
         advanceWhile (λ s, isDigit (peek s)) budget s2
       else Some s1);
  Some (makeToken TOKEN_NUMBER s', s').

Fixpoint stringLoop (fuel : nat) (s : ScannerState) : option ScannerState :=
  if negb (char_eq (peek s) "034") && negb (isAtEnd s) then
    match fuel with
    | O => None
    | S fuel' =>
      let s1 := if char_eq (peek s) "010" then incr_line s else s in
      stringLoop fuel' (advance s1).2
    end
  else Some s.

Definition string_ (s : ScannerState) : option (Token * ScannerState) :=
  s' ← stringLoop budget s;
  if isAtEnd s' then Some (errorToken "Unterminated string." s', s')
  else
    (* The closing quote. *)
    let s'' := (advance s').2 in
    Some (makeToken TOKEN_STRING s'', s'').

Definition twoChar (second : ascii) (yes no : TokenType) (s : ScannerState)
    : option (Token * ScannerState) :=
  let '(m, s') := match_ second s in
  Some (makeToken (if m then yes else no) s', s').

Definition scanToken (s : ScannerState) : option (Token * ScannerState) :=
  s ← skipWhitespace s;
  let s := {| start := current s; current := current s; line := line s |} in
  if isAtEnd s then Some (makeToken TOKEN_EOF s, s)
  else
    let '(c, s) := advance s in
    if isAlpha c then identifier s
    else if isDigit c then number s
    else if char_eq c "(" then Some (makeToken TOKEN_LEFT_PAREN s, s)
    else if char_eq c ")" then Some (makeToken TOKEN_RIGHT_PAREN s, s)
    else if char_eq c "{" then Some (makeToken TOKEN_LEFT_BRACE s, s)
    else if char_eq c "}" then Some (makeToken TOKEN_RIGHT_BRACE s, s)
    else if char_eq c ";" then Some (makeToken TOKEN_SEMICOLON s, s)
    else if char_eq c "," then Some (makeToken TOKEN_COMMA s, s)
    else if char_eq c "." then Some (makeToken TOKEN_DOT s, s)
    else if char_eq c "-" then Some (makeToken TOKEN_MINUS s, s)
    else if char_eq c "+" then Some (makeToken TOKEN_PLUS s, s)
    else if char_eq c "/" then Some (makeToken TOKEN_SLASH s, s)
    else if char_eq c "*" then Some (makeToken TOKEN_STAR s, s)
    else if char_eq c "?" then Some (makeToken TOKEN_QUESTION s, s)
    else if char_eq c ":" then Some (makeToken TOKEN_COLON s, s)
    else if char_eq c "!" then twoChar "=" TOKEN_BANG_EQUAL TOKEN_BANG s
    else if char_eq c "=" then twoChar "=" TOKEN_EQUAL_EQUAL TOKEN_EQUAL s
    else if char_eq c "<" then twoChar "=" TOKEN_LESS_EQUAL TOKEN_LESS s
    else if char_eq c ">" then twoChar "=" TOKEN_GREATER_EQUAL TOKEN_GREATER s
    else if char_eq c "034" then string_ s
    else Some (errorToken "Unexpected character." s, s).

(** The characters a token's slice [(start, length)] denotes, for a token
    that points into the source. *)
Definition lexeme (tok : Token) : list ascii :=
  match token_start tok with
  | SourcePtr i => take (Z.to_nat (token_length tok)) (drop i source)
  | MessagePtr m => []
  end.


(** *** Loops of the scanner *)

Lemma char_at_end (i : nat) : length source ≤ i → char_at i = NUL.
Proof. intros H. unfold char_at. by rewrite lookup_ge_None_2. Qed.

Lemma not_NUL_in_source (i : nat) : char_at i ≠ NUL → i < length source.
Proof.
  intros H. destruct (decide (i < length source)) as [|Hge]; [done|].
  destruct H. apply char_at_end. lia.
Qed.

Lemma isAtEnd_false_lt (s : ScannerState) :
  isAtEnd s = false → current s < length source.
Proof.
  unfold isAtEnd, char_eq. intros H%bool_decide_eq_false.
  by apply not_NUL_in_source.
Qed.

(** A loop [while (p(peek())) advance();] whose condition fails on the
    terminator stops after [n] characters that satisfy [p], at a character
    that does not, whenever its budget exceeds the number of characters
    left. *)
Lemma advanceWhile_run (p : ascii → bool) (cond : ScannerState → bool)
    (fuel : nat) (s : ScannerState) :
  (∀ s, cond s = p (peek s)) → p NUL = false →
  length source - current s < fuel →
  ∃ n, advanceWhile cond fuel s
         = Some {| start := start s; current := current s + n; line := line s |}
       ∧ (∀ k, k < n → p (char_at (current s + k)) = true)
       ∧ p (char_at (current s + n)) = false
       ∧ (n = 0 ∨ current s + n ≤ length source).
Proof.
  intros Hcond HNUL. revert s.
  induction fuel as [|fuel IH]; intros s Hfuel; [lia|].
  cbn [advanceWhile]. rewrite Hcond.
  destruct (p (peek s)) eqn:Hp.
  - assert (current s < length source) as Hlt.
    { apply not_NUL_in_source. unfold peek in Hp. congruence. }
    destruct (IH (advance s).2) as (n & Hrun & Hall & Hstop & Hbound);
      [simpl; lia|].
    exists (S n). simpl in *.
    replace (current s + S n) with (S (current s) + n) by lia.
    split; [done|]. split; [|split; [done|right; lia]].
    intros [|k] Hk.
    + by rewrite Nat.add_0_r.
    + replace (current s + S k) with (S (current s) + k) by lia.
      apply Hall. lia.
  - exists 0. rewrite Nat.add_0_r. destruct s. simpl in *.
    repeat split; [intros; lia|done|by left].
Qed.

(** The same, keeping only where the loop stops. *)
Lemma advanceWhile_total (p : ascii → bool) (cond : ScannerState → bool)
    (s : ScannerState) :
  (∀ s, cond s = p (peek s)) → p NUL = false →
  current s ≤ length source →
  ∃ s', advanceWhile cond budget s = Some s'
        ∧ start s' = start s ∧ line s' = line s
        ∧ current s ≤ current s' ≤ length source.
Proof.
  intros Hcond HNUL Hle.
  destruct (advanceWhile_run p cond budget s Hcond HNUL) as (n & Hrun & _ & _ & Hb);
    [unfold budget; lia|].
  eexists. split; [done|]. simpl. lia.
Qed.

Lemma stringLoop_total (fuel : nat) (s : ScannerState) :
  length source - current s < fuel →
  current s ≤ length source →
  ∃ s', stringLoop fuel s = Some s'
        ∧ start s' = start s
        ∧ current s ≤ current s' ≤ length source.
Proof.
  revert s. induction fuel as [|fuel IH]; intros s Hfuel Hle; [lia|].
  cbn [stringLoop].
  destruct (negb (char_eq (peek s) "034") && negb (isAtEnd s)) eqn:Hc.
  - apply andb_true_iff in Hc as [_ Hend%negb_true_iff].
    apply isAtEnd_false_lt in Hend.
    set (s1 := if char_eq (peek s) "010" then incr_line s else s).
    assert (current s1 = current s ∧ start s1 = start s) as [Hc1 Hs1].
    { unfold s1. by destruct (char_eq _ _). }
    destruct (IH (advance s1).2) as (s' & Hrun & Hst & Hcur); simpl; [lia..|].
    exists s'. simpl in *. split; [done|]. split; [congruence|lia].
  - exists s. split; [done|]. split; [done|lia].
Qed.

Lemma skipWhitespaceLoop_total (fuel : nat) (s : ScannerState) :
  length source - current s < fuel →
  current s ≤ length source →
  ∃ s', skipWhitespaceLoop fuel s = Some s'
        ∧ current s ≤ current s' ≤ length source.
Proof.
  revert s. induction fuel as [|fuel IH]; intros s Hfuel Hle; [lia|].
  cbn [skipWhitespaceLoop]. cbv zeta.
  assert (∀ c : ascii, c ≠ NUL → char_eq (peek s) c = true →
          current s < length source) as Hin.
  { intros c Hc Heq%bool_decide_eq_true. apply not_NUL_in_source.
    unfold peek in Heq. congruence. }
  destruct (char_eq (peek s) " " || char_eq (peek s) "013"
            || char_eq (peek s) "009") eqn:Hws.
  { assert (current s < length source) as Hlt.
    { apply orb_true_iff in Hws as [Hws|Hws];
        [apply orb_true_iff in Hws as [Hws|Hws]|];
        (eapply Hin; [|eassumption]; discriminate). }
    destruct (IH (advance s).2) as (s' & -> & Hcur); simpl; [lia..|].
    exists s'. simpl in *. split; [done|lia]. }
  destruct (char_eq (peek s) "010") eqn:Hnl.
  { assert (current s < length source) as Hlt
    by (eapply Hin; [|eassumption]; discriminate).
    destruct (IH (advance (incr_line s)).2) as (s' & -> & Hcur); simpl; [lia..|].
    exists s'. simpl in *. split; [done|lia]. }
  destruct (char_eq (peek s) "/") eqn:Hsl; [|exists s; split; [done|lia]].
  destruct (char_eq (peekNext s) "/"); [|exists s; split; [done|lia]].
  assert (current s < length source) as Hlt
    by (eapply Hin; [|eassumption]; discriminate).
  destruct (advanceWhile_run
              (λ c, negb (char_eq c "010") && negb (char_eq c NUL))
              (λ s, negb (char_eq (peek s) "010") && negb (isAtEnd s))
              budget s) as (n & -> & Hall & Hstop & Hb);
    [done|done|unfold budget; lia|].
  simpl.
  assert (0 < n) as Hn.
  { destruct n; [|lia]. exfalso. rewrite Nat.add_0_r in Hstop.
    apply bool_decide_eq_true in Hsl. unfold peek in Hsl.
    by rewrite Hsl in Hstop. }
  destruct Hb as [->|Hb]; [lia|].
  destruct (IH {| start := start s; current := current s + n; line := line s |})
    as (s' & -> & Hcur); simpl; [lia..|].
  exists s'. simpl in *. split; [done|lia].
Qed.


(** *** What one call returns *)

(** A token is made by [makeToken], and then its slice starts at
    [scanner.start], or by [errorToken] with one of the two messages of
    the scanner. *)
Inductive emitted (s' : ScannerState) (tok : Token) : Prop :=
| emitted_slice (type : TokenType) :
    tok = makeToken type s' → emitted s' tok
| emitted_error (message : string) :
    tok = errorToken message s' →
    message = "Unterminated string." ∨ message = "Unexpected character." →
    emitted s' tok.

(** The common shape of the token constructors of [scanToken], entered
    after the first character of the token has been consumed. *)
Definition scans (f : ScannerState → option (Token * ScannerState)) : Prop :=
  ∀ s, current s ≤ length source →
    ∃ tok s', f s = Some (tok, s')
      ∧ start s' = start s
      ∧ current s ≤ current s' ≤ length source
      ∧ emitted s' tok.

Lemma makeToken_scans (type : TokenType) :
  scans (λ s, Some (makeToken type s, s)).
Proof.
  intros s Hs. exists (makeToken type s), s.
  repeat split; [lia..|by eleft].
Qed.

Lemma identifier_scans : scans identifier.
Proof.
  intros s Hs. unfold identifier.
  destruct (advanceWhile_total (λ c, isAlpha c || isDigit c)
              (λ s, isAlpha (peek s) || isDigit (peek s)) s)
    as (s' & -> & Hst & _ & Hcur); [done..|].
  simpl. eexists _, s'. repeat split; [done|lia..|by eleft].
Qed.

Lemma number_scans : scans number.
Proof.
  intros s Hs. unfold number.
  destruct (char_eq _ "0" && _) eqn:Hhex.
  - apply andb_true_iff in Hhex as [_ Hx].
    assert (current s < length source) as Hlt.
    { apply not_NUL_in_source. unfold peek, char_eq in Hx.
      apply orb_true_iff in Hx as [Hx%bool_decide_eq_true|Hx%bool_decide_eq_true];
        rewrite Hx; discriminate. }
    destruct (advanceWhile_total (λ c, isDigit c || isHex c)
                (λ s, isDigit (peek s) || isHex (peek s)) (advance s).2)
      as (s' & -> & Hst & _ & Hcur); [done|done|simpl; lia|].
    simpl in *. eexists _, s'. repeat split; [done|lia..|by eleft].
  - destruct (advanceWhile_total isDigit (λ s, isDigit (peek s)) s)
      as (s1 & -> & Hst1 & _ & Hcur1); [done..|].
    cbn [mbind option_bind]. destruct (char_eq (peek s1) "." && _) eqn:Hdot.
    + apply andb_true_iff in Hdot as [Hdot%bool_decide_eq_true _].
      assert (current s1 < length source) as Hlt.
      { apply not_NUL_in_source. unfold peek in Hdot. by rewrite Hdot. }
      destruct (advanceWhile_total isDigit (λ s, isDigit (peek s)) (advance s1).2)
        as (s' & -> & Hst & _ & Hcur); [done|done|simpl; lia|].
      simpl in *. eexists _, s'. repeat split; [congruence|lia..|by eleft].
    + simpl. eexists _, s1. repeat split; [done|lia..|by eleft].
Qed.

Lemma string_scans : scans string_.
Proof.
  intros s Hs. unfold string_.
  destruct (stringLoop_total budget s) as (s1 & -> & Hst & Hcur);
    [unfold budget; lia|done|].
  cbn [mbind option_bind]. destruct (isAtEnd s1) eqn:Hend.
  - eexists _, s1. repeat split; [done|lia..|]. eright; [done|by left].
  - apply isAtEnd_false_lt in Hend.
    eexists _, _. split; [done|]. simpl. repeat split; [done|lia..|by eleft].
Qed.

Lemma twoChar_scans (second : ascii) (yes no : TokenType) :
  scans (twoChar second yes no).
Proof.
  intros s Hs. unfold twoChar, match_.
  destruct (isAtEnd s) eqn:Hend.
  { eexists _, s. repeat split; [lia..|by eleft]. }
  apply isAtEnd_false_lt in Hend.
  destruct (negb _).
  - eexists _, s. repeat split; [lia..|by eleft].
  - eexists _, _. split; [done|]. simpl. repeat split; [lia..|by eleft].
Qed.

Lemma errorToken_scans :
  scans (λ s, Some (errorToken "Unexpected character." s, s)).
Proof.
  intros s Hs. eexists _, s. repeat split; [lia..|]. eright; [done|by right].
Qed.

(** One call of [scanToken] returns one token; the slice of the token
    begins where the skipped whitespace ends, and the cursor has moved
    forward, unless the token is the end-of-source token. *)
Lemma scanToken_shape (s : ScannerState) :
  current s ≤ length source →
  ∃ tok s', scanToken s = Some (tok, s')
    ∧ current s ≤ start s' ∧ start s' ≤ current s' ≤ length source
    ∧ emitted s' tok
    ∧ (tok = makeToken TOKEN_EOF s' ∧ isAtEnd s' = true
       ∨ start s' < current s').
Proof.
  intros Hs. unfold scanToken, skipWhitespace.
  destruct (skipWhitespaceLoop_total budget s) as (s0 & -> & Hcur0);
    [unfold budget; lia|done|].
  cbn [mbind option_bind]. set (s1 := {| start := current s0 |}).
  destruct (isAtEnd s1) eqn:Hend.
  { exists (makeToken TOKEN_EOF s1), s1. simpl.
    repeat split; [lia..|by eleft|by left]. }
  apply isAtEnd_false_lt in Hend. simpl in Hend.
  unfold advance. set (c := char_at _). set (s2 := {| start := start s1 |}).
  assert (∀ f, scans f →
    ∃ tok s', f s2 = Some (tok, s')
      ∧ current s ≤ start s' ∧ start s' ≤ current s' ≤ length source
      ∧ emitted s' tok
      ∧ (tok = makeToken TOKEN_EOF s' ∧ isAtEnd s' = true
         ∨ start s' < current s')) as Hf.
  { intros f Hscans. destruct (Hscans s2) as (tok & s' & Hrun & Hst & Hcur & Hem);
      [simpl; lia|].
    exists tok, s'. simpl in *. repeat split; [done|lia..|done|right; lia]. }
  destruct (isAlpha c); [apply Hf, identifier_scans|].
  destruct (isDigit c); [apply Hf, number_scans|].
  repeat (destruct (char_eq c _);
          [first [apply (Hf _ (makeToken_scans _)) | apply Hf, twoChar_scans
                 | apply Hf, string_scans]|]).
  apply (Hf _ errorToken_scans).
Qed.


(** *** Scanning a known stretch of the source *)

Lemma char_at_middle (pre seg rest : list ascii) (k : nat) :
  source = pre ++ seg ++ rest → k < length seg →
  source !! (length pre + k) = seg !! k.
Proof.
  intros -> Hk. rewrite lookup_app_r; [|lia].
  replace (length pre + k - length pre) with k by lia.
  by rewrite lookup_app_l.
Qed.

Lemma char_at_after (pre seg rest : list ascii) :
  source = pre ++ seg ++ rest →
  source !! (length pre + length seg) = head rest.
Proof.
  intros ->. rewrite lookup_app_r; [|lia].
  replace (length pre + length seg - length pre) with (length seg) by lia.
  rewrite lookup_app_r; [|lia]. rewrite Nat.sub_diag. by destruct rest.
Qed.

(** The loop [while (p(peek())) advance();] consumes exactly the longest
    stretch of characters that satisfy [p]. *)
Lemma advanceWhile_segment (p : ascii → bool) (cond : ScannerState → bool)
    (pre seg rest : list ascii) (s : ScannerState) :
  (∀ s, cond s = p (peek s)) → p NUL = false →
  source = pre ++ seg ++ rest → current s = length pre →
  Forall (λ c, p c = true) seg →
  (∀ c, head rest = Some c → p c = false) →
  advanceWhile cond budget s
  = Some {| start := start s; current := length pre + length seg;
            line := line s |}.
Proof.
  intros Hcond HNUL Hsrc Hcur Hseg Hrest.
  destruct (advanceWhile_run p cond budget s Hcond HNUL)
    as (n & -> & Hall & Hstop & _); [unfold budget; lia|].
  rewrite Hcur in Hall, Hstop |- *.
  assert (n = length seg) as ->; [|done].
  destruct (lt_eq_lt_dec n (length seg)) as [[Hlt|Heq]|Hgt]; [|done|].
  - exfalso. unfold char_at in Hstop.
    rewrite (char_at_middle pre seg rest) in Hstop; [|done..].
    destruct (lookup_lt_is_Some_2 seg n Hlt) as [c Hc].
    rewrite Hc in Hstop. simpl in Hstop.
    rewrite Forall_lookup in Hseg. specialize (Hseg n c Hc). simpl in Hseg.
    congruence.
  - exfalso. specialize (Hall (length seg) Hgt). unfold char_at in Hall.
    rewrite (char_at_after pre seg rest) in Hall; [|done].
    destruct (head rest) as [c|] eqn:Hhd; simpl in Hall.
    + rewrite (Hrest c) in Hall; done.
    + congruence.
Qed.

Definition newlines (l : list ascii) : Z :=
  Z.of_nat (length (filter (λ c, c = "010"%char) l)).

Lemma newlines_nonneg (l : list ascii) : (0 ≤ newlines l)%Z.
Proof. unfold newlines. lia. Qed.

Lemma newlines_cons (c : ascii) (l : list ascii) :
  newlines (c :: l)
  = ((if char_eq c "010" then 1 else 0) + newlines l)%Z.
Proof.
  unfold newlines, char_eq. rewrite filter_cons.
  destruct (decide (c = "010"%char)) as [->|Hne].
  - rewrite bool_decide_eq_true_2 by done. simpl. lia.
  - rewrite bool_decide_eq_false_2 by done. lia.
Qed.

(** The loop of [string] consumes the characters up to the closing quote,
    and counts their newlines as long as the counter does not overflow. *)
Lemma stringLoop_segment (body : list ascii) :
  ∀ (pre rest : list ascii) (fuel : nat) (s : ScannerState),
  source = pre ++ body ++ "034"%char :: rest → current s = length pre →
  Forall (λ c, c ≠ "034"%char ∧ c ≠ NUL) body →
  length body < fuel →
  ∃ l, stringLoop fuel s
       = Some {| start := start s; current := length pre + length body;
                 line := l |}
       ∧ ((- 2 ^ 31 ≤ line s)%Z → (line s + newlines body ≤ INT_MAX)%Z →
          l = (line s + newlines body)%Z).
Proof.
  induction body as [|c body IH]; intros pre rest fuel s Hsrc Hcur Hbody Hfuel.
  - destruct fuel as [|fuel]; [simpl in *; lia|].
    exists (line s). split; [|unfold newlines; simpl; lia].
    cbn [stringLoop]. unfold peek, char_at.
    rewrite Hcur, Hsrc. rewrite lookup_app_r; [|lia]. rewrite Nat.sub_diag.
    simpl. rewrite Nat.add_0_r, <- Hcur. by destruct s.
  - destruct fuel as [|fuel]; [simpl in *; lia|].
    apply Forall_cons in Hbody as [[Hq HN] Hbody].
    cbn [stringLoop].
    assert (peek s = c) as Hpeek.
    { unfold peek, char_at. rewrite Hcur, Hsrc.
      rewrite lookup_app_r; [|lia]. by rewrite Nat.sub_diag. }
    assert (isAtEnd s = false) as ->.
    { unfold isAtEnd. fold (peek s). rewrite Hpeek.
      by apply bool_decide_eq_false. }
    rewrite Hpeek.
    assert (char_eq c "034" = false) as -> by (by apply bool_decide_eq_false).
    cbn [negb andb].
    set (s1 := if char_eq c "010" then incr_line s else s).
    destruct (IH (pre ++ [c]) rest fuel (advance s1).2) as (l & Hrun & Hline).
    + rewrite Hsrc. by rewrite <- app_assoc.
    + unfold s1. destruct (char_eq c "010"); simpl; rewrite length_app;
        simpl; lia.
    + done.
    + simpl in Hfuel. lia.
    + exists l. split.
      * rewrite Hrun. f_equal. cbn [advance snd start].
        replace (start s1) with (start s)
          by (unfold s1; by destruct (char_eq _ _)).
        rewrite length_app. simpl. f_equal. lia.
      * intros Hlow Hhigh. rewrite newlines_cons in Hhigh |- *.
        pose proof (newlines_nonneg body) as Hnn.
        unfold s1 in Hline. destruct (char_eq c "010"); simpl in Hline.
        -- rewrite to_int_small in Hline by (unfold INT_MAX in *; lia).
           rewrite Hline; lia.
        -- rewrite Hline; lia.
Qed.

Lemma skipWhitespace_stop (s : ScannerState) :
  char_eq (peek s) " " || char_eq (peek s) "013" || char_eq (peek s) "009"
    = false →
  char_eq (peek s) "010" = false → char_eq (peek s) "/" = false →
  skipWhitespace s = Some s.
Proof.
  intros Hws Hnl Hsl. unfold skipWhitespace, budget.
  cbn [skipWhitespaceLoop]. cbv zeta. by rewrite Hws, Hnl, Hsl.
Qed.

(** With the cursor on a character that is neither whitespace nor a slash
    nor the terminator, [scanToken] consumes it and dispatches on it. *)
Lemma scanToken_dispatch (s : ScannerState) (c : ascii) :
  peek s = c →
  char_eq c " " || char_eq c "013" || char_eq c "009" = false →
  char_eq c "010" = false → char_eq c "/" = false → c ≠ NUL →
  ∃ s2, s2 = {| start := current s; current := S (current s); line := line s |}
    ∧ scanToken s
      = (if isAlpha c then identifier s2
         else if isDigit c then number s2
         else if char_eq c "(" then Some (makeToken TOKEN_LEFT_PAREN s2, s2)
         else if char_eq c ")" then Some (makeToken TOKEN_RIGHT_PAREN s2, s2)
         else if char_eq c "{" then Some (makeToken TOKEN_LEFT_BRACE s2, s2)
         else if char_eq c "}" then Some (makeToken TOKEN_RIGHT_BRACE s2, s2)
         else if char_eq c ";" then Some (makeToken TOKEN_SEMICOLON s2, s2)
         else if char_eq c "," then Some (makeToken TOKEN_COMMA s2, s2)
         else if char_eq c "." then Some (makeToken TOKEN_DOT s2, s2)
         else if char_eq c "-" then Some (makeToken TOKEN_MINUS s2, s2)
         else if char_eq c "+" then Some (makeToken TOKEN_PLUS s2, s2)
         else if char_eq c "/" then Some (makeToken TOKEN_SLASH s2, s2)
         else if char_eq c "*" then Some (makeToken TOKEN_STAR s2, s2)
         else if char_eq c "?" then Some (makeToken TOKEN_QUESTION s2, s2)
         else if char_eq c ":" then Some (makeToken TOKEN_COLON s2, s2)
         else if char_eq c "!" then twoChar "=" TOKEN_BANG_EQUAL TOKEN_BANG s2
         else if char_eq c "=" then twoChar "=" TOKEN_EQUAL_EQUAL TOKEN_EQUAL s2
         else if char_eq c "<" then twoChar "=" TOKEN_LESS_EQUAL TOKEN_LESS s2
         else if char_eq c ">" then
           twoChar "=" TOKEN_GREATER_EQUAL TOKEN_GREATER s2
         else if char_eq c "034" then string_ s2
         else Some (errorToken "Unexpected character." s2, s2)).
Proof.
  intros Hpeek Hws Hnl Hsl HN. eexists. split; [done|].
  unfold scanToken. rewrite skipWhitespace_stop by (by rewrite Hpeek).
  cbn [mbind option_bind]. unfold isAtEnd, advance. cbn [current start line].
  rewrite Nat.sub_succ, Nat.sub_0_r. fold (peek s). rewrite Hpeek.
  unfold char_eq at 1. by rewrite bool_decide_eq_false_2.
Qed.

(** *** Termination *)

(** C10.  [scanToken] terminates on every NUL-terminated source: with the
    cursor anywhere up to the terminator, no loop exhausts its budget of one
    iteration per source character, so the call returns one token; the
    cursor never moves backwards and never passes the terminator, and it
    moves forward unless the token is the end-of-source token. *)
Theorem scanToken_terminates (s : ScannerState) :
  current s ≤ length source →
  ∃ tok s', scanToken s = Some (tok, s')
    ∧ current s ≤ current s' ≤ length source
    ∧ (token_type tok = TOKEN_EOF ∧ isAtEnd s' = true
       ∨ current s < current s').
Proof.
  intros Hs.
  destruct (scanToken_shape s Hs) as (tok & s' & Hrun & Hst & Hcur & _ & Hmove).
  exists tok, s'. split; [done|]. split; [lia|].
  destruct Hmove as [[-> Hend]|Hlt]; [by left|right; lia].
Qed.

(** *** Token slices *)

(** The slice of a token lies in the source text. *)
Definition borrows_source (tok : Token) : Prop :=
  ∃ i, token_start tok = SourcePtr i
       ∧ (0 ≤ token_length tok)%Z
       ∧ (Z.of_nat i + token_length tok ≤ Z.of_nat (length source))%Z.

(** A token of the kind [TOKEN_ERROR] comes from [errorToken], where the
    keyword table has no entry of that kind. *)
Lemma error_token_message (s : ScannerState) (tok : Token)
    (s' : ScannerState) :
  (∀ text n, checkKeyword text n ≠ Some TOKEN_ERROR) →
  scanToken s = Some (tok, s') →
  token_type tok = TOKEN_ERROR →
  ∃ message,
    tok = errorToken message s'
    ∧ (message = "Unterminated string." ∨ message = "Unexpected character.").
Proof.
  intros Hkw Hrun Htype. unfold scanToken in Hrun.
  destruct (skipWhitespace s) as [s0|]; [|done].
  cbn [mbind option_bind] in Hrun.
  destruct (isAtEnd _); [by injection Hrun as <- <-|].
  unfold advance in Hrun.
  repeat match type of Hrun with
         | (if ?c then _ else _) = _ => destruct c
         end;
    unfold identifier, number, string_, twoChar, match_ in Hrun;
    repeat match type of Hrun with
           | (_ ≫= _) = _ =>
               let H := fresh in
               apply bind_Some in Hrun as (? & H & Hrun)
           | (if ?c then _ else _) = _ => destruct c
           | (let '(_, _) := (if ?c then _ else _) in _) = _ => destruct c
           end;
    injection Hrun as <- <-; simpl in Htype; try discriminate Htype;
    try (eexists; split; [reflexivity|]; by auto).
  unfold identifierType in Htype.
  destruct (checkKeyword _ _) eqn:Hc; [|done]. subst. by destruct (Hkw _ _ Hc).
Qed.

(** C7, as the code has it.  [scanToken] is called with the cursor in
    the source or at its end, and the keyword table, which is generated
    and not part of [scanner.c], has no entry of the kind [TOKEN_ERROR].
    A token of another kind than [TOKEN_ERROR] carries a slice that begins
    in the source, at or after the cursor, and ends at the new cursor; the
    slice lies in the source, with its number of characters as length,
    unless the token is longer than [INT_MAX].  A token of the kind
    [TOKEN_ERROR] carries one of the two message literals of the scanner
    and its length, and no part of the source. *)
Theorem token_slice_or_message (s : ScannerState) (tok : Token)
    (s' : ScannerState) :
  current s ≤ length source →
  (∀ text n, checkKeyword text n ≠ Some TOKEN_ERROR) →
  scanToken s = Some (tok, s') →
  (token_type tok ≠ TOKEN_ERROR →
   ∃ i, token_start tok = SourcePtr i
        ∧ current s ≤ i ∧ i ≤ current s' ≤ length source
        ∧ ((Z.of_nat (current s') - Z.of_nat i ≤ INT_MAX)%Z →
           borrows_source tok
           ∧ token_length tok = (Z.of_nat (current s') - Z.of_nat i)%Z))
  ∧ (token_type tok = TOKEN_ERROR →
     ∃ message,
       token_start tok = MessagePtr message
       ∧ (message = "Unterminated string."
          ∨ message = "Unexpected character.")
       ∧ token_length tok = Z.of_nat (String.length message)).
Proof.
  intros Hs Hkw Hrun. split.
  - intros Htype.
    destruct (scanToken_shape s Hs)
      as (tok0 & s0 & Hrun0 & Hst & Hcur & Hem & _).
    rewrite Hrun in Hrun0. injection Hrun0 as <- <-.
    destruct Hem as [type ->|message -> Hmsg]; [|done].
    exists (start s'). split; [done|]. split; [done|]. split; [done|].
    intros Hmax. unfold borrows_source, makeToken. simpl.
    rewrite to_int_small; [|unfold INT_MAX in *; lia].
    split; [|done]. eexists. split; [done|]. lia.
  - intros Htype.
    destruct (error_token_message s tok s' Hkw Hrun Htype)
      as (message & -> & Hmsg).
    exists message. split; [done|]. split; [done|].
    by destruct Hmsg as [->| ->].
Qed.

(** *** String literals *)

(** With the cursor on the opening quote of a terminated string literal,
    [scanToken] makes a STRING token from the opening quote to the
    closing one. *)
Lemma string_token (pre body post : list ascii) (s : ScannerState) :
  source = pre ++ "034"%char :: body ++ "034"%char :: post →
  current s = length pre →
  Forall (λ c, c ≠ "034"%char ∧ c ≠ NUL) body →
  ∃ l,
    let s' := {| start := length pre;
                 current := length pre + length body + 2; line := l |} in
    scanToken s = Some (makeToken TOKEN_STRING s', s').
Proof.
  intros Hsrc Hcur Hbody.
  assert (peek s = "034"%char) as Hpeek.
  { unfold peek, char_at. rewrite Hcur, Hsrc.
    rewrite lookup_app_r; [|lia]. by rewrite Nat.sub_diag. }
  destruct (scanToken_dispatch s "034" Hpeek) as (s2 & Hs2 & ->); [done..|].
  match goal with
  | |- context [if isAlpha _ then ?a else ?b] =>
      change (if isAlpha "034" then a else b) with (string_ s2)
  end.
  unfold string_, budget.
  destruct (stringLoop_segment body (pre ++ ["034"%char]) post
              (S (length source)) s2) as (l & -> & _);
    [ by rewrite Hsrc, <- app_assoc
    | subst s2; simpl; rewrite length_app; simpl; lia
    | done
    | rewrite Hsrc; repeat (rewrite length_app; simpl); lia | ].
  cbn [mbind option_bind].
  assert (source !! (length pre + 1 + length body) = Some "034"%char) as Hclose.
  { rewrite Hsrc. rewrite lookup_app_r; [|lia].
    replace (length pre + 1 + length body - length pre)
      with (S (length body)) by lia.
    simpl. rewrite lookup_app_r; [|lia]. by rewrite Nat.sub_diag. }
  unfold isAtEnd, char_at. cbn [current]. rewrite length_app. cbn [length].
  rewrite Hclose. cbn [default].
  change (char_eq "034" NUL) with false. cbv iota.
  exists l. unfold advance. subst s2. cbn [start current line snd].
  rewrite Hcur.
  by replace (S (length pre + 1 + length body))
    with (length pre + length body + 2) by lia.
Qed.

(** C8, as the code has it.  With the cursor on the opening quote of a
    string literal whose body holds neither a quote nor the terminator
    and which is followed by a closing quote, and whose text with both
    quotes is not longer than [INT_MAX], [scanToken] returns a STRING
    token whose slice starts at the opening quote, whose text is the
    opening quote, the body and the closing quote, and whose length
    counts both quotes. *)
Theorem string_token_spans_quotes (pre body post : list ascii)
    (s : ScannerState) :
  source = pre ++ "034"%char :: body ++ "034"%char :: post →
  current s = length pre →
  Forall (λ c, c ≠ "034"%char ∧ c ≠ NUL) body →
  (Z.of_nat (length body) + 2 ≤ INT_MAX)%Z →
  ∃ tok s', scanToken s = Some (tok, s')
    ∧ token_type tok = TOKEN_STRING
    ∧ token_start tok = SourcePtr (length pre)
    ∧ token_length tok = (Z.of_nat (length body) + 2)%Z
    ∧ lexeme tok = "034"%char :: body ++ ["034"%char]
    ∧ current s' = length pre + length body + 2.
Proof.
  intros Hsrc Hcur Hbody Hmax.
  destruct (string_token pre body post s Hsrc Hcur Hbody) as (l & Hrun).
  cbv zeta in Hrun. eexists _, _. split; [exact Hrun|].
  unfold makeToken, lexeme. cbn.
  rewrite to_int_small by (unfold INT_MAX in *; lia).
  repeat split; try lia.
  replace (Z.to_nat _) with (S (length body + 1)) by lia.
  rewrite Hsrc, drop_app_length. simpl. f_equal.
  rewrite cons_middle, app_assoc.
  rewrite take_app_length'; [done|]. rewrite length_app. simpl. lia.
Qed.

(** *** Hexadecimal literals *)

Definition isHexDigit (c : ascii) : bool := isDigit c || isHex c.

(** The text of a token begins with [0x] or [0X] and then holds at
    least one hexadecimal digit. *)
Definition hex_prefix_has_digit (tok : Token) : Prop :=
  ∀ x, (x = "x"%char ∨ x = "X"%char) →
    lexeme tok !! 0 = Some "0"%char → lexeme tok !! 1 = Some x →
    ∃ c, lexeme tok !! 2 = Some c ∧ isHexDigit c = true.

(** C6, as the code has it.  Called with the cursor on a [0] that is
    directly followed by [x] or [X], [scanToken] returns a NUMBER token
    whose text is the [0], the [x] or [X], and the longest stretch of
    hexadecimal digits that follows, which may be empty; the text is not
    longer than [INT_MAX]. *)
Theorem hex_number_token (pre digits rest : list ascii) (x : ascii)
    (s : ScannerState) :
  source = pre ++ "0"%char :: x :: digits ++ rest →
  x = "x"%char ∨ x = "X"%char →
  current s = length pre →
  Forall (λ c, isHexDigit c = true) digits →
  (∀ c, head rest = Some c → isHexDigit c = false) →
  (2 + Z.of_nat (length digits) ≤ INT_MAX)%Z →
  ∃ tok s', scanToken s = Some (tok, s')
    ∧ token_type tok = TOKEN_NUMBER
    ∧ token_start tok = SourcePtr (length pre)
    ∧ token_length tok = (2 + Z.of_nat (length digits))%Z
    ∧ lexeme tok = "0"%char :: x :: digits.
Proof.
  intros Hsrc Hx Hcur Hdigits Hrest Hmax.
  assert (peek s = "0"%char) as Hpeek.
  { unfold peek, char_at. rewrite Hcur, Hsrc.
    rewrite lookup_app_r; [|lia]. by rewrite Nat.sub_diag. }
  destruct (scanToken_dispatch s "0" Hpeek) as (s2 & Hs2 & ->); [done..|].
  match goal with
  | |- context [if isAlpha _ then ?a else ?b] =>
      change (if isAlpha "0" then a else b) with (number s2)
  end.
  unfold number.
  assert (char_at (current s2 - 1) = "0"%char) as ->.
  { subst s2. cbn [current]. by rewrite Nat.sub_succ, Nat.sub_0_r. }
  assert (peek s2 = x) as ->.
  { subst s2. unfold peek, char_at. cbn [current]. rewrite Hcur, Hsrc.
    rewrite lookup_app_r; [|lia].
    by replace (S (length pre) - length pre) with 1 by lia. }
  assert (char_eq "0" "0" && (char_eq x "x" || char_eq x "X") = true) as ->.
  { by destruct Hx as [->| ->]. }
  rewrite (advanceWhile_segment isHexDigit _ (pre ++ ["0"%char; x]) digits rest);
    [| done | done
     | by rewrite Hsrc, <- app_assoc
     | subst s2; simpl; rewrite length_app; simpl; lia
     | done | done ].
  cbn [mbind option_bind].
  eexists _, _. split; [done|].
  unfold advance, makeToken, lexeme. subst s2. cbn.
  rewrite length_app. cbn [length].
  rewrite to_int_small by (unfold INT_MAX in *; lia).
  rewrite Hcur. repeat split; try lia.
  replace (Z.to_nat _) with (S (S (length digits))) by lia.
  rewrite Hsrc, drop_app_length. simpl. do 2 f_equal.
  by rewrite take_app_length.
Qed.

End WithSource.

(** C6, as stated, fails: [0x] with no digit after it is scanned as a
    NUMBER token. *)
Lemma hex_prefix_alone_is_number :
  let source := ["0"; "x"]%char in
  ∃ tok s',
    scanToken source (λ _ _, None) initScanner = Some (tok, s')
    ∧ token_type tok = TOKEN_NUMBER
    ∧ lexeme source tok = ["0"; "x"]%char
    ∧ ¬ hex_prefix_has_digit source tok.
Proof.
  eexists _, _. split; [vm_compute; reflexivity|].
  split; [done|]. split; [done|].
  intros H. destruct (H "x"%char) as (c & Hc & _); [by left|done..|].
  discriminate Hc.
Qed.

Lemma hex_number_token_witness :
  let source := String.list_ascii_of_string "a = 0x1F;" in
  ∃ tok s',
    scanToken source (λ _ _, None)
      {| start := 2; current := 4; line := 1 |} = Some (tok, s')
    ∧ token_type tok = TOKEN_NUMBER
    ∧ lexeme source tok = ["0"; "x"; "1"; "F"]%char.
Proof.
  destruct (hex_number_token (String.list_ascii_of_string "a = 0x1F;")
              (λ _ _, None) (String.list_ascii_of_string "a = ")
              ["1"; "F"]%char [";"%char] "x"
              {| start := 2; current := 4; line := 1 |})
    as (tok & s' & Hrun & Hty & _ & _ & Hlex);
    [reflexivity | by left | reflexivity | by repeat constructor
    | by intros c [= <-] | vm_compute; discriminate |].
  by exists tok, s'.
Defined.

(** C8, as stated, fails: the length of a token is an [int], and for a
    terminated string literal of [2 ^ 31] characters it is negative. *)
Lemma long_string_length_wraps :
  let n := Z.to_nat 2147483646 in
  let body := replicate n "a"%char in
  let source := "034"%char :: body ++ ["034"%char] in
  ∃ tok s',
    scanToken source (λ _ _, None) initScanner = Some (tok, s')
    ∧ token_type tok = TOKEN_STRING
    ∧ token_length tok = (- 2147483648)%Z
    ∧ token_length tok ≠ (Z.of_nat (length body) + 2)%Z.
Proof.
  intros n body source.
  assert (Z.of_nat n = 2147483646%Z) as Hn by (unfold n; lia).
  clearbody n.
  destruct (string_token source (λ _ _, None) [] body [] initScanner)
    as (l & Hrun); [done|done| |].
  { apply Forall_forall. intros c [-> _]%elem_of_replicate. by split. }
  cbv zeta in Hrun. eexists _, _. split; [exact Hrun|].
  assert (length body = n) as Hlen by apply length_replicate.
  unfold makeToken. cbn [token_type token_length start current length Nat.add].
  rewrite Hlen.
  replace (Z.of_nat (n + 2) - Z.of_nat 0)%Z with 2147483648%Z by lia.
  split; [done|]. split; [reflexivity|].
  rewrite Hn. by vm_compute.
Qed.

Lemma string_token_spans_quotes_witness :
  let body := String.list_ascii_of_string "a
b" in
  let source :=
    String.list_ascii_of_string "print " ++ "034"%char :: body
      ++ "034"%char :: [";"%char] in
  ∃ tok s',
    scanToken source (λ _ _, None)
      {| start := 0; current := 6; line := 1 |} = Some (tok, s')
    ∧ token_length tok = 5%Z ∧ current s' = 11.
Proof.
  destruct (string_token_spans_quotes _
              (λ _ _, None) (String.list_ascii_of_string "print ")
              (String.list_ascii_of_string "a
b") [";"%char] {| start := 0; current := 6; line := 1 |} eq_refl)
    as (tok & s' & Hrun & _ & _ & Hlen & _ & Hcur);
    [reflexivity | repeat constructor; discriminate
    | vm_compute; discriminate |].
  by exists tok, s'.
Defined.

(** C7, as stated, fails: the token for an unexpected character points
    at a message of the scanner, not into the source. *)
Lemma error_token_outside_source :
  ∃ tok s',
    scanToken ["@"%char] (λ _ _, None) initScanner = Some (tok, s')
    ∧ token_type tok = TOKEN_ERROR
    ∧ token_start tok = MessagePtr "Unexpected character."
    ∧ ¬ borrows_source ["@"%char] tok.
Proof.
  eexists _, _. split; [vm_compute; reflexivity|].
  split; [done|]. split; [done|].
  intros (i & Hi & _). simpl in Hi. discriminate.
Qed.

Lemma token_slice_or_message_witness :
  (∃ tok s',
     scanToken (String.list_ascii_of_string "var x = 10;") (λ _ _, None)
       initScanner = Some (tok, s')
     ∧ borrows_source (String.list_ascii_of_string "var x = 10;") tok
     ∧ token_length tok = 3%Z)
  ∧ (∃ tok s' message,
       scanToken (String.list_ascii_of_string "x @") (λ _ _, None)
         {| start := 0; current := 1; line := 1 |} = Some (tok, s')
       ∧ token_start tok = MessagePtr message
       ∧ token_length tok = 21%Z).
Proof.
  split.
  - eexists _, _. split; [vm_compute; reflexivity|].
    destruct (token_slice_or_message
                (String.list_ascii_of_string "var x = 10;") (λ _ _, None)
                initScanner _ _ ltac:(simpl; lia) ltac:(done) eq_refl)
      as [Hslice _].
    destruct Hslice as (i & Hstart & _ & _ & Hfits); [done|].
    injection Hstart as <-.
    destruct Hfits as [Hborrows Hlength]; [vm_compute; discriminate|].
    split; [exact Hborrows|exact Hlength].
  - destruct (token_slice_or_message
                (String.list_ascii_of_string "x @") (λ _ _, None)
                {| start := 0; current := 1; line := 1 |} _ _
                ltac:(simpl; lia) ltac:(done) eq_refl)
      as [_ Herror].
    destruct Herror as (message & Hstart & Hmessage & Hlength); [done|].
    eexists _, _, message. split; [reflexivity|]. split; [exact Hstart|].
    rewrite Hlength. by destruct Hmessage as [->| ->].
Defined.

Lemma scanToken_terminates_witness :
  ∃ tok s',
    scanToken (String.list_ascii_of_string "// note
 (") (λ _ _, None) initScanner = Some (tok, s')
    ∧ current s' = 10.
Proof.
  destruct (scanToken_terminates (String.list_ascii_of_string "// note
 (") (λ _ _, None) initScanner ltac:(simpl; lia)) as (tok & s' & Hrun & _).
  exists tok, s'. split; [done|].
  vm_compute in Hrun. by injection Hrun as <- <-.
Defined.

(** ** More of the scanner *)

Section Tokens.

Variable source : list ascii.
Variable checkKeyword : list ascii → Z → option TokenType.

(** *** Line numbers *)

(** The characters of the source from offset [i] up to offset [j]. *)
Definition between (i j : nat) : list ascii := take (j - i) (drop i source).

Lemma between_app (i j k : nat) :
  i ≤ j ≤ k → between i k = between i j ++ between j k.
Proof.
  intros H. unfold between.
  replace (k - i) with ((j - i) + (k - j)) by lia.
  rewrite <- take_take_drop, drop_drop. do 3 f_equal. lia.
Qed.

Lemma between_one (i : nat) :
  i < length source → between i (S i) = [char_at source i].
Proof.
  intros [c Hc]%lookup_lt_is_Some_2. unfold between, char_at.
  replace (S i - i) with 1 by lia.
  by rewrite (drop_S _ _ _ Hc), Hc.
Qed.

Lemma newlines_app (a b : list ascii) :
  newlines (a ++ b) = (newlines a + newlines b)%Z.
Proof. unfold newlines. rewrite filter_app, length_app. lia. Qed.

Lemma drop_between (i j : nat) :
  i ≤ j → drop i source = between i j ++ drop j source.
Proof.
  intros H. unfold between.
  rewrite <- (take_drop (j - i) (drop i source)) at 1.
  rewrite drop_drop. do 2 f_equal. lia.
Qed.

(** The line counter is an [int], and stays one while the newlines that
    the source still holds are counted. *)
Definition line_fits (s : ScannerState) : Prop :=
  (- 2 ^ 31 ≤ line s)%Z
  ∧ (line s + newlines (drop (current s) source) ≤ INT_MAX)%Z.

(** From [s] to [s'] the cursor has moved forward inside the source, and
    the line counter, if it does not overflow, has grown by the number of
    newlines passed. *)
Definition counted (s s' : ScannerState) : Prop :=
  current s ≤ current s' ≤ length source
  ∧ (line_fits s →
     line s' = (line s + newlines (between (current s) (current s')))%Z).

Lemma counted_same (s s' : ScannerState) :
  current s ≤ length source → current s' = current s → line s' = line s →
  counted s s'.
Proof.
  intros Hs Hc Hl. unfold counted, between. rewrite Hc, Hl, Nat.sub_diag.
  rewrite take_0. unfold newlines. simpl. split; [lia|]. intros _. lia.
Qed.

Lemma counted_trans (s1 s2 s3 : ScannerState) :
  counted s1 s2 → counted s2 s3 → counted s1 s3.
Proof.
  intros [H1 L1] [H2 L2]. split; [lia|]. intros [Hlow Hhigh].
  specialize (L1 (conj Hlow Hhigh)).
  pose proof (newlines_nonneg (between (current s1) (current s2))) as Hnn.
  rewrite (drop_between (current s1) (current s2)), newlines_app in Hhigh
    by lia.
  rewrite L2 by (split; lia).
  rewrite (between_app (current s1) (current s2) (current s3)) by lia.
  rewrite newlines_app. lia.
Qed.

Lemma counted_advance (s : ScannerState) :
  current s < length source → char_eq (peek source s) "010" = false →
  counted s (advance source s).2.
Proof.
  intros Hlt Hnl. split; simpl; [lia|]. intros _.
  rewrite between_one by done. fold (peek source s).
  rewrite newlines_cons, Hnl. unfold newlines. simpl. lia.
Qed.

Lemma counted_advance_newline (s : ScannerState) :
  current s < length source → char_eq (peek source s) "010" = true →
  counted s (advance source (incr_line s)).2.
Proof.
  intros Hlt Hnl. split; simpl; [lia|]. intros [Hlow Hhigh].
  rewrite (drop_between (current s) (S (current s))), newlines_app in Hhigh
    by lia.
  pose proof (newlines_nonneg (drop (S (current s)) source)) as Hnn.
  rewrite between_one in Hhigh |- * by done. fold (peek source s) in Hhigh |- *.
  rewrite newlines_cons, Hnl in Hhigh |- *. unfold newlines in Hhigh |- * at 1.
  simpl in Hhigh |- *.
  rewrite to_int_small by (unfold INT_MAX in *; lia). lia.
Qed.

Lemma advanceWhile_counted (p : ascii → bool) (cond : ScannerState → bool)
    (fuel : nat) (s : ScannerState) :
  (∀ s, cond s = p (peek source s)) → p NUL = false → p "010"%char = false →
  length source - current s < fuel → current s ≤ length source →
  ∃ s', advanceWhile source cond fuel s = Some s'
        ∧ start s' = start s ∧ counted s s'.
Proof.
  intros Hcond HNUL Hnl. revert s.
  induction fuel as [|fuel IH]; intros s Hfuel Hle; [lia|].
  cbn [advanceWhile]. rewrite Hcond.
  destruct (p (peek source s)) eqn:Hp.
  - assert (current s < length source) as Hlt.
    { apply not_NUL_in_source. unfold peek in Hp. congruence. }
    assert (char_eq (peek source s) "010" = false) as Hc.
    { apply bool_decide_eq_false. congruence. }
    destruct (IH (advance source s).2) as (s' & Hrun & Hst & Hcount);
      [simpl; lia..|].
    exists s'. split; [done|]. split; [done|].
    eapply counted_trans; [by apply counted_advance|done].
  - exists s. split; [done|]. split; [done|]. by apply counted_same.
Qed.

Lemma stringLoop_counted (fuel : nat) (s : ScannerState) :
  length source - current s < fuel → current s ≤ length source →
  ∃ s', stringLoop source fuel s = Some s'
        ∧ start s' = start s ∧ counted s s'
        ∧ (isAtEnd source s' = true ∨ peek source s' = "034"%char).
Proof.
  revert s. induction fuel as [|fuel IH]; intros s Hfuel Hle; [lia|].
  cbn [stringLoop].
  destruct (negb (char_eq (peek source s) "034") && negb (isAtEnd source s))
    eqn:Hc.
  - apply andb_true_iff in Hc as [_ Hend%negb_true_iff].
    apply isAtEnd_false_lt in Hend.
    destruct (char_eq (peek source s) "010") eqn:Hnl.
    + destruct (IH (advance source (incr_line s)).2)
        as (s' & Hrun & Hst & Hcount & Hstop); [simpl; lia..|].
      exists s'. split; [done|]. split; [done|]. split; [|done].
      eapply counted_trans; [by apply counted_advance_newline|done].
    + destruct (IH (advance source s).2)
        as (s' & Hrun & Hst & Hcount & Hstop); [simpl; lia..|].
      exists s'. split; [done|]. split; [done|]. split; [|done].
      eapply counted_trans; [by apply counted_advance|done].
  - exists s. split; [done|]. split; [done|].
    split; [by apply counted_same|].
    apply andb_false_iff in Hc as [Hq%negb_false_iff|Hend%negb_false_iff];
      [right; by apply bool_decide_eq_true in Hq|by left].
Qed.

Lemma skipWhitespaceLoop_counted (fuel : nat) (s : ScannerState) :
  length source - current s < fuel → current s ≤ length source →
  ∃ s', skipWhitespaceLoop source fuel s = Some s'
        ∧ counted s s' ∧ char_eq (peek source s') "010" = false.
Proof.
  revert s. induction fuel as [|fuel IH]; intros s Hfuel Hle; [lia|].
  cbn [skipWhitespaceLoop]. cbv zeta.
  assert (∀ c : ascii, c ≠ NUL → char_eq (peek source s) c = true →
          current s < length source) as Hin.
  { intros c Hc Heq%bool_decide_eq_true. apply not_NUL_in_source.
    unfold peek in Heq. congruence. }
  destruct (char_eq (peek source s) " " || char_eq (peek source s) "013"
            || char_eq (peek source s) "009") eqn:Hws.
  { assert (current s < length source
            ∧ char_eq (peek source s) "010" = false) as [Hlt Hnl].
    { apply orb_true_iff in Hws as [Hws|Hws];
        [apply orb_true_iff in Hws as [Hws|Hws]|];
        (split; [eapply Hin; [|eassumption]; discriminate|]);
        apply bool_decide_eq_true in Hws; by rewrite Hws. }
    destruct (IH (advance source s).2) as (s' & -> & Hcount & Hstop);
      [simpl; lia..|].
    exists s'. split; [done|]. split; [|done].
    eapply counted_trans; [by apply counted_advance|done]. }
  destruct (char_eq (peek source s) "010") eqn:Hnl.
  { assert (current s < length source) as Hlt
      by (eapply Hin; [|eassumption]; discriminate).
    destruct (IH (advance source (incr_line s)).2)
      as (s' & -> & Hcount & Hstop); [simpl; lia..|].
    exists s'. split; [done|]. split; [|done].
    eapply counted_trans; [by apply counted_advance_newline|done]. }
  destruct (char_eq (peek source s) "/") eqn:Hsl;
    [|exists s; split; [done|]; split; [by apply counted_same|done]].
  destruct (char_eq (peekNext source s) "/");
    [|exists s; split; [done|]; split; [by apply counted_same|done]].
  assert (current s < length source) as Hlt
    by (eapply Hin; [|eassumption]; discriminate).
  destruct (advanceWhile_run source
              (λ c, negb (char_eq c "010") && negb (char_eq c NUL))
              (λ s, negb (char_eq (peek source s) "010")
                    && negb (isAtEnd source s))
              (budget source) s) as (n & Hrun & _ & Hstop & Hb);
    [done|done|unfold budget; lia|].
  destruct (advanceWhile_counted
              (λ c, negb (char_eq c "010") && negb (char_eq c NUL))
              (λ s, negb (char_eq (peek source s) "010")
                    && negb (isAtEnd source s))
              (budget source) s) as (s1 & Hrun1 & _ & Hcount1);
    [done|done|done|unfold budget; lia|lia|].
  rewrite Hrun in Hrun1. injection Hrun1 as <-. rewrite Hrun.
  cbn [mbind option_bind].
  assert (0 < n) as Hn.
  { destruct n; [|lia]. exfalso. rewrite Nat.add_0_r in Hstop.
    apply bool_decide_eq_true in Hsl. unfold peek in Hsl.
    by rewrite Hsl in Hstop. }
  destruct Hb as [->|Hb]; [lia|].
  destruct (IH {| start := start s; current := current s + n;
                  line := line s |}) as (s' & -> & Hcount & Hstop');
    [simpl; lia..|].
  exists s'. split; [done|]. split; [|done].
  eapply counted_trans; done.
Qed.

(** A token constructor of [scanToken] that keeps the count, and gives
    the token the line where it ends. *)
Definition counts (f : ScannerState → option (Token * ScannerState)) : Prop :=
  ∀ s, current s ≤ length source →
    ∃ tok s', f s = Some (tok, s') ∧ counted s s' ∧ token_line tok = line s'.

Lemma makeToken_counts (type : TokenType) :
  counts (λ s, Some (makeToken type s, s)).
Proof.
  intros s Hs. exists (makeToken type s), s.
  split; [done|]. split; [by apply counted_same|done].
Qed.

Lemma errorToken_counts (message : string) :
  counts (λ s, Some (errorToken message s, s)).
Proof.
  intros s Hs. exists (errorToken message s), s.
  split; [done|]. split; [by apply counted_same|done].
Qed.

Lemma identifier_counts : counts (identifier source checkKeyword).
Proof.
  intros s Hs. unfold identifier.
  destruct (advanceWhile_counted (λ c, isAlpha c || isDigit c)
              (λ s, isAlpha (peek source s) || isDigit (peek source s))
              (budget source) s) as (s' & -> & _ & Hcount);
    [done|done|done|unfold budget; lia|done|].
  by eexists _, s'.
Qed.

Lemma number_counts : counts (number source).
Proof.
  intros s Hs. unfold number.
  assert (∀ p cond s0 s1,
            (∀ s, cond s = p (peek source s)) → p NUL = false →
            p "010"%char = false → counted s0 s1 →
            ∃ s', advanceWhile source cond (budget source) s1 = Some s'
                  ∧ counted s0 s') as Hloop.
  { intros p cond s0 s1 Hcond HNUL Hnl Hcount.
    destruct (advanceWhile_counted p cond (budget source) s1)
      as (s' & Hrun & _ & Hcount'); [done..|unfold budget; lia| |].
    { destruct Hcount as [? _]. lia. }
    exists s'. split; [done|]. by eapply counted_trans. }
  assert (∀ c s1, c ≠ NUL → c ≠ "010"%char → char_eq (peek source s1) c = true →
            current s1 ≤ length source →
            counted s1 (advance source s1).2) as Hone.
  { intros c s1 HN Hnl Hc%bool_decide_eq_true Hs1. apply counted_advance.
    - apply not_NUL_in_source. unfold peek in Hc. congruence.
    - apply bool_decide_eq_false. congruence. }
  destruct (char_eq _ "0" && _) eqn:Hhex.
  - apply andb_true_iff in Hhex as [_ Hx].
    destruct (Hloop isHexDigit
                (λ s, isDigit (peek source s) || isHex (peek source s))
                s (advance source s).2) as (s' & -> & Hcount); [done..| |].
    { apply orb_true_iff in Hx as [Hx|Hx];
        (eapply Hone; [| |exact Hx|done]; discriminate). }
    by eexists _, s'.
  - destruct (Hloop isDigit (λ s, isDigit (peek source s)) s s)
      as (s1 & -> & Hcount1); [done..|by apply counted_same|].
    cbn [mbind option_bind].
    destruct (char_eq (peek source s1) "." && _) eqn:Hdot.
    + apply andb_true_iff in Hdot as [Hdot _].
      destruct (Hloop isDigit (λ s, isDigit (peek source s)) s
                  (advance source s1).2) as (s' & -> & Hcount); [done..| |].
      { eapply counted_trans; [done|].
        eapply Hone; [| |exact Hdot|]; [discriminate..|].
        destruct Hcount1 as [? _]. lia. }
      by eexists _, s'.
    + by eexists _, s1.
Qed.

Lemma string_counts : counts (string_ source).
Proof.
  intros s Hs. unfold string_.
  destruct (stringLoop_counted (budget source) s)
    as (s' & -> & _ & Hcount & Hstop); [unfold budget; lia|done|].
  cbn [mbind option_bind].
  destruct (isAtEnd source s') eqn:Hend; [by eexists _, s'|].
  destruct Hstop as [?|Hquote]; [congruence|].
  eexists _, _. split; [done|]. split; [|done].
  eapply counted_trans; [done|]. apply counted_advance.
  - by apply isAtEnd_false_lt.
  - by rewrite Hquote.
Qed.

Lemma twoChar_counts (second : ascii) (yes no : TokenType) :
  second ≠ "010"%char → counts (twoChar source second yes no).
Proof.
  intros Hsecond s Hs. unfold twoChar, match_.
  destruct (isAtEnd source s) eqn:Hend.
  { eexists _, s. split; [done|]. split; [by apply counted_same|done]. }
  destruct (char_eq (char_at source (current s)) second) eqn:Hc; cbn [negb].
  - eexists _, _. split; [done|]. split; [|done].
    apply (counted_advance s); [by apply isAtEnd_false_lt|].
    apply bool_decide_eq_true in Hc. apply bool_decide_eq_false.
    unfold peek. congruence.
  - eexists _, s. split; [done|]. split; [by apply counted_same|done].
Qed.

(** X7.  [scanToken] keeps the line counter in step with the text, as
    long as the counter, an [int], does not overflow: over one call it
    grows by the number of newlines between the old and the new position
    of the cursor (in whitespace, in comments and inside a string
    literal), and the token carries the counter as it is when the token
    ends. *)
Theorem scanToken_counts_newlines (s : ScannerState) :
  current s ≤ length source →
  (- 2 ^ 31 ≤ line s)%Z →
  (line s + newlines (drop (current s) source) ≤ INT_MAX)%Z →
  ∃ tok s', scanToken source checkKeyword s = Some (tok, s')
    ∧ token_line tok = line s'
    ∧ line s' = (line s + newlines (between (current s) (current s')))%Z.
Proof.
  intros Hs Hlow Hhigh. unfold scanToken, skipWhitespace.
  destruct (skipWhitespaceLoop_counted (budget source) s)
    as (s0 & -> & Hcount0 & Hstop); [unfold budget; lia|done|].
  cbn [mbind option_bind]. set (s1 := {| start := current s0 |}).
  assert (counted s s1) as Hcount1.
  { eapply counted_trans; [done|]. apply counted_same; [|done..].
    destruct Hcount0 as [? _]. lia. }
  destruct (isAtEnd source s1) eqn:Hend.
  { exists (makeToken TOKEN_EOF s1), s1. split; [done|]. split; [done|].
    by apply Hcount1. }
  apply isAtEnd_false_lt in Hend.
  unfold advance. set (c := char_at _ _). set (s2 := {| start := start s1 |}).
  assert (counted s s2) as Hcount2.
  { eapply counted_trans; [done|]. by apply (counted_advance s1). }
  assert (∀ f, counts f →
    ∃ tok s', f s2 = Some (tok, s')
      ∧ token_line tok = line s'
      ∧ line s' = (line s + newlines (between (current s) (current s')))%Z)
    as Hf.
  { intros f Hcounts.
    destruct (Hcounts s2) as (tok & s' & Hrun & Hcount & Hline);
      [simpl in *; lia|].
    exists tok, s'. split; [done|]. split; [done|].
    by apply (counted_trans _ _ _ Hcount2 Hcount). }
  destruct (isAlpha c); [apply Hf, identifier_counts|].
  destruct (isDigit c); [apply Hf, number_counts|].
  repeat (destruct (char_eq c _);
          [first [apply (Hf _ (makeToken_counts _))
                 | by apply Hf, twoChar_counts
                 | apply Hf, string_counts]|]).
  apply (Hf _ (errorToken_counts _)).
Qed.

(** *** The end of the source *)

(** X8.  Once [scanToken] has returned the end-of-source token, the
    scanner stays where it is: the terminator is under the cursor, the
    token is empty, and every further call returns the same token again. *)
Theorem eof_token_repeats (s : ScannerState) (tok : Token)
    (s' : ScannerState) :
  (∀ text length, checkKeyword text length ≠ Some TOKEN_EOF) →
  scanToken source checkKeyword s = Some (tok, s') →
  token_type tok = TOKEN_EOF →
  isAtEnd source s' = true
  ∧ token_length tok = 0%Z
  ∧ scanToken source checkKeyword s' = Some (tok, s').
Proof.
  intros Hkw Hrun Htype. unfold scanToken in Hrun.
  destruct (skipWhitespace source s) as [s0|]; [|done].
  cbn [mbind option_bind] in Hrun.
  destruct (isAtEnd source _) eqn:Hend.
  - injection Hrun as <- <-. split; [done|]. split.
    { simpl. by rewrite Z.sub_diag. }
    assert (peek source {| start := current s0; current := current s0;
                           line := line s0 |} = NUL) as Hpeek.
    { by apply bool_decide_eq_true in Hend. }
    unfold scanToken. rewrite skipWhitespace_stop by (by rewrite Hpeek).
    cbn [mbind option_bind current line]. by rewrite Hend.
  - exfalso. unfold advance in Hrun.
    repeat match type of Hrun with
           | (if ?c then _ else _) = _ => destruct c
           end;
      unfold identifier, number, string_, twoChar, match_ in Hrun;
      repeat match type of Hrun with
             | (_ ≫= _) = _ =>
                 let H := fresh in
                 apply bind_Some in Hrun as (? & H & Hrun)
             | (if ?c then _ else _) = _ => destruct c
             | (let '(_, _) := (if ?c then _ else _) in _) = _ => destruct c
             end;
      try (injection Hrun as <- <-; simpl in Htype; try discriminate Htype).
    unfold identifierType in Htype.
    destruct (checkKeyword _ _) eqn:Hc; [|done]. subst. by eapply Hkw.
Qed.

(** *** Identifiers and keywords *)

Definition isAlphaNumeric (c : ascii) : bool := isAlpha c || isDigit c.

(** X9.  With the cursor on a letter or underscore, [scanToken] returns
    one token for the longest stretch of letters, digits and underscores
    that starts there.  Its kind is the one [checkKeyword] gives for that
    text and its length, and [TOKEN_IDENTIFIER] where it gives none; its
    line is the current one.  The length of a token is an [int]: this is
    for a token of at most [INT_MAX] characters. *)
Theorem identifier_token (pre body rest : list ascii) (c : ascii)
    (s : ScannerState) :
  source = pre ++ c :: body ++ rest →
  current s = length pre →
  isAlpha c = true →
  Forall (λ c, isAlphaNumeric c = true) body →
  (∀ c, head rest = Some c → isAlphaNumeric c = false) →
  (1 + Z.of_nat (length body) ≤ INT_MAX)%Z →
  ∃ tok s', scanToken source checkKeyword s = Some (tok, s')
    ∧ token_type tok
      = default TOKEN_IDENTIFIER
          (checkKeyword (c :: body ++ rest) (1 + Z.of_nat (length body)))
    ∧ token_start tok = SourcePtr (length pre)
    ∧ lexeme source tok = c :: body
    ∧ token_line tok = line s
    ∧ s' = {| start := length pre; current := length pre + 1 + length body;
              line := line s |}.
Proof.
  intros Hsrc Hcur Halpha Hbody Hrest Hmax.
  assert (peek source s = c) as Hpeek.
  { unfold peek, char_at. rewrite Hcur, Hsrc.
    rewrite lookup_app_r; [|lia]. by rewrite Nat.sub_diag. }
  assert (c ≠ NUL) as HN by (by intros ->).
  destruct (scanToken_dispatch source checkKeyword s c Hpeek)
    as (s2 & Hs2 & ->); [by destruct c as [[] [] [] [] [] [] [] []]..|done|].
  rewrite Halpha. unfold identifier.
  rewrite (advanceWhile_segment source isAlphaNumeric _ (pre ++ [c]) body rest);
    [| done | done
     | by rewrite Hsrc, <- app_assoc
     | subst s2; simpl; rewrite length_app; simpl; lia
     | done | done ].
  cbn [mbind option_bind].
  eexists _, _. split; [done|].
  unfold identifierType, makeToken, lexeme. subst s2. cbn.
  rewrite length_app. cbn [length].
  rewrite to_int_small.
  2:{ unfold INT_MAX in *. lia. }
  rewrite Hcur.
  replace (Z.of_nat (length pre + 1 + length body) - Z.of_nat (length pre))%Z
    with (1 + Z.of_nat (length body))%Z by lia.
  rewrite Hsrc, drop_app_length.
  split; [by destruct (checkKeyword _ _)|]. split; [done|].
  split; [|split; [done|f_equal; lia]].
  replace (Z.to_nat _) with (S (length body)) by lia.
  simpl. f_equal. by rewrite take_app_length.
Qed.

(** *** Decimal numbers *)

Lemma char_at_app (a b : list ascii) (k : nat) :
  source = a ++ b → char_at source (length a + k) = default NUL (b !! k).
Proof.
  intros ->. unfold char_at. rewrite lookup_app_r; [|lia].
  by replace (length a + k - length a) with k by lia.
Qed.

Lemma peek_app (a b : list ascii) (s : ScannerState) :
  source = a ++ b → current s = length a →
  peek source s = default NUL (head b).
Proof.
  intros Hsrc Hcur. unfold peek. rewrite Hcur, <- (Nat.add_0_r (length a)).
  rewrite (char_at_app a b 0 Hsrc). by destruct b.
Qed.

(** X10.  With the cursor on a digit that does not begin a hexadecimal
    literal, and with no fraction after the digits, [scanToken] returns a
    NUMBER token for the longest stretch of digits.  A dot that no digit
    follows is not part of the number: it is left for the next token.
    The length of a token is an [int]: this is for a token of at most
    [INT_MAX] characters. *)
Theorem integer_token (pre digits rest : list ascii) (c : ascii)
    (s : ScannerState) :
  source = pre ++ c :: digits ++ rest →
  current s = length pre →
  isDigit c = true →
  Forall (λ c, isDigit c = true) digits →
  (∀ d, head rest = Some d → isDigit d = false) →
  ¬ (c = "0"%char ∧ digits = []
     ∧ (head rest = Some "x"%char ∨ head rest = Some "X"%char)) →
  ¬ (∃ d, rest !! 0 = Some "."%char ∧ rest !! 1 = Some d ∧ isDigit d = true) →
  (1 + Z.of_nat (length digits) ≤ INT_MAX)%Z →
  ∃ tok s', scanToken source checkKeyword s = Some (tok, s')
    ∧ token_type tok = TOKEN_NUMBER
    ∧ token_start tok = SourcePtr (length pre)
    ∧ lexeme source tok = c :: digits
    ∧ token_line tok = line s
    ∧ s' = {| start := length pre; current := length pre + 1 + length digits;
              line := line s |}.
Proof.
  intros Hsrc Hcur Hc Hdigits Hrest Hhex Hfrac Hmax.
  assert (peek source s = c) as Hpeek.
  { by rewrite (peek_app pre (c :: digits ++ rest)). }
  assert (c ≠ NUL) as HN by (by intros ->).
  destruct (scanToken_dispatch source checkKeyword s c Hpeek)
    as (s2 & Hs2 & ->); [by destruct c as [[] [] [] [] [] [] [] []]..|done|].
  assert (isAlpha c = false) as ->
    by (by destruct c as [[] [] [] [] [] [] [] []]).
  rewrite Hc. unfold number.
  assert (source = (pre ++ [c]) ++ digits ++ rest) as Hsrc2
    by (by rewrite Hsrc, <- app_assoc).
  assert (current s2 = length (pre ++ [c])) as Hcur2
    by (subst s2; simpl; rewrite length_app; simpl; lia).
  assert (char_at source (current s2 - 1) = c) as ->.
  { subst s2. cbn [current]. by rewrite Nat.sub_succ, Nat.sub_0_r. }
  assert (char_eq c "0" && (char_eq (peek source s2) "x"
                            || char_eq (peek source s2) "X") = false) as ->.
  { rewrite (peek_app _ _ s2 Hsrc2 Hcur2).
    destruct (char_eq c "0") eqn:Hzero; [|done]. simpl.
    apply bool_decide_eq_true in Hzero.
    destruct digits as [|d digits'].
    - simpl. destruct (head rest) as [x|] eqn:Hx; [|done]. simpl.
      apply orb_false_iff. split; apply bool_decide_eq_false; intros ->;
        apply Hhex; auto.
    - apply Forall_cons in Hdigits as [Hd _]. simpl.
      by destruct d as [[] [] [] [] [] [] [] []]. }
  rewrite (advanceWhile_segment source isDigit _ (pre ++ [c]) digits rest);
    [|done..].
  cbn [mbind option_bind].
  set (s1 := {| start := start s2 |}).
  assert (char_eq (peek source s1) "." && isDigit (peekNext source s1) = false)
    as ->.
  { assert (source = ((pre ++ [c]) ++ digits) ++ rest) as Hsrc1
      by (by rewrite <- app_assoc).
    assert (current s1 = length ((pre ++ [c]) ++ digits)) as Hcur1
      by (by rewrite (length_app _ digits)).
    rewrite (peek_app _ _ s1 Hsrc1 Hcur1).
    destruct (char_eq _ ".") eqn:Hdot; [|done]. simpl.
    apply bool_decide_eq_true in Hdot.
    unfold peekNext, isAtEnd. fold (peek source s1).
    rewrite (peek_app _ _ s1 Hsrc1 Hcur1), Hdot. simpl.
    rewrite <- (length_app _ digits), (char_at_app _ _ 1 Hsrc1).
    destruct (rest !! 1) as [d|] eqn:Hd; [|done]. simpl.
    apply not_true_is_false. intros Hdigit. apply Hfrac. exists d.
    destruct rest as [|dot rest']; [done|]. simpl in *. by subst. }
  eexists _, _. split; [done|].
  unfold makeToken, lexeme. subst s1 s2. cbn.
  rewrite length_app. cbn [length].
  rewrite to_int_small.
  2:{ unfold INT_MAX in *. lia. }
  rewrite Hcur. split; [done|]. split; [done|]. split; [|done].
  replace (Z.to_nat _) with (S (length digits)) by lia.
  rewrite Hsrc, drop_app_length. simpl. f_equal. by rewrite take_app_length.
Qed.

(** X11.  Digits, a dot and at least one more digit are scanned as one
    NUMBER token, which ends with the longest stretch of digits after the
    dot.  The length of a token is an [int]: this is for a token of at
    most [INT_MAX] characters. *)
Theorem fraction_token (pre digits frac rest : list ascii) (c d : ascii)
    (s : ScannerState) :
  source = pre ++ c :: digits ++ "."%char :: d :: frac ++ rest →
  current s = length pre →
  isDigit c = true → Forall (λ c, isDigit c = true) digits →
  isDigit d = true → Forall (λ c, isDigit c = true) frac →
  (∀ x, head rest = Some x → isDigit x = false) →
  (Z.of_nat (length digits) + Z.of_nat (length frac) + 3 ≤ INT_MAX)%Z →
  ∃ tok s', scanToken source checkKeyword s = Some (tok, s')
    ∧ token_type tok = TOKEN_NUMBER
    ∧ token_start tok = SourcePtr (length pre)
    ∧ lexeme source tok = c :: digits ++ "."%char :: d :: frac
    ∧ token_line tok = line s
    ∧ current s' = length pre + length digits + length frac + 3.
Proof.
  intros Hsrc Hcur Hc Hdigits Hd Hfrac Hrest Hmax.
  assert (peek source s = c) as Hpeek.
  { by rewrite (peek_app pre (c :: digits ++ "."%char :: d :: frac ++ rest)). }
  assert (c ≠ NUL) as HN by (by intros ->).
  destruct (scanToken_dispatch source checkKeyword s c Hpeek)
    as (s2 & Hs2 & ->); [by destruct c as [[] [] [] [] [] [] [] []]..|done|].
  assert (isAlpha c = false) as ->
    by (by destruct c as [[] [] [] [] [] [] [] []]).
  rewrite Hc. unfold number.
  set (tail := "."%char :: d :: frac ++ rest) in *.
  assert (source = (pre ++ [c]) ++ digits ++ tail) as Hsrc2
    by (by rewrite Hsrc, <- app_assoc).
  assert (current s2 = length (pre ++ [c])) as Hcur2
    by (subst s2; simpl; rewrite length_app; simpl; lia).
  assert (char_eq (peek source s2) "x" || char_eq (peek source s2) "X" = false)
    as ->.
  { rewrite (peek_app _ _ s2 Hsrc2 Hcur2).
    destruct digits as [|d0 digits']; [done|].
    apply Forall_cons in Hdigits as [Hd0 _]. simpl.
    by destruct d0 as [[] [] [] [] [] [] [] []]. }
  rewrite andb_false_r.
  rewrite (advanceWhile_segment source isDigit _ (pre ++ [c]) digits tail);
    [|done..|by intros x [= <-]].
  cbn [mbind option_bind].
  set (s1 := {| start := start s2 |}).
  assert (source = ((pre ++ [c]) ++ digits) ++ tail) as Hsrc1
    by (by rewrite <- app_assoc).
  assert (current s1 = length ((pre ++ [c]) ++ digits)) as Hcur1
    by (by rewrite (length_app _ digits)).
  assert (char_eq (peek source s1) "." && isDigit (peekNext source s1) = true)
    as ->.
  { unfold peekNext, isAtEnd. fold (peek source s1).
    rewrite (peek_app _ _ s1 Hsrc1 Hcur1). simpl.
    rewrite <- (length_app _ digits), (char_at_app _ _ 1 Hsrc1). by simpl. }
  rewrite (advanceWhile_segment source isDigit _
             (((pre ++ [c]) ++ digits) ++ ["."%char]) (d :: frac) rest);
    [| done | done
     | by rewrite Hsrc1, <- (app_assoc _ ["."%char])
     | simpl; rewrite !length_app; simpl; lia
     | by constructor | done ].
  cbn [mbind option_bind].
  eexists _, _. split; [done|].
  unfold makeToken, lexeme. subst s1 s2. cbn.
  rewrite !length_app. cbn [length].
  rewrite to_int_small.
  2:{ unfold INT_MAX in *. lia. }
  rewrite Hcur. split; [done|]. split; [done|]. split; [|split; [done|lia]].
  replace (Z.to_nat _) with (length (c :: digits ++ "."%char :: d :: frac)).
  2:{ simpl. rewrite length_app. simpl. lia. }
  rewrite Hsrc, drop_app_length. unfold tail.
  replace (c :: digits ++ "."%char :: d :: frac ++ rest)
    with ((c :: digits ++ "."%char :: d :: frac) ++ rest).
  2:{ simpl. f_equal. rewrite <- app_assoc. done. }
  by rewrite take_app_length.
Qed.

(** *** Whitespace and comments *)

(** With more fuel than characters left, the loop of [skipWhitespace]
    does not depend on the fuel. *)
Lemma skipWhitespaceLoop_fuel (fuel fuel' : nat) (s : ScannerState) :
  length source - current s < fuel → length source - current s < fuel' →
  current s ≤ length source →
  skipWhitespaceLoop source fuel s = skipWhitespaceLoop source fuel' s.
Proof.
  revert fuel' s. induction fuel as [|fuel IH]; intros fuel' s Hfuel Hfuel' Hle;
    [lia|]. destruct fuel' as [|fuel']; [lia|].
  cbn [skipWhitespaceLoop]. cbv zeta.
  assert (∀ c : ascii, c ≠ NUL → char_eq (peek source s) c = true →
          current s < length source) as Hin.
  { intros c Hc Heq%bool_decide_eq_true. apply not_NUL_in_source.
    unfold peek in Heq. congruence. }
  destruct (char_eq (peek source s) " " || char_eq (peek source s) "013"
            || char_eq (peek source s) "009") eqn:Hws.
  { assert (current s < length source) as Hlt.
    { apply orb_true_iff in Hws as [Hws|Hws];
        [apply orb_true_iff in Hws as [Hws|Hws]|];
        (eapply Hin; [|eassumption]; discriminate). }
    apply IH; simpl; lia. }
  destruct (char_eq (peek source s) "010") eqn:Hnl.
  { assert (current s < length source) as Hlt
      by (eapply Hin; [|eassumption]; discriminate).
    apply IH; simpl; lia. }
  destruct (char_eq (peek source s) "/") eqn:Hsl; [|done].
  destruct (char_eq (peekNext source s) "/"); [|done].
  assert (current s < length source) as Hlt
    by (eapply Hin; [|eassumption]; discriminate).
  destruct (advanceWhile_run source
              (λ c, negb (char_eq c "010") && negb (char_eq c NUL))
              (λ s, negb (char_eq (peek source s) "010")
                    && negb (isAtEnd source s))
              (budget source) s) as (n & -> & _ & Hstop & Hb);
    [done|done|unfold budget; lia|].
  cbn [mbind option_bind].
  assert (0 < n) as Hn.
  { destruct n; [|lia]. exfalso. rewrite Nat.add_0_r in Hstop.
    apply bool_decide_eq_true in Hsl. unfold peek in Hsl.
    by rewrite Hsl in Hstop. }
  destruct Hb as [->|Hb]; [lia|].
  apply IH; simpl; lia.
Qed.

Definition blank (c : ascii) : Prop :=
  c = " "%char ∨ c = "013"%char ∨ c = "009"%char ∨ c = "010"%char.

Lemma skipWhitespaceLoop_blanks (ws : list ascii) :
  ∀ (pre rest : list ascii) (fuel : nat) (s : ScannerState),
  source = pre ++ ws ++ rest → current s = length pre →
  Forall blank ws →
  (- 2 ^ 31 ≤ line s)%Z → (line s + newlines ws ≤ INT_MAX)%Z →
  skipWhitespaceLoop source (length ws + fuel) s
  = skipWhitespaceLoop source fuel
      {| start := start s; current := length pre + length ws;
         line := (line s + newlines ws)%Z |}.
Proof.
  induction ws as [|c ws IH];
    intros pre rest fuel s Hsrc Hcur Hws Hlow Hhigh.
  - simpl. unfold newlines. simpl. rewrite Z.add_0_r, Nat.add_0_r, <- Hcur.
    by destruct s.
  - apply Forall_cons in Hws as [Hc Hws].
    assert (peek source s = c) as Hpeek.
    { by rewrite (peek_app pre ((c :: ws) ++ rest)). }
    assert (source = (pre ++ [c]) ++ ws ++ rest) as Hsrc'
      by (by rewrite Hsrc, <- app_assoc).
    assert (length (pre ++ [c]) = S (length pre)) as Hlen
      by (rewrite length_app; simpl; lia).
    pose proof (newlines_nonneg ws) as Hnn.
    rewrite newlines_cons in Hhigh.
    set (s1 := {| start := start s; current := S (current s);
                  line := (line s + (if char_eq c "010" then 1 else 0))%Z |}).
    assert (skipWhitespaceLoop source (length (c :: ws) + fuel) s
            = skipWhitespaceLoop source (length ws + fuel) s1) as ->.
    { cbn [length Nat.add skipWhitespaceLoop]. cbv zeta. rewrite Hpeek.
      unfold s1.
      destruct Hc as [->|[->|[->| ->]]].
      1-3: by cbn; rewrite Z.add_0_r.
      change (char_eq "010" " " || char_eq "010" "013"
              || char_eq "010" "009") with false.
      change (char_eq "010" "010") with true in *. cbv iota.
      unfold advance, incr_line. cbn [snd start current line].
      rewrite to_int_small; [done|]. unfold INT_MAX in *. lia. }
    rewrite (IH (pre ++ [c]) rest fuel s1 Hsrc');
      [|simpl; lia|done|unfold s1; simpl; destruct (char_eq c "010"); lia
       |unfold s1; simpl; lia].
    unfold s1. cbn [start line]. rewrite Hlen, newlines_cons.
    cbn [length]. do 2 f_equal; lia.
Qed.

(** X12.  Blanks, tabs, carriage returns and newlines before a token are
    skipped: a call with the cursor before them returns what a call with
    the cursor after them returns, the line counter advanced by the number
    of newlines among them, as long as the counter, an [int], does not
    overflow on the way. *)
Theorem whitespace_skipped (pre ws rest : list ascii) (s : ScannerState) :
  source = pre ++ ws ++ rest →
  current s = length pre →
  Forall blank ws →
  (- 2 ^ 31 ≤ line s)%Z →
  (line s + newlines ws ≤ INT_MAX)%Z →
  scanToken source checkKeyword s
  = scanToken source checkKeyword
      {| start := start s; current := length pre + length ws;
         line := (line s + newlines ws)%Z |}.
Proof.
  intros Hsrc Hcur Hws Hlow Hhigh. unfold scanToken, skipWhitespace.
  assert (length source = length pre + length ws + length rest) as Hlen
    by (rewrite Hsrc, !length_app; lia).
  rewrite (skipWhitespaceLoop_fuel _ (length ws + budget source) s);
    [|unfold budget; lia..].
  by rewrite (skipWhitespaceLoop_blanks ws pre rest).
Qed.

(** X13.  A comment is skipped up to the end of its line: with the cursor
    on [//], a call returns what a call with the cursor at the end of the
    line returns.  The comment ends at the newline, which is not part of
    it, or at the end of the source. *)
Theorem comment_skipped (pre body rest : list ascii) (s : ScannerState) :
  source = pre ++ "/"%char :: "/"%char :: body ++ rest →
  current s = length pre →
  Forall (λ c, c ≠ "010"%char ∧ c ≠ NUL) body →
  (∀ c, head rest = Some c → c = "010"%char ∨ c = NUL) →
  scanToken source checkKeyword s
  = scanToken source checkKeyword
      {| start := start s; current := length pre + 2 + length body;
         line := line s |}.
Proof.
  intros Hsrc Hcur Hbody Hrest. unfold scanToken, skipWhitespace.
  assert (length source = length pre + 2 + length body + length rest) as Hlen.
  { rewrite Hsrc, length_app. simpl. rewrite length_app. lia. }
  assert (peek source s = "/"%char) as Hpeek.
  { by rewrite (peek_app pre ("/"%char :: "/"%char :: body ++ rest)). }
  set (s1 := {| start := start s; current := length pre + 2 + length body;
                line := line s |}).
  assert (skipWhitespaceLoop source (budget source) s
          = skipWhitespaceLoop source (length source) s1) as ->.
  { unfold budget at 1. cbn [skipWhitespaceLoop]. cbv zeta. rewrite Hpeek.
    change (char_eq "/" " " || char_eq "/" "013" || char_eq "/" "009")
      with false.
    change (char_eq "/" "010") with false.
    change (char_eq "/" "/") with true. cbv iota.
    assert (char_eq (peekNext source s) "/" = true) as ->.
    { unfold peekNext, isAtEnd. fold (peek source s). rewrite Hpeek. simpl.
      by rewrite Hcur, (char_at_app pre _ 1 Hsrc). }
    rewrite (advanceWhile_segment source
               (λ c, negb (char_eq c "010") && negb (char_eq c NUL)) _
               pre ("/"%char :: "/"%char :: body) rest);
      [| done | done | by rewrite Hsrc | done | |].
    - cbn [mbind option_bind length]. unfold s1. do 2 f_equal. lia.
    - repeat constructor.
      eapply Forall_impl; [exact Hbody|]. intros c [Hnl HN]. simpl.
      apply andb_true_iff.
      split; apply negb_true_iff; by apply bool_decide_eq_false.
    - intros c Hc. destruct (Hrest c Hc) as [->| ->]; done. }
  by rewrite (skipWhitespaceLoop_fuel _ (budget source))
    by (unfold budget; simpl; lia).
Qed.

(** *** Strings without a closing quote *)

Lemma stringLoop_open (body : list ascii) :
  ∀ (pre : list ascii) (fuel : nat) (s : ScannerState),
  source = pre ++ body → current s = length pre →
  Forall (λ c, c ≠ "034"%char ∧ c ≠ NUL) body →
  length body < fuel →
  (- 2 ^ 31 ≤ line s)%Z → (line s + newlines body ≤ INT_MAX)%Z →
  stringLoop source fuel s
  = Some {| start := start s; current := length source;
            line := (line s + newlines body)%Z |}.
Proof.
  induction body as [|c body IH];
    intros pre fuel s Hsrc Hcur Hbody Hfuel Hlow Hhigh.
  - destruct fuel as [|fuel]; [simpl in *; lia|].
    cbn [stringLoop]. rewrite (peek_app pre [] s Hsrc Hcur).
    unfold isAtEnd. fold (peek source s). rewrite (peek_app pre [] s Hsrc Hcur).
    simpl. rewrite Hsrc, app_nil_r, <- Hcur. unfold newlines. simpl.
    rewrite Z.add_0_r. by destruct s.
  - destruct fuel as [|fuel]; [simpl in *; lia|].
    apply Forall_cons in Hbody as [[Hq HN] Hbody].
    cbn [stringLoop].
    assert (peek source s = c) as Hpeek
      by (by rewrite (peek_app pre (c :: body))).
    assert (isAtEnd source s = false) as ->.
    { unfold isAtEnd. fold (peek source s). rewrite Hpeek.
      by apply bool_decide_eq_false. }
    rewrite Hpeek.
    assert (char_eq c "034" = false) as -> by (by apply bool_decide_eq_false).
    cbn [negb andb].
    pose proof (newlines_nonneg body) as Hnn.
    rewrite newlines_cons. rewrite newlines_cons in Hhigh.
    assert ((if char_eq c "010" then incr_line s else s)
            = {| start := start s; current := current s;
                 line := (line s + (if char_eq c "010" then 1 else 0))%Z |})
      as ->.
    { destruct (char_eq c "010").
      - unfold incr_line. rewrite to_int_small; [done|].
        unfold INT_MAX in *. lia.
      - rewrite Z.add_0_r. by destruct s. }
    rewrite (IH (pre ++ [c])).
    + cbn [advance snd start line]. do 2 f_equal. lia.
    + rewrite Hsrc. by rewrite <- app_assoc.
    + simpl. rewrite length_app. simpl. lia.
    + done.
    + simpl in Hfuel. lia.
    + simpl. destruct (char_eq c "010"); lia.
    + simpl. lia.
Qed.

(** X14.  A string literal that the source ends in before its closing
    quote is reported, not scanned: [scanToken] consumes the source to its
    end and returns an error token with the message "Unterminated
    string.", on the line where the source ends, as long as the line
    counter, an [int], does not overflow on the way. *)
Theorem unterminated_string (pre body : list ascii) (s : ScannerState) :
  source = pre ++ "034"%char :: body →
  current s = length pre →
  Forall (λ c, c ≠ "034"%char ∧ c ≠ NUL) body →
  (- 2 ^ 31 ≤ line s)%Z →
  (line s + newlines body ≤ INT_MAX)%Z →
  let s' := {| start := length pre; current := length source;
               line := (line s + newlines body)%Z |} in
  scanToken source checkKeyword s
  = Some ({| token_type := TOKEN_ERROR;
             token_start := MessagePtr "Unterminated string.";
             token_length := 20;
             token_line := (line s + newlines body)%Z |}, s').
Proof.
  intros Hsrc Hcur Hbody Hlow Hhigh s'.
  assert (peek source s = "034"%char) as Hpeek
    by (by rewrite (peek_app pre ("034"%char :: body))).
  destruct (scanToken_dispatch source checkKeyword s "034" Hpeek)
    as (s2 & Hs2 & ->); [done..|].
  match goal with
  | |- context [if isAlpha _ then ?a else ?b] =>
      change (if isAlpha "034" then a else b) with (string_ source s2)
  end.
  unfold string_, budget.
  rewrite (stringLoop_open body (pre ++ ["034"%char]));
    [| by rewrite Hsrc, <- app_assoc
     | subst s2; simpl; rewrite length_app; simpl; lia
     | done
     | rewrite Hsrc; repeat (rewrite length_app; simpl); lia
     | by subst s2
     | by subst s2 ].
  cbn [mbind option_bind].
  assert (isAtEnd source
            {| start := start s2; current := length source;
               line := (line s2 + newlines body)%Z |} = true) as ->.
  { unfold isAtEnd. cbn [current]. by rewrite char_at_end. }
  subst s2 s'. cbn [start line]. by rewrite Hcur.
Qed.

(** *** Operators of one or two characters *)

(** X15.  [!], [=], [<] and [>] take a directly following [=] with them:
    with it they are scanned as one two-character token, and without it,
    also at the very end of the source, as a one-character token. *)
Theorem operator_token (pre rest : list ascii) (c : ascii)
    (yes no : TokenType) (s : ScannerState) :
  source = pre ++ c :: rest →
  current s = length pre →
  (c, yes, no) ∈ [("!"%char, TOKEN_BANG_EQUAL, TOKEN_BANG);
                  ("="%char, TOKEN_EQUAL_EQUAL, TOKEN_EQUAL);
                  ("<"%char, TOKEN_LESS_EQUAL, TOKEN_LESS);
                  (">"%char, TOKEN_GREATER_EQUAL, TOKEN_GREATER)] →
  let two := bool_decide (head rest = Some "="%char) in
  scanToken source checkKeyword s
  = Some ({| token_type := if two then yes else no;
             token_start := SourcePtr (length pre);
             token_length := to_int (if two then 2 else 1);
             token_line := line s |},
          {| start := length pre;
             current := length pre + (if two then 2 else 1);
             line := line s |}).
Proof.
  intros Hsrc Hcur Hop two.
  assert (peek source s = c) as Hpeek by (by rewrite (peek_app pre (c :: rest))).
  assert (source = (pre ++ [c]) ++ rest) as Hsrc2
    by (by rewrite Hsrc, <- app_assoc).
  set (s2 := {| start := current s; current := S (current s);
                line := line s |}).
  assert (current s2 = length (pre ++ [c])) as Hcur2
    by (simpl; rewrite length_app; simpl; lia).
  assert (match_ source "=" s2
          = (two, {| start := length pre;
                     current := length pre + (if two then 2 else 1);
                     line := line s |})) as Hmatch.
  { unfold match_, isAtEnd. fold (peek source s2).
    rewrite (peek_app _ _ s2 Hsrc2 Hcur2). unfold two, s2. cbn [start line].
    rewrite Hcur. unfold char_eq.
    destruct (head rest) as [x|]; simpl.
    - destruct (decide (x = "="%char)) as [->|Hx].
      + simpl. do 2 f_equal. lia.
      + rewrite (bool_decide_eq_false_2 (x = "="%char)) by done.
        rewrite (bool_decide_eq_false_2 (Some x = Some "="%char))
          by congruence.
        destruct (bool_decide (x = NUL)); simpl; do 2 f_equal; lia.
    - do 2 f_equal. lia. }
  assert (twoChar source "=" yes no s2
          = Some ({| token_type := if two then yes else no;
                     token_start := SourcePtr (length pre);
                     token_length := to_int (if two then 2 else 1);
                     token_line := line s |},
                  {| start := length pre;
                     current := length pre + (if two then 2 else 1);
                     line := line s |})) as Htwo.
  { unfold twoChar. rewrite Hmatch. unfold makeToken. cbn.
    do 4 f_equal. destruct two; lia. }
  destruct (scanToken_dispatch source checkKeyword s c Hpeek)
    as (? & -> & ->).
  1-4: repeat (apply elem_of_cons in Hop as [Hop|Hop]; [by simplify_eq|]);
       by apply elem_of_nil in Hop.
  fold s2.
  repeat (apply elem_of_cons in Hop as [Hop|Hop];
          [injection Hop as -> -> ->; exact Htwo|]).
  by apply elem_of_nil in Hop.
Qed.

End Tokens.

Lemma scanToken_counts_newlines_witness :
  ∃ tok s',
    scanToken (String.list_ascii_of_string "// one

  three") (λ _ _, None) initScanner = Some (tok, s')
    ∧ token_line tok = 3%Z.
Proof.
  destruct (scanToken_counts_newlines (String.list_ascii_of_string "// one

  three") (λ _ _, None) initScanner ltac:(simpl; lia)
              ltac:(vm_compute; discriminate) ltac:(vm_compute; discriminate))
    as (tok & s' & Hrun & Hline & Hcount).
  exists tok, s'. split; [done|]. rewrite Hline, Hcount.
  vm_compute in Hrun. by injection Hrun as <- <-.
Defined.

Lemma eof_token_repeats_witness :
  ∃ tok s',
    scanToken (String.list_ascii_of_string "  // done") (λ _ _, None)
      initScanner = Some (tok, s')
    ∧ scanToken (String.list_ascii_of_string "  // done") (λ _ _, None) s'
      = Some (tok, s').
Proof.
  eexists _, _. split; [vm_compute; reflexivity|].
  by apply (eof_token_repeats (String.list_ascii_of_string "  // done")
              (λ _ _, None) initScanner).
Defined.

Lemma identifier_token_witness :
  let keyword (text : list ascii) (n : Z) : option TokenType :=
    if decide (take (Z.to_nat n) text = ["v"; "a"; "r"]%char)
    then Some TOKEN_VAR else None in
  let source := String.list_ascii_of_string "var x1;" in
  (∃ tok s',
     scanToken source keyword initScanner = Some (tok, s')
     ∧ token_type tok = TOKEN_VAR
     ∧ lexeme source tok = ["v"; "a"; "r"]%char)
  ∧ (∃ tok s',
       scanToken source keyword {| start := 0; current := 4; line := 1 |}
       = Some (tok, s')
       ∧ token_type tok = TOKEN_IDENTIFIER
       ∧ lexeme source tok = ["x"; "1"]%char).
Proof.
  intros keyword source. split.
  - destruct (identifier_token source keyword [] ["a"; "r"]%char
                [" "; "x"; "1"; ";"]%char "v" initScanner)
      as (tok & s' & Hrun & Htype & _ & Hlexeme & _);
      [reflexivity | reflexivity | reflexivity | by repeat constructor
      | by intros c [= <-] | vm_compute; discriminate |].
    exists tok, s'. split; [exact Hrun|]. split; [exact Htype|exact Hlexeme].
  - destruct (identifier_token source keyword ["v"; "a"; "r"; " "]%char
                ["1"]%char [";"]%char "x"
                {| start := 0; current := 4; line := 1 |})
      as (tok & s' & Hrun & Htype & _ & Hlexeme & _);
      [reflexivity | reflexivity | reflexivity | by repeat constructor
      | by intros c [= <-] | vm_compute; discriminate |].
    exists tok, s'. split; [exact Hrun|]. split; [exact Htype|exact Hlexeme].
Defined.

Lemma integer_token_witness :
  let source := String.list_ascii_of_string "12.x" in
  ∃ tok s',
    scanToken source (λ _ _, None) initScanner = Some (tok, s')
    ∧ token_type tok = TOKEN_NUMBER
    ∧ lexeme source tok = ["1"; "2"]%char
    ∧ peek source s' = "."%char.
Proof.
  intros source.
  destruct (integer_token source (λ _ _, None) [] ["2"]%char
              ["."; "x"]%char "1" initScanner)
    as (tok & s' & Hrun & Htype & _ & Hlexeme & _ & ->);
    [reflexivity | reflexivity | reflexivity | by repeat constructor
    | by intros c [= <-] | by intros (? & _) | | vm_compute; discriminate |].
  { intros (d & _ & Hd & Hdigit). injection Hd as <-. discriminate Hdigit. }
  eexists _, _. split; [exact Hrun|]. split; [exact Htype|].
  split; [exact Hlexeme|reflexivity].
Defined.

Lemma fraction_token_witness :
  let source := String.list_ascii_of_string "3.14;" in
  ∃ tok s',
    scanToken source (λ _ _, None) initScanner = Some (tok, s')
    ∧ token_type tok = TOKEN_NUMBER
    ∧ lexeme source tok = ["3"; "."; "1"; "4"]%char.
Proof.
  intros source.
  destruct (fraction_token source (λ _ _, None) [] [] ["4"]%char [";"]%char
              "3" "1" initScanner)
    as (tok & s' & Hrun & Htype & _ & Hlexeme & _);
    [reflexivity | reflexivity | reflexivity | constructor | reflexivity
    | by repeat constructor | by intros c [= <-] | vm_compute; discriminate |].
  exists tok, s'. split; [exact Hrun|]. split; [exact Htype|exact Hlexeme].
Defined.

Lemma whitespace_skipped_witness :
  let source := [" "; "010"; "009"; "x"]%char in
  scanToken source (λ _ _, None) initScanner
  = scanToken source (λ _ _, None) {| start := 0; current := 3; line := 2 |}.
Proof.
  intros source.
  apply (whitespace_skipped source (λ _ _, None) [] [" "; "010"; "009"]%char
           ["x"]%char initScanner eq_refl eq_refl).
  - repeat (apply Forall_cons; split; [unfold blank; auto|]). constructor.
  - vm_compute; discriminate.
  - vm_compute; discriminate.
Defined.

Lemma comment_skipped_witness :
  let source := String.list_ascii_of_string "x // y
z" in
  scanToken source (λ _ _, None) {| start := 0; current := 2; line := 1 |}
  = scanToken source (λ _ _, None) {| start := 0; current := 6; line := 1 |}.
Proof.
  intros source.
  apply (comment_skipped source (λ _ _, None) ["x"; " "]%char [" "; "y"]%char
           ["010"; "z"]%char {| start := 0; current := 2; line := 1 |}
           eq_refl eq_refl).
  - by repeat constructor.
  - intros c [= <-]. by left.
Defined.

Lemma unterminated_string_witness :
  ∃ tok s',
    scanToken ("034"%char :: String.list_ascii_of_string "a
b") (λ _ _, None) initScanner = Some (tok, s')
    ∧ token_type tok = TOKEN_ERROR
    ∧ token_line tok = 2%Z
    ∧ current s' = 4.
Proof.
  eexists _, _. split.
  { apply (unterminated_string _ (λ _ _, None) []
           (String.list_ascii_of_string "a
b") initScanner eq_refl eq_refl).
    - by repeat constructor.
    - vm_compute; discriminate.
    - vm_compute; discriminate. }
  done.
Defined.

Lemma operator_token_witness :
  let source := String.list_ascii_of_string "a<=b<" in
  (∃ tok s',
     scanToken source (λ _ _, None) {| start := 0; current := 1; line := 1 |}
     = Some (tok, s')
     ∧ token_type tok = TOKEN_LESS_EQUAL ∧ current s' = 3)
  ∧ (∃ tok s',
       scanToken source (λ _ _, None)
         {| start := 0; current := 4; line := 1 |} = Some (tok, s')
       ∧ token_type tok = TOKEN_LESS ∧ current s' = 5).
Proof.
  intros source. split.
  - eexists _, _. split.
    { apply (operator_token source (λ _ _, None) ["a"]%char
             ["="; "b"; "<"]%char "<" TOKEN_LESS_EQUAL TOKEN_LESS
             {| start := 0; current := 1; line := 1 |} eq_refl eq_refl).
      set_solver. }
    done.
  - eexists _, _. split.
    { apply (operator_token source (λ _ _, None) ["a"; "<"; "="; "b"]%char
               [] "<" TOKEN_LESS_EQUAL TOKEN_LESS
               {| start := 0; current := 4; line := 1 |} eq_refl eq_refl).
      set_solver. }
    done.
Defined.

End Scanner.

(** * The virtual machine ([src/vm.c]) *)

From stdpp Require Import sorting.

Module VM.

(** ** Values and objects *)

(** A pointer to a heap object: its index in the object store. *)
Definition ObjRef := nat.

(** Modelled from the spec: [value.h] is not among the sources.  A value is
    nil, a boolean, a double or a reference to a heap object. *)
Inductive Value :=
| NIL_VAL
| BOOL_VAL (b : bool)
| NUMBER_VAL (d : float)
| OBJ_VAL (o : ObjRef).

(** The opcodes that the dispatch loop of [run] has a case for. *)
Inductive OpCode :=
| OP_CONSTANT | OP_NIL | OP_TRUE | OP_FALSE | OP_POP
| OP_GET_LOCAL | OP_SET_LOCAL | OP_GET_GLOBAL | OP_DEFINE_GLOBAL | OP_SET_GLOBAL
| OP_GET_UPVALUE | OP_SET_UPVALUE | OP_GET_PROPERTY | OP_SET_PROPERTY
| OP_GET_SUPER | OP_EQUAL | OP_GREATER | OP_LESS
| OP_ADD | OP_SUBTRACT | OP_MULTIPLY | OP_DIVIDE | OP_NOT | OP_NEGATE
| OP_PRINT | OP_JUMP | OP_JUMP_IF_FALSE | OP_LOOP
| OP_CALL | OP_INVOKE | OP_SUPER_INVOKE | OP_CLOSURE | OP_CLOSE_UPVALUE
| OP_RETURN | OP_CLASS | OP_INHERIT | OP_METHOD.

#[global] Instance OpCode_eq_dec : EqDecision OpCode.
Proof. solve_decision. Defined.

(** Modelled from the spec: [chunk.h] is not among the sources.  The code
    bytes, the source line of each byte, and the constant pool. *)
Record Chunk := mkChunk {
  code : list Byte.byte;
  lines : list Z;
  constants : list Value
}.

(** The host functions of [vm.c]. *)
Inductive NativeFn := clockNative | exitNative | gcNative | gcHeapSizeNative.

(** Where [upvalue->location] points: at a slot of the value stack, or at
    the [closed] field of the upvalue itself. *)
Inductive Location :=
| StackSlot (slot : Z)
| ClosedField.

#[global] Instance Location_eq_dec : EqDecision Location.
Proof. solve_decision. Defined.

(** Modelled from the spec: [object.h] is not among the sources.  The
    object variants and the fields that [vm.c] reads and writes.  A table
    maps the references of interned strings to values. *)
Inductive Obj :=
| ObjString (chars : string)
| ObjFunction (arity : Z) (upvalueCount : Z) (chunk : Chunk)
    (name : option ObjRef)
| ObjNative (function : NativeFn)
| ObjClosure (function : ObjRef) (upvalues : list (option ObjRef))
| ObjUpvalue (location : Location) (closed : Value) (next : option ObjRef)
| ObjClass (name : ObjRef) (methods : gmap ObjRef Value)
| ObjInstance (klass : ObjRef) (fields : gmap ObjRef Value)
| ObjBoundMethod (receiver : Value) (method : ObjRef).

(** ** The state of the VM *)

(** [ip] is an offset into the code of the frame's function, [slots] an
    index into the value stack. *)
Record CallFrame := mkFrame {
  closure : ObjRef;
  ip : Z;
  slots : Z
}.

Inductive FormatArg :=
| ArgInt (n : Z)
| ArgString (s : string).

(** What [runtimeError] writes to the diagnostic stream: the message, as
    its format and arguments, and one line for each active frame. *)
Inductive Diagnostic :=
| Message (format : string) (args : list FormatArg)
| TraceLine (line : Z) (function : option string).

Inductive InterpretResult :=
| INTERPRET_OK
| INTERPRET_COMPILE_ERROR
| INTERPRET_RUNTIME_ERROR.

(** The global [vm] of [vm.c].  [frames] and [stack] are the two arrays
    with all their elements, used or not; [objects] is the heap;
    [stdout] and [stderr] are what has been printed; [nativeCalls] counts
    the calls of host functions.  The bookkeeping of the collector
    (byte counts, gray stack) is not part of the state. *)
Record VMState := mkVM {
  frames : list CallFrame;
  frameCount : Z;
  stack : list Value;
  stackTop : Z;
  globals : gmap ObjRef Value;
  strings : gmap string ObjRef;
  initString : option ObjRef;
  openUpvalues : option ObjRef;
  objects : list Obj;
  stdout : list Value;
  stderr : list Diagnostic;
  nativeCalls : nat
}.

Definition set_frames (x : list CallFrame) (vm : VMState) : VMState :=
  mkVM x (frameCount vm) (stack vm) (stackTop vm) (globals vm) (strings
    vm) (initString vm) (openUpvalues vm) (objects vm) (stdout vm) (stderr
    vm) (nativeCalls vm).

Definition set_frameCount (x : Z) (vm : VMState) : VMState :=
  mkVM (frames vm) x (stack vm) (stackTop vm) (globals vm) (strings vm)
    (initString vm) (openUpvalues vm) (objects vm) (stdout vm) (stderr vm)
    (nativeCalls vm).

Definition set_stack (x : list Value) (vm : VMState) : VMState :=
  mkVM (frames vm) (frameCount vm) x (stackTop vm) (globals vm) (strings
    vm) (initString vm) (openUpvalues vm) (objects vm) (stdout vm) (stderr
    vm) (nativeCalls vm).

Definition set_stackTop (x : Z) (vm : VMState) : VMState :=
  mkVM (frames vm) (frameCount vm) (stack vm) x (globals vm) (strings vm)
    (initString vm) (openUpvalues vm) (objects vm) (stdout vm) (stderr vm)
    (nativeCalls vm).

Definition set_globals (x : gmap ObjRef Value) (vm : VMState) : VMState :=
  mkVM (frames vm) (frameCount vm) (stack vm) (stackTop vm) x (strings vm)
    (initString vm) (openUpvalues vm) (objects vm) (stdout vm) (stderr vm)
    (nativeCalls vm).

Definition set_strings (x : gmap string ObjRef) (vm : VMState) : VMState :=
  mkVM (frames vm) (frameCount vm) (stack vm) (stackTop vm) (globals vm) x
    (initString vm) (openUpvalues vm) (objects vm) (stdout vm) (stderr vm)
    (nativeCalls vm).

Definition set_initString (x : option ObjRef) (vm : VMState) : VMState :=
  mkVM (frames vm) (frameCount vm) (stack vm) (stackTop vm) (globals vm)
    (strings vm) x (openUpvalues vm) (objects vm) (stdout vm) (stderr vm)
    (nativeCalls vm).

Definition set_openUpvalues (x : option ObjRef) (vm : VMState) : VMState :=
  mkVM (frames vm) (frameCount vm) (stack vm) (stackTop vm) (globals vm)
    (strings vm) (initString vm) x (objects vm) (stdout vm) (stderr vm)
    (nativeCalls vm).

Definition set_objects (x : list Obj) (vm : VMState) : VMState :=
  mkVM (frames vm) (frameCount vm) (stack vm) (stackTop vm) (globals vm)
    (strings vm) (initString vm) (openUpvalues vm) x (stdout vm) (stderr
    vm) (nativeCalls vm).

Definition set_stdout (x : list Value) (vm : VMState) : VMState :=
  mkVM (frames vm) (frameCount vm) (stack vm) (stackTop vm) (globals vm)
    (strings vm) (initString vm) (openUpvalues vm) (objects vm) x (stderr
    vm) (nativeCalls vm).

Definition set_stderr (x : list Diagnostic) (vm : VMState) : VMState :=
  mkVM (frames vm) (frameCount vm) (stack vm) (stackTop vm) (globals vm)
    (strings vm) (initString vm) (openUpvalues vm) (objects vm) (stdout
    vm) x (nativeCalls vm).

Definition set_nativeCalls (x : nat) (vm : VMState) : VMState :=
  mkVM (frames vm) (frameCount vm) (stack vm) (stackTop vm) (globals vm)
    (strings vm) (initString vm) (openUpvalues vm) (objects vm) (stdout
    vm) (stderr vm) x.

(** ** Computations on the VM *)

(** Why a computation has no result. *)
Inductive Stop :=
| UndefinedBehaviour
| ProcessExit
| OutOfFuel.

Inductive Res (A : Type) :=
| Ret (a : A)
| Halt (why : Stop).
Arguments Ret {A} a.
Arguments Halt {A} why.

Definition M (A : Type) : Type := VMState → Res (A * VMState).

#[global] Instance M_ret : MRet M := λ A a vm, Ret (a, vm).

#[global] Instance M_bind : MBind M := λ A B f m vm,
  match m vm with
  | Ret (a, vm') => f a vm'
  | Halt why => Halt why
  end.

Definition halt {A : Type} (why : Stop) : M A := λ _, Halt why.

Definition ub {A : Type} : M A := halt UndefinedBehaviour.

Definition gets {A : Type} (f : VMState → A) : M A := λ vm, Ret (f vm, vm).

Definition modify (f : VMState → VMState) : M unit := λ vm, Ret ((), f vm).

(** The result of an access that is defined only where [o] is. *)
Definition defined {A : Type} (o : option A) : M A :=
  match o with
  | Some a => mret a
  | None => ub
  end.

(** ** Arrays *)

Definition array_get {A : Type} (a : list A) (i : Z) : option A :=
  if (i <? 0)%Z then None else a !! Z.to_nat i.

Definition array_set {A : Type} (a : list A) (i : Z) (x : A) : option (list A) :=
  if ((0 <=? i) && (i <? Z.of_nat (length a)))%Z
  then Some (<[Z.to_nat i := x]> a)
  else None.


(** ** Objects *)

Inductive ObjType :=
| OBJ_BOUND_METHOD | OBJ_CLASS | OBJ_CLOSURE | OBJ_FUNCTION
| OBJ_INSTANCE | OBJ_NATIVE | OBJ_STRING | OBJ_UPVALUE.

#[global] Instance ObjType_eq_dec : EqDecision ObjType.
Proof. solve_decision. Defined.

Definition type_of (obj : Obj) : ObjType :=
  match obj with
  | ObjString _ => OBJ_STRING
  | ObjFunction _ _ _ _ => OBJ_FUNCTION
  | ObjNative _ => OBJ_NATIVE
  | ObjClosure _ _ => OBJ_CLOSURE
  | ObjUpvalue _ _ _ => OBJ_UPVALUE
  | ObjClass _ _ => OBJ_CLASS
  | ObjInstance _ _ => OBJ_INSTANCE
  | ObjBoundMethod _ _ => OBJ_BOUND_METHOD
  end.

(** Reading the object a pointer refers to. *)
Definition deref (o : ObjRef) : M Obj :=
  heap ← gets objects; defined (heap !! o).

(** Writing the fields of an object that exists. *)
Definition store (o : ObjRef) (obj : Obj) : M unit :=
  heap ← gets objects;
  if decide (o < length heap) then modify (set_objects (<[o := obj]> heap))
  else ub.

(** A new object: its reference is one that no object had before. *)
Definition allocateObject (obj : Obj) : M ObjRef :=
  heap ← gets objects;
  modify (set_objects (heap ++ [obj]));; mret (length heap).

(** ** Reasoning about computations *)

Lemma bind_Ret {A B : Type} (m : M A) (f : A → M B) (vm vm' : VMState) (b : B) :
  (m ≫= f) vm = Ret (b, vm') →
  ∃ a vm1, m vm = Ret (a, vm1) ∧ f a vm1 = Ret (b, vm').
Proof.
  unfold mbind, M_bind. destruct (m vm) as [[a vm1]|why]; [|done].
  intros H. by exists a, vm1.
Qed.

Lemma bind_Ret_intro {A B : Type} (m : M A) (f : A → M B) (vm vm1 : VMState)
    (a : A) :
  m vm = Ret (a, vm1) → (m ≫= f) vm = f a vm1.
Proof. unfold mbind, M_bind. by intros ->. Qed.

Lemma mret_Ret {A : Type} (a b : A) (vm vm' : VMState) :
  (mret a : M A) vm = Ret (b, vm') → b = a ∧ vm' = vm.
Proof. unfold mret, M_ret. by intros [= -> ->]. Qed.

Lemma gets_Ret {A : Type} (f : VMState → A) (a : A) (vm vm' : VMState) :
  gets f vm = Ret (a, vm') → a = f vm ∧ vm' = vm.
Proof. unfold gets. by intros [= <- <-]. Qed.

Lemma modify_Ret (f : VMState → VMState) (u : ()) (vm vm' : VMState) :
  modify f vm = Ret (u, vm') → vm' = f vm.
Proof. unfold modify. by intros [= <-]. Qed.

Lemma defined_Ret {A : Type} (o : option A) (a : A) (vm vm' : VMState) :
  defined o vm = Ret (a, vm') → o = Some a ∧ vm' = vm.
Proof. destruct o; [|done]. by intros [-> ->]%mret_Ret. Qed.

Lemma deref_Ret (o : ObjRef) (obj : Obj) (vm vm' : VMState) :
  deref o vm = Ret (obj, vm') → objects vm !! o = Some obj ∧ vm' = vm.
Proof.
  unfold deref. intros (heap & vm1 & [-> ->]%gets_Ret & H)%bind_Ret.
  by apply defined_Ret in H.
Qed.

(** Inversion of [H : m vm = Ret (a, vm')]: first for the computations
    that read or write the state directly, then through the sequencing
    and the branches of a definition. *)
Ltac minv_prim H :=
  lazymatch type of H with
  | mret _ _ = Ret _ => apply mret_Ret in H as [? ?]; simplify_eq
  | gets _ _ = Ret _ => apply gets_Ret in H as [? ?]; subst
  | modify _ _ = Ret _ => apply modify_Ret in H; subst
  | defined _ _ = Ret _ => apply defined_Ret in H as [? ?]; simplify_eq
  | deref _ _ = Ret _ => apply deref_Ret in H as [? ?]; simplify_eq
  | ub _ = Ret _ => discriminate H
  | halt _ _ = Ret _ => discriminate H
  | Halt _ = Ret _ => discriminate H
  end.

Ltac minv H :=
  repeat first
  [ minv_prim H
  | lazymatch type of H with
    | (_ ≫= _) _ = Ret _ =>
        let H1 := fresh "Hm" in
        apply bind_Ret in H as (? & ? & H1 & H); minv H1
    | (let '(_, _) := ?p in _) _ = Ret _ => destruct p
    | (if negb ?c then _ else _) _ = Ret _ =>
        destruct c eqn:?; cbn [negb] in H
    | (if ?c then _ else _) _ = Ret _ => destruct c eqn:?
    | (match ?x with _ => _ end) _ = Ret _ => destruct x eqn:?
    | (match ?x with _ => _ end) = Ret _ => destruct x eqn:?
    end ].

Definition IS_NIL (value : Value) : bool :=
  match value with NIL_VAL => true | _ => false end.

Definition IS_BOOL (value : Value) : bool :=
  match value with BOOL_VAL _ => true | _ => false end.

Definition IS_NUMBER (value : Value) : bool :=
  match value with NUMBER_VAL _ => true | _ => false end.

Definition IS_OBJ (value : Value) : bool :=
  match value with OBJ_VAL _ => true | _ => false end.

(** [IS_OBJ(value) && AS_OBJ(value)->type == type] *)
Definition isObjType (value : Value) (type : ObjType) : M bool :=
  match value with
  | OBJ_VAL o => obj ← deref o; mret (bool_decide (type_of obj = type))
  | _ => mret false
  end.

Definition IS_STRING (value : Value) : M bool := isObjType value OBJ_STRING.
Definition IS_INSTANCE (value : Value) : M bool := isObjType value OBJ_INSTANCE.
Definition IS_CLASS (value : Value) : M bool := isObjType value OBJ_CLASS.

(** The unchecked casts [AS_STRING], [AS_CLOSURE], ...: the pointer, where
    the value is an object of the type it is cast to. *)
Definition AS_OBJ_OF (type : ObjType) (value : Value) : M ObjRef :=
  match value with
  | OBJ_VAL o =>
      obj ← deref o;
      if decide (type_of obj = type) then mret o else ub
  | _ => ub
  end.

Definition AS_STRING := AS_OBJ_OF OBJ_STRING.
Definition AS_FUNCTION := AS_OBJ_OF OBJ_FUNCTION.
Definition AS_CLOSURE := AS_OBJ_OF OBJ_CLOSURE.
Definition AS_CLASS := AS_OBJ_OF OBJ_CLASS.
Definition AS_INSTANCE := AS_OBJ_OF OBJ_INSTANCE.

Definition AS_NUMBER (value : Value) : M float :=
  match value with NUMBER_VAL d => mret d | _ => ub end.

(** [string->chars] *)
Definition chars_of (o : ObjRef) : M string :=
  obj ← deref o;
  match obj with ObjString chars => mret chars | _ => ub end.

(** [closure->function] *)
Definition function_of (o : ObjRef) : M ObjRef :=
  obj ← deref o;
  match obj with ObjClosure function _ => mret function | _ => ub end.

(** [closure->upvalues] *)
Definition upvalues_of (o : ObjRef) : M (list (option ObjRef)) :=
  obj ← deref o;
  match obj with ObjClosure _ upvalues => mret upvalues | _ => ub end.

(** [function->arity], [function->upvalueCount], [function->chunk],
    [function->name] *)
Definition arity_of (o : ObjRef) : M Z :=
  obj ← deref o;
  match obj with ObjFunction arity _ _ _ => mret arity | _ => ub end.

Definition upvalueCount_of (o : ObjRef) : M Z :=
  obj ← deref o;
  match obj with ObjFunction _ count _ _ => mret count | _ => ub end.

Definition chunk_of (o : ObjRef) : M Chunk :=
  obj ← deref o;
  match obj with ObjFunction _ _ chunk _ => mret chunk | _ => ub end.

Definition name_of (o : ObjRef) : M (option ObjRef) :=
  obj ← deref o;
  match obj with ObjFunction _ _ _ name => mret name | _ => ub end.

(** [klass->methods] and [instance->klass], [instance->fields] *)
Definition methods_of (o : ObjRef) : M (gmap ObjRef Value) :=
  obj ← deref o;
  match obj with ObjClass _ methods => mret methods | _ => ub end.

Definition klass_of (o : ObjRef) : M ObjRef :=
  obj ← deref o;
  match obj with ObjInstance klass _ => mret klass | _ => ub end.

Definition fields_of (o : ObjRef) : M (gmap ObjRef Value) :=
  obj ← deref o;
  match obj with ObjInstance _ fields => mret fields | _ => ub end.

(** Modelled from the spec: [object.c] is not among the sources.  A new
    closure has one empty upvalue reference for each upvalue its function
    declares; a new class has no method, a new instance no field; a new
    upvalue is open. *)
Definition newClosure (function : ObjRef) : M ObjRef :=
  count ← upvalueCount_of function;
  allocateObject (ObjClosure function (replicate (Z.to_nat count) None)).

Definition newUpvalue (slot : Z) : M ObjRef :=
  allocateObject (ObjUpvalue (StackSlot slot) NIL_VAL None).

Definition newClass (name : ObjRef) : M ObjRef :=
  allocateObject (ObjClass name ∅).

Definition newInstance (klass : ObjRef) : M ObjRef :=
  allocateObject (ObjInstance klass ∅).

Definition newBoundMethod (receiver : Value) (method : ObjRef) : M ObjRef :=
  allocateObject (ObjBoundMethod receiver method).

Definition newNative (function : NativeFn) : M ObjRef :=
  allocateObject (ObjNative function).

(** Modelled from the spec: [object.c] is not among the sources.  The
    string with the given characters: the one the string table holds, if
    it holds one, else a new string that is entered into the table.
    [takeString] differs from [copyString] in the ownership of the buffer
    only. *)
Definition copyString (chars : string) : M ObjRef :=
  table ← gets strings;
  match table !! chars with
  | Some interned => mret interned
  | None =>
      o ← allocateObject (ObjString chars);
      modify (λ vm, set_strings (<[chars := o]> (strings vm)) vm);;
      mret o
  end.

Definition takeString (chars : string) : M ObjRef := copyString chars.

(** Modelled from the spec: [table.c] is not among the sources.
    [tableSet] reports whether the key is new. *)
Definition tableGet (table : gmap ObjRef Value) (key : ObjRef) : option Value :=
  table !! key.

Definition tableSet (table : gmap ObjRef Value) (key : ObjRef) (value : Value)
    : gmap ObjRef Value * bool :=
  (<[key := value]> table, bool_decide (table !! key = None)).

Definition tableDelete (table : gmap ObjRef Value) (key : ObjRef)
    : gmap ObjRef Value :=
  delete key table.

Definition tableAddAll (from to : gmap ObjRef Value) : gmap ObjRef Value :=
  from ∪ to.

(** Modelled from the spec: [value.c] is not among the sources.  Numbers
    are compared as doubles, objects by identity. *)
Definition valuesEqual (a b : Value) : bool :=
  match a, b with
  | NIL_VAL, NIL_VAL => true
  | BOOL_VAL x, BOOL_VAL y => bool_decide (x = y)
  | NUMBER_VAL x, NUMBER_VAL y => PrimFloat.eqb x y
  | OBJ_VAL x, OBJ_VAL y => bool_decide (x = y)
  | _, _ => false
  end.


(** ** [vm.c] *)

Section Interpreter.

(** [FRAMES_MAX] of [vm.h]. *)
Variable FRAMES_MAX : Z.

(** The numbering of the opcodes, of [opcodes.h]. *)
Variable opcode_of_byte : Z → option OpCode.

(** The host: the number that the [n]-th call of a host function returns
    ([clock()] scaled to seconds, and the byte counts that the collector
    of [memory.c] keeps). *)
Variable hostNumber : NativeFn → nat → float.

(** The conversion of a [double] to a [Value] by assignment, which
    depends on the representation of [value.h]. *)
Variable Value_of_double : float → option Value.

(** The compiler, of [compiler.c]: it may create objects, and returns the
    function of the script, or [NULL]. *)
Variable compile : string → M (option ObjRef).

Definition resetStack : M unit :=
  modify (set_stackTop 0);;
  modify (set_frameCount 0);;
  modify (set_openUpvalues None).

(** The loop of [runtimeError] over the frames [i - 1], ..., [0]. *)
Fixpoint stackTrace (i : nat) : M unit :=
  match i with
  | O => mret ()
  | S i' =>
      fs ← gets frames;
      frame ← defined (fs !! i');
      function ← function_of (closure frame);
      chunk ← chunk_of function;
      line ← defined (array_get (lines chunk) (ip frame - 1));
      name ← name_of function;
      who ← match name with
            | None => mret None
            | Some n => chars ← chars_of n; mret (Some chars)
            end;
      modify (λ vm, set_stderr (stderr vm ++ [TraceLine line who]) vm);;
      stackTrace i'
  end.

Definition runtimeError (format : string) (args : list FormatArg) : M unit :=
  modify (λ vm, set_stderr (stderr vm ++ [Message format args]) vm);;
  fc ← gets frameCount;
  stackTrace (Z.to_nat fc);;
  resetStack.

Definition push (value : Value) : M unit :=
  st ← gets stack;
  top ← gets stackTop;
  st' ← defined (array_set st top value);
  modify (set_stack st');;
  modify (set_stackTop (top + 1)).

Definition pop : M Value :=
  st ← gets stack;
  top ← gets stackTop;
  modify (set_stackTop (top - 1));;
  defined (array_get st (top - 1)).

Definition peek (distance : Z) : M Value :=
  st ← gets stack;
  top ← gets stackTop;
  defined (array_get st (top - 1 - distance)).

(** [vm.stackTop[-argCount - 1] = value] *)
Definition set_callee_slot (argCount : Z) (value : Value) : M unit :=
  st ← gets stack;
  top ← gets stackTop;
  st' ← defined (array_set st (top - argCount - 1) value);
  modify (set_stack st').

Definition call (closure : ObjRef) (argCount : Z) : M bool :=
  function ← function_of closure;
  arity ← arity_of function;
  if negb (argCount =? arity)%Z then
    runtimeError "Expected %d arguments but got %d."
      [ArgInt arity; ArgInt argCount];;
    mret false
  else
    fc ← gets frameCount;
    if (fc =? FRAMES_MAX)%Z then
      runtimeError "Stack overflow." [];;
      mret false
    else
      fs ← gets frames;
      top ← gets stackTop;
      (if (top - argCount - 1 <? 0)%Z then ub else mret ());;
      fs' ← defined (array_set fs fc
                       {| closure := closure; ip := 0;
                          slots := top - argCount - 1 |});
      modify (set_frames fs');;
      modify (set_frameCount (fc + 1));;
      mret true.

(** [native(argCount, args)].  [exitNative] ends the process; the other
    host functions return a number and change nothing of the VM that the
    interpreter reads. *)
Definition callNative (native : NativeFn) : M Value :=
  match native with
  | exitNative => halt ProcessExit
  | _ =>
      n ← gets nativeCalls;
      modify (set_nativeCalls (S n));;
      mret (NUMBER_VAL (hostNumber native n))
  end.

Definition callValue (callee : Value) (argCount : Z) : M bool :=
  let notCallable : M bool :=
    runtimeError "Can only call functions and classes." [];; mret false in
  match callee with
  | OBJ_VAL o =>
      obj ← deref o;
      match obj with
      | ObjBoundMethod receiver method =>
          set_callee_slot argCount receiver;;
          call method argCount
      | ObjClass _ _ =>
          instance ← newInstance o;
          set_callee_slot argCount (OBJ_VAL instance);;
          methods ← methods_of o;
          init ← gets initString;
          init ← defined init;
          match tableGet methods init with
          | Some initializer =>
              initializer ← AS_CLOSURE initializer;
              call initializer argCount
          | None =>
              if negb (argCount =? 0)%Z then
                runtimeError "Expected 0 arguments but got %d."
                  [ArgInt argCount];;
                mret false
              else mret true
          end
      | ObjClosure _ _ => call o argCount
      | ObjNative native =>
          result ← callNative native;
          top ← gets stackTop;
          (if (top - (argCount + 1) <? 0)%Z then ub else mret ());;
          modify (set_stackTop (top - (argCount + 1)));;
          push result;;
          mret true
      | _ => notCallable (* Non-callable object type. *)
      end
  | _ => notCallable
  end.

Definition invokeFromClass (klass name : ObjRef) (argCount : Z) : M bool :=
  methods ← methods_of klass;
  match tableGet methods name with
  | None =>
      chars ← chars_of name;
      runtimeError "Undefined property '%s'." [ArgString chars];;
      mret false
  | Some method =>
      method ← AS_CLOSURE method;
      call method argCount
  end.

Definition invoke (name : ObjRef) (argCount : Z) : M bool :=
  receiver ← peek argCount;
  is_instance ← IS_INSTANCE receiver;
  if negb is_instance then
    runtimeError "Only instances have methods." [];;
    mret false
  else
    instance ← AS_INSTANCE receiver;
    fields ← fields_of instance;
    match tableGet fields name with
    | Some value =>
        set_callee_slot argCount value;;
        callValue value argCount
    | None =>
        klass ← klass_of instance;
        invokeFromClass klass name argCount
    end.

Definition bindMethod (klass name : ObjRef) : M bool :=
  methods ← methods_of klass;
  match tableGet methods name with
  | None =>
      chars ← chars_of name;
      runtimeError "Undefined property '%s'." [ArgString chars];;
      mret false
  | Some method =>
      receiver ← peek 0;
      method ← AS_CLOSURE method;
      bound ← newBoundMethod receiver method;
      pop;;
      push (OBJ_VAL bound);;
      mret true
  end.

(** The loop of [captureUpvalue]: from [upvalue], follow [next] while the
    upvalue points above [local]; the result is the last upvalue passed
    and the one the loop stops at.  Each iteration uses one unit of
    [fuel]. *)
Fixpoint captureWalk (fuel : nat) (heap : list Obj) (local : Z)
    (prevUpvalue upvalue : option ObjRef)
    : Res (option ObjRef * option ObjRef) :=
  match upvalue with
  | None => Ret (prevUpvalue, None)
  | Some u =>
      match heap !! u with
      | Some (ObjUpvalue (StackSlot slot) _ next) =>
          if (local <? slot)%Z then
            match fuel with
            | O => Halt OutOfFuel
            | S fuel' => captureWalk fuel' heap local (Some u) next
            end
          else Ret (prevUpvalue, Some u)
      | _ => Halt UndefinedBehaviour
      end
  end.

(** [upvalue->location] and [upvalue->next = next] *)
Definition location_of (u : ObjRef) : M Location :=
  obj ← deref u;
  match obj with ObjUpvalue location _ _ => mret location | _ => ub end.

Definition set_next (u : ObjRef) (next : option ObjRef) : M unit :=
  obj ← deref u;
  match obj with
  | ObjUpvalue location closed _ => store u (ObjUpvalue location closed next)
  | _ => ub
  end.

(** A chain of [next] pointers that does not come back to an upvalue it
    has passed is no longer than the heap has objects: that many
    iterations are given to the loops over the open upvalues. *)
Definition captureUpvalue (local : Z) : M ObjRef :=
  heap ← gets objects;
  head ← gets openUpvalues;
  '(prevUpvalue, upvalue) ←
    (λ vm, match captureWalk (length heap) heap local None head with
           | Ret found => Ret (found, vm)
           | Halt why => Halt why
           end);
  found ← match upvalue with
          | Some u =>
              location ← location_of u;
              mret (bool_decide (location = StackSlot local))
          | None => mret false
          end;
  match upvalue, found with
  | Some u, true => mret u
  | _, _ =>
      createdUpvalue ← newUpvalue local;
      set_next createdUpvalue upvalue;;
      match prevUpvalue with
      | None => modify (set_openUpvalues (Some createdUpvalue))
      | Some prev => set_next prev (Some createdUpvalue)
      end;;
      mret createdUpvalue
  end.

Fixpoint closeLoop (fuel : nat) (last : Z) : M unit :=
  head ← gets openUpvalues;
  match head with
  | None => mret ()
  | Some upvalue =>
      obj ← deref upvalue;
      match obj with
      | ObjUpvalue (StackSlot slot) _ next =>
          if (last <=? slot)%Z then
            match fuel with
            | O => halt OutOfFuel
            | S fuel' =>
                st ← gets stack;
                value ← defined (array_get st slot);
                store upvalue (ObjUpvalue ClosedField value next);;
                modify (set_openUpvalues next);;
                closeLoop fuel' last
            end
          else mret ()
      | _ => ub
      end
  end.

Definition closeUpvalues (last : Z) : M unit :=
  heap ← gets objects;
  closeLoop (length heap) last.

Definition set_methods (klass : ObjRef) (methods : gmap ObjRef Value) : M unit :=
  obj ← deref klass;
  match obj with
  | ObjClass name _ => store klass (ObjClass name methods)
  | _ => ub
  end.

Definition set_fields (instance : ObjRef) (fields : gmap ObjRef Value) : M unit :=
  obj ← deref instance;
  match obj with
  | ObjInstance klass _ => store instance (ObjInstance klass fields)
  | _ => ub
  end.

Definition defineMethod (name : ObjRef) : M unit :=
  method ← peek 0;
  klass ← peek 1;
  klass ← AS_CLASS klass;
  methods ← methods_of klass;
  set_methods klass (tableSet methods name method).1;;
  pop;;
  mret ().

Definition AS_BOOL (value : Value) : bool :=
  match value with BOOL_VAL b => b | _ => false end.

Definition isFalsey (value : Value) : bool :=
  IS_NIL value || (IS_BOOL value && negb (AS_BOOL value)).

Definition concatenate : M unit :=
  b ← peek 0;
  b ← AS_STRING b;
  a ← peek 1;
  a ← AS_STRING a;
  a_chars ← chars_of a;
  b_chars ← chars_of b;
  let length :=
    (Z.of_nat (String.length a_chars) + Z.of_nat (String.length b_chars))%Z in
  (if (INT_MAX <? length)%Z then ub else mret ());;
  result ← takeString (a_chars +:+ b_chars);
  pop;;
  pop;;
  push (OBJ_VAL result).


(** *** The dispatch loop *)

(** The local variables of [run]: the index of the current frame, and the
    copies of its [slots], of its [ip], and of the function of its
    closure. *)
Record Registers := mkRegisters {
  r_frame : Z;
  r_stackStart : Z;
  r_ip : Z;
  r_fn : ObjRef
}.

Definition set_r_ip (x : Z) (r : Registers) : Registers :=
  mkRegisters (r_frame r) (r_stackStart r) x (r_fn r).

(** How the case of an opcode ends: [DISPATCH()] goes on with the next
    instruction, [return] leaves [run]. *)
Inductive Outcome :=
| Dispatch (r : Registers)
| Return (result : InterpretResult).

Definition LOAD_FRAME : M Registers :=
  fc ← gets frameCount;
  fs ← gets frames;
  frame ← defined (array_get fs (fc - 1));
  function ← function_of (closure frame);
  mret {| r_frame := fc - 1; r_stackStart := slots frame;
          r_ip := ip frame; r_fn := function |}.

Definition STORE_FRAME (r : Registers) : M unit :=
  fs ← gets frames;
  frame ← defined (array_get fs (r_frame r));
  fs' ← defined (array_set fs (r_frame r)
                   {| closure := closure frame; ip := r_ip r;
                      slots := slots frame |});
  modify (set_frames fs').

Definition byte_value (b : Byte.byte) : Z := Z.of_N (Byte.to_N b).

Definition READ_BYTE (r : Registers) : M (Z * Registers) :=
  chunk ← chunk_of (r_fn r);
  b ← defined (array_get (code chunk) (r_ip r));
  mret (byte_value b, set_r_ip (r_ip r + 1) r).

Definition PUSH := push.
Definition POP := pop.

Definition DROP : M unit :=
  top ← gets stackTop;
  (if (top - 1 <? 0)%Z then ub else mret ());;
  modify (set_stackTop (top - 1)).

Definition PEEK : M Value := peek 0.
Definition PEEK2 : M Value := peek 1.

Definition READ_SHORT (r : Registers) : M (Z * Registers) :=
  chunk ← chunk_of (r_fn r);
  hi ← defined (array_get (code chunk) (r_ip r));
  lo ← defined (array_get (code chunk) (r_ip r + 1));
  mret (Z.land (Z.lor (Z.shiftl (byte_value hi) 8) (byte_value lo)) 65535,
        set_r_ip (r_ip r + 2) r).

Definition READ_CONSTANT (r : Registers) : M (Value * Registers) :=
  '(index, r) ← READ_BYTE r;
  chunk ← chunk_of (r_fn r);
  value ← defined (array_get (constants chunk) index);
  mret (value, r).

Definition READ_STRING (r : Registers) : M (ObjRef * Registers) :=
  '(value, r) ← READ_CONSTANT r;
  name ← AS_STRING value;
  mret (name, r).

(** [STORE_FRAME(); runtimeError(...); return INTERPRET_RUNTIME_ERROR;] *)
Definition fail (r : Registers) (format : string) (args : list FormatArg)
    : M Outcome :=
  STORE_FRAME r;;
  runtimeError format args;;
  mret (Return INTERPRET_RUNTIME_ERROR).

Definition BINARY_OP (r : Registers) (op : float → float → Value) : M Outcome :=
  b ← PEEK;
  a_is_number ← (if IS_NUMBER b then a ← PEEK2; mret (IS_NUMBER a)
                 else mret false);
  if negb a_is_number then fail r "Operands must be numbers." []
  else
    b ← POP;
    b ← AS_NUMBER b;
    a ← POP;
    a ← AS_NUMBER a;
    PUSH (op a b);;
    mret (Dispatch r).

(** [*upvalue->location] and [*upvalue->location = value] *)
Definition read_location (upvalue : ObjRef) : M Value :=
  obj ← deref upvalue;
  match obj with
  | ObjUpvalue (StackSlot slot) _ _ =>
      st ← gets stack; defined (array_get st slot)
  | ObjUpvalue ClosedField closed _ => mret closed
  | _ => ub
  end.

Definition write_location (upvalue : ObjRef) (value : Value) : M unit :=
  obj ← deref upvalue;
  match obj with
  | ObjUpvalue (StackSlot slot) _ _ =>
      st ← gets stack;
      st' ← defined (array_set st slot value);
      modify (set_stack st')
  | ObjUpvalue ClosedField _ next =>
      store upvalue (ObjUpvalue ClosedField value next)
  | _ => ub
  end.

(** [frame->closure->upvalues[index]] *)
Definition frame_upvalue (r : Registers) (index : Z) : M (option ObjRef) :=
  fs ← gets frames;
  frame ← defined (array_get fs (r_frame r));
  upvalues ← upvalues_of (closure frame);
  defined (array_get upvalues index).

(** [closure->upvalues[i] = upvalue] *)
Definition set_upvalue (closure : ObjRef) (i : nat) (upvalue : option ObjRef)
    : M unit :=
  obj ← deref closure;
  match obj with
  | ObjClosure function upvalues =>
      if decide (i < length upvalues)
      then store closure (ObjClosure function (<[i := upvalue]> upvalues))
      else ub
  | _ => ub
  end.

(** The loop of [OP_CLOSURE] over the upvalues [i], ..., [i + n - 1]. *)
Fixpoint captureLoop (n : nat) (i : nat) (closure : ObjRef) (r : Registers)
    : M Registers :=
  match n with
  | O => mret r
  | S n' =>
      '(isLocal, r) ← READ_BYTE r;
      '(index, r) ← READ_BYTE r;
      upvalue ← (if negb (isLocal =? 0)%Z then
                   upvalue ← captureUpvalue (r_stackStart r + index);
                   mret (Some upvalue)
                 else frame_upvalue r index);
      set_upvalue closure i upvalue;;
      captureLoop n' (S i) closure r
  end.

(** One pass through the dispatch loop: the case of the opcode at [ip]. *)
Definition instruction (r : Registers) : M Outcome :=
  '(b, r) ← READ_BYTE r;
  op ← defined (opcode_of_byte b);
  match op with
  | OP_CONSTANT =>
      '(value, r) ← READ_CONSTANT r;
      PUSH value;;
      mret (Dispatch r)
  | OP_NIL => PUSH NIL_VAL;; mret (Dispatch r)
  | OP_TRUE => PUSH (BOOL_VAL true);; mret (Dispatch r)
  | OP_FALSE => PUSH (BOOL_VAL false);; mret (Dispatch r)
  | OP_POP => DROP;; mret (Dispatch r)
  | OP_GET_LOCAL =>
      '(slot, r) ← READ_BYTE r;
      st ← gets stack;
      value ← defined (array_get st (r_stackStart r + slot));
      PUSH value;;
      mret (Dispatch r)
  | OP_SET_LOCAL =>
      '(slot, r) ← READ_BYTE r;
      value ← PEEK;
      st ← gets stack;
      st' ← defined (array_set st (r_stackStart r + slot) value);
      modify (set_stack st');;
      mret (Dispatch r)
  | OP_GET_GLOBAL =>
      '(name, r) ← READ_STRING r;
      table ← gets globals;
      match tableGet table name with
      | None =>
          chars ← chars_of name;
          fail r "Undefined variable '%s'." [ArgString chars]
      | Some value => PUSH value;; mret (Dispatch r)
      end
  | OP_DEFINE_GLOBAL =>
      '(name, r) ← READ_STRING r;
      value ← PEEK;
      modify (λ vm, set_globals (tableSet (globals vm) name value).1 vm);;
      DROP;;
      mret (Dispatch r)
  | OP_SET_GLOBAL =>
      '(name, r) ← READ_STRING r;
      value ← PEEK;
      table ← gets globals;
      let set := tableSet table name value in
      modify (set_globals set.1);;
      if set.2 then
        modify (λ vm, set_globals (tableDelete (globals vm) name) vm);;
        chars ← chars_of name;
        fail r "Undefined variable '%s'." [ArgString chars]
      else mret (Dispatch r)
  | OP_GET_UPVALUE =>
      '(index, r) ← READ_BYTE r;
      upvalue ← frame_upvalue r index;
      upvalue ← defined upvalue;
      value ← read_location upvalue;
      PUSH value;;
      mret (Dispatch r)
  | OP_SET_UPVALUE =>
      '(index, r) ← READ_BYTE r;
      upvalue ← frame_upvalue r index;
      upvalue ← defined upvalue;
      value ← PEEK;
      write_location upvalue value;;
      mret (Dispatch r)
  | OP_GET_PROPERTY =>
      receiver ← PEEK;
      is_instance ← IS_INSTANCE receiver;
      if negb is_instance then fail r "Only instances have properties." []
      else
        instance ← AS_INSTANCE receiver;
        '(name, r) ← READ_STRING r;
        fields ← fields_of instance;
        match tableGet fields name with
        | Some value =>
            DROP;; (* Instance. *)
            PUSH value;;
            mret (Dispatch r)
        | None =>
            klass ← klass_of instance;
            bound ← bindMethod klass name;
            if negb bound then mret (Return INTERPRET_RUNTIME_ERROR)
            else mret (Dispatch r)
        end
  | OP_SET_PROPERTY =>
      receiver ← PEEK2;
      is_instance ← IS_INSTANCE receiver;
      if negb is_instance then fail r "Only instances have fields." []
      else
        instance ← AS_INSTANCE receiver;
        '(name, r) ← READ_STRING r;
        value ← PEEK;
        fields ← fields_of instance;
        set_fields instance (tableSet fields name value).1;;
        value ← POP;
        DROP;;
        PUSH value;;
        mret (Dispatch r)
  | OP_GET_SUPER =>
      '(name, r) ← READ_STRING r;
      superclass ← POP;
      superclass ← AS_CLASS superclass;
      bound ← bindMethod superclass name;
      if negb bound then mret (Return INTERPRET_RUNTIME_ERROR)
      else mret (Dispatch r)
  | OP_EQUAL =>
      b ← POP;
      a ← POP;
      PUSH (BOOL_VAL (valuesEqual a b));;
      mret (Dispatch r)
  | OP_GREATER => BINARY_OP r (λ a b, BOOL_VAL (PrimFloat.ltb b a))
  | OP_LESS => BINARY_OP r (λ a b, BOOL_VAL (PrimFloat.ltb a b))
  | OP_ADD =>
      b ← PEEK;
      b_is_string ← IS_STRING b;
      both_strings ← (if (b_is_string : bool) then a ← PEEK2; IS_STRING a
                      else mret false : M bool);
      if (both_strings : bool) then concatenate;; mret (Dispatch r)
      else
        both_numbers ← (if IS_NUMBER b then a ← PEEK2; mret (IS_NUMBER a)
                        else mret false);
        if (both_numbers : bool) then
          b ← POP;
          b ← AS_NUMBER b;
          a ← POP;
          a ← AS_NUMBER a;
          PUSH (NUMBER_VAL (a + b)%float);;
          mret (Dispatch r)
        else fail r "Operands must be two numbers or two strings." []
  | OP_SUBTRACT => BINARY_OP r (λ a b, NUMBER_VAL (a - b)%float)
  | OP_MULTIPLY => BINARY_OP r (λ a b, NUMBER_VAL (a * b)%float)
  | OP_DIVIDE => BINARY_OP r (λ a b, NUMBER_VAL (a / b)%float)
  | OP_NOT =>
      value ← POP;
      PUSH (BOOL_VAL (isFalsey value));;
      mret (Dispatch r)
  | OP_NEGATE =>
      value ← PEEK;
      if negb (IS_NUMBER value) then fail r "Operand must be a number." []
      else
        value ← POP;
        number ← AS_NUMBER value;
        negated ← defined (Value_of_double (- number)%float);
        PUSH negated;;
        mret (Dispatch r)
  | OP_PRINT =>
      value ← POP;
      modify (λ vm, set_stdout (stdout vm ++ [value]) vm);;
      mret (Dispatch r)
  | OP_JUMP =>
      '(offset, r) ← READ_SHORT r;
      mret (Dispatch (set_r_ip (r_ip r + offset) r))
  | OP_JUMP_IF_FALSE =>
      '(offset, r) ← READ_SHORT r;
      value ← PEEK;
      if isFalsey value then mret (Dispatch (set_r_ip (r_ip r + offset) r))
      else mret (Dispatch r)
  | OP_LOOP =>
      '(offset, r) ← READ_SHORT r;
      mret (Dispatch (set_r_ip (r_ip r - offset) r))
  | OP_CALL =>
      '(argCount, r) ← READ_BYTE r;
      STORE_FRAME r;;
      callee ← peek argCount;
      called ← callValue callee argCount;
      if negb called then mret (Return INTERPRET_RUNTIME_ERROR)
      else r ← LOAD_FRAME; mret (Dispatch r)
  | OP_INVOKE =>
      '(method, r) ← READ_STRING r;
      '(argCount, r) ← READ_BYTE r;
      STORE_FRAME r;;
      invoked ← invoke method argCount;
      if negb invoked then mret (Return INTERPRET_RUNTIME_ERROR)
      else r ← LOAD_FRAME; mret (Dispatch r)
  | OP_SUPER_INVOKE =>
      '(method, r) ← READ_STRING r;
      '(argCount, r) ← READ_BYTE r;
      superclass ← POP;
      superclass ← AS_CLASS superclass;
      STORE_FRAME r;;
      invoked ← invokeFromClass superclass method argCount;
      if negb invoked then mret (Return INTERPRET_RUNTIME_ERROR)
      else r ← LOAD_FRAME; mret (Dispatch r)
  | OP_CLOSURE =>
      '(function, r) ← READ_CONSTANT r;
      function ← AS_FUNCTION function;
      closure ← newClosure function;
      PUSH (OBJ_VAL closure);;
      upvalues ← upvalues_of closure;
      r ← captureLoop (length upvalues) 0 closure r;
      mret (Dispatch r)
  | OP_CLOSE_UPVALUE =>
      top ← gets stackTop;
      closeUpvalues (top - 1);;
      DROP;;
      mret (Dispatch r)
  | OP_RETURN =>
      result ← POP;
      closeUpvalues (r_stackStart r);;
      fc ← gets frameCount;
      modify (set_frameCount (fc - 1));;
      if (fc - 1 =? 0)%Z then
        DROP;;
        mret (Return INTERPRET_OK)
      else
        modify (set_stackTop (r_stackStart r));;
        PUSH result;;
        r ← LOAD_FRAME;
        mret (Dispatch r)
  | OP_CLASS =>
      '(name, r) ← READ_STRING r;
      klass ← newClass name;
      PUSH (OBJ_VAL klass);;
      mret (Dispatch r)
  | OP_INHERIT =>
      superclass ← PEEK2;
      is_class ← IS_CLASS superclass;
      if negb is_class then fail r "Superclass must be a class." []
      else
        subclass ← PEEK;
        subclass ← AS_CLASS subclass;
        superclass ← AS_CLASS superclass;
        from ← methods_of superclass;
        to ← methods_of subclass;
        set_methods subclass (tableAddAll from to);;
        DROP;; (* Subclass. *)
        mret (Dispatch r)
  | OP_METHOD =>
      '(name, r) ← READ_STRING r;
      defineMethod name;;
      mret (Dispatch r)
  end.

(** The dispatch loop, for at most [fuel] instructions. *)
Fixpoint dispatchLoop (fuel : nat) (r : Registers) : M InterpretResult :=
  match fuel with
  | O => halt OutOfFuel
  | S fuel' =>
      outcome ← instruction r;
      match outcome with
      | Dispatch r' => dispatchLoop fuel' r'
      | Return result => mret result
      end
  end.

Definition run (fuel : nat) : M InterpretResult :=
  r ← LOAD_FRAME;
  dispatchLoop fuel r.

Definition interpret (fuel : nat) (source : string) : M InterpretResult :=
  function ← compile source;
  match function with
  | None => mret INTERPRET_COMPILE_ERROR
  | Some function =>
      push (OBJ_VAL function);;
      closure ← newClosure function;
      pop;;
      push (OBJ_VAL closure);;
      call closure 0;;
      run fuel
  end.

Definition defineNative (name : string) (function : NativeFn) : M unit :=
  name ← copyString name;
  push (OBJ_VAL name);;
  native ← newNative function;
  push (OBJ_VAL native);;
  st ← gets stack;
  key ← defined (array_get st 0);
  key ← AS_STRING key;
  value ← defined (array_get st 1);
  modify (λ vm, set_globals (tableSet (globals vm) key value).1 vm);;
  pop;;
  pop;;
  mret ().

Definition initVM : M unit :=
  resetStack;;
  modify (set_objects []);;
  modify (set_globals ∅);;
  modify (set_strings ∅);;
  modify (set_initString None);;
  init ← copyString "init";
  modify (set_initString (Some init));;
  defineNative "clock" clockNative;;
  defineNative "exit" exitNative;;
  defineNative "gc" gcNative;;
  defineNative "gcHeapSize" gcHeapSizeNative.


(** *** What an error leaves behind *)

(** The state that [resetStack] establishes. *)
Definition is_reset (vm : VMState) : Prop :=
  stackTop vm = 0%Z ∧ frameCount vm = 0%Z ∧ openUpvalues vm = None.

Create HintDb reset.

Lemma runtimeError_reset (format : string) (args : list FormatArg) (u : ())
    (vm vm' : VMState) :
  runtimeError format args vm = Ret (u, vm') → is_reset vm'.
Proof.
  unfold runtimeError, resetStack. intros H. minv H. by repeat split.
Qed.
#[local] Hint Resolve runtimeError_reset : reset.

Ltac reset_solver := try done; eauto with reset.

(** The functions that return [false] do so after [runtimeError]. *)
Lemma call_false (closure : ObjRef) (argCount : Z) (vm vm' : VMState) :
  call closure argCount vm = Ret (false, vm') → is_reset vm'.
Proof. intros H. unfold call in H. minv H; reset_solver. Qed.
#[local] Hint Resolve call_false : reset.

Lemma callValue_false (callee : Value) (argCount : Z) (vm vm' : VMState) :
  callValue callee argCount vm = Ret (false, vm') → is_reset vm'.
Proof. intros H. unfold callValue in H. minv H; reset_solver. Qed.
#[local] Hint Resolve callValue_false : reset.

Lemma invokeFromClass_false (klass name : ObjRef) (argCount : Z)
    (vm vm' : VMState) :
  invokeFromClass klass name argCount vm = Ret (false, vm') → is_reset vm'.
Proof. intros H. unfold invokeFromClass in H. minv H; reset_solver. Qed.
#[local] Hint Resolve invokeFromClass_false : reset.

Lemma invoke_false (name : ObjRef) (argCount : Z) (vm vm' : VMState) :
  invoke name argCount vm = Ret (false, vm') → is_reset vm'.
Proof. intros H. unfold invoke in H. minv H; reset_solver. Qed.
#[local] Hint Resolve invoke_false : reset.

Lemma bindMethod_false (klass name : ObjRef) (vm vm' : VMState) :
  bindMethod klass name vm = Ret (false, vm') → is_reset vm'.
Proof. intros H. unfold bindMethod in H. minv H; reset_solver. Qed.
#[local] Hint Resolve bindMethod_false : reset.

Lemma fail_reset (r : Registers) (format : string) (args : list FormatArg)
    (outcome : Outcome) (vm vm' : VMState) :
  fail r format args vm = Ret (outcome, vm') →
  outcome = Return INTERPRET_RUNTIME_ERROR ∧ is_reset vm'.
Proof. intros H. unfold fail in H. minv H. split; reset_solver. Qed.

Lemma BINARY_OP_return (r : Registers) (op : float → float → Value)
    (result : InterpretResult) (vm vm' : VMState) :
  BINARY_OP r op vm = Ret (Return result, vm') →
  result = INTERPRET_RUNTIME_ERROR ∧ is_reset vm'.
Proof.
  intros H. unfold BINARY_OP in H. minv H;
    try (apply fail_reset in H as [[= ->] ?]; done).
Qed.

(** *** How [run] returns *)

Lemma store_frame (o : ObjRef) (obj : Obj) (u : ()) (vm vm' : VMState) :
  store o obj vm = Ret (u, vm') →
  stackTop vm' = stackTop vm ∧ frameCount vm' = frameCount vm
  ∧ stack vm' = stack vm ∧ frames vm' = frames vm.
Proof. intros H. unfold store in H. minv H. done. Qed.

Lemma closeLoop_frame (fuel : nat) (last : Z) (u : ()) (vm vm' : VMState) :
  closeLoop fuel last vm = Ret (u, vm') →
  stackTop vm' = stackTop vm ∧ frameCount vm' = frameCount vm
  ∧ stack vm' = stack vm ∧ frames vm' = frames vm.
Proof.
  revert vm. induction fuel as [|fuel IH]; intros vm H; simpl in H; minv H;
    try done.
  match goal with
  | Hs : store _ _ _ = Ret _ |- _ => apply store_frame in Hs as (? & ? & ? & ?)
  end.
  apply IH in H as (? & ? & ? & ?). simpl in *.
  repeat split; congruence.
Qed.

(** The opcode that [instruction] dispatches on. *)
Definition fetch (r : Registers) (vm : VMState) : option OpCode :=
  match READ_BYTE r vm with
  | Ret ((b, _), _) => opcode_of_byte b
  | Halt _ => None
  end.

(** The dispatch loop is about to return from the only active frame. *)
Definition at_script_return (r : Registers) (vm : VMState) : Prop :=
  frameCount vm = 1%Z ∧ fetch r vm = Some OP_RETURN.

Lemma READ_BYTE_pure (r r' : Registers) (b : Z) (vm vm' : VMState) :
  READ_BYTE r vm = Ret ((b, r'), vm') → vm' = vm.
Proof.
  intros H. unfold READ_BYTE, chunk_of, deref in H. minv H; done.
Qed.

(** [run] returns in two ways only: with a runtime error, after
    [resetStack]; or with [INTERPRET_OK], from [OP_RETURN] in the only
    active frame, two slots below the top of the stack. *)
Lemma instruction_return (r : Registers) (result : InterpretResult)
    (vm vm' : VMState) :
  instruction r vm = Ret (Return result, vm') →
  (result = INTERPRET_RUNTIME_ERROR ∧ is_reset vm')
  ∨ (result = INTERPRET_OK ∧ at_script_return r vm
     ∧ frameCount vm' = 0%Z ∧ stackTop vm' = (stackTop vm - 2)%Z
     ∧ stack vm' = stack vm).
Proof.
  intros H. unfold instruction in H.
  apply bind_Ret in H as ([b r1] & vm1 & Hread & H).
  pose proof (READ_BYTE_pure _ _ _ _ _ Hread) as ->.
  apply bind_Ret in H as (op & vm1 & Hop & H).
  apply defined_Ret in Hop as [Hop ->].
  destruct op.
  all: try (left; minv H;
            try match goal with
                | H : fail _ _ _ _ = Ret _ |- _ =>
                    apply fail_reset in H as [[= ->] ?]
                | H : BINARY_OP _ _ _ = Ret _ |- _ =>
                    apply BINARY_OP_return in H as [-> ?]
                end;
            by (split; reset_solver)).
  right. unfold POP, pop, closeUpvalues, DROP in H. minv H.
  match goal with
  | Hc : closeLoop _ _ _ = Ret _ |- _ =>
      apply closeLoop_frame in Hc as (Htop & Hfc & Hst & _)
  end.
  simpl in *.
  split; [done|]. split.
  { split; [lia|]. unfold fetch. by rewrite Hread. }
  split; [lia|]. split; [lia|done].
Qed.

(** The registers and the state after [n] instructions, if each of them
    ended in [DISPATCH()]. *)
Fixpoint steps (n : nat) (r : Registers) (vm : VMState)
    : option (Registers * VMState) :=
  match n with
  | O => Some (r, vm)
  | S n' =>
      match instruction r vm with
      | Ret (Dispatch r', vm') => steps n' r' vm'
      | _ => None
      end
  end.

Lemma dispatchLoop_return (fuel : nat) (r : Registers)
    (result : InterpretResult) (vm vm' : VMState) :
  dispatchLoop fuel r vm = Ret (result, vm') →
  ∃ n rn vmn, n < fuel ∧ steps n r vm = Some (rn, vmn)
    ∧ instruction rn vmn = Ret (Return result, vm').
Proof.
  revert r vm. induction fuel as [|fuel IH]; intros r vm H; [done|].
  simpl in H. apply bind_Ret in H as (outcome & vm1 & Hinstr & H).
  destruct outcome as [r'|result'].
  - apply IH in H as (n & rn & vmn & Hn & Hsteps & Hlast).
    exists (S n), rn, vmn. simpl. rewrite Hinstr. split; [lia|done].
  - apply mret_Ret in H as [-> ->]. exists 0, r, vm. split; [lia|done].
Qed.

(** The dispatch loop returns when its budget allows for the instructions
    up to the one that returns. *)
Lemma dispatchLoop_complete (fuel n : nat) (r rn : Registers)
    (result : InterpretResult) (vm vmn vm' : VMState) :
  steps n r vm = Some (rn, vmn) →
  instruction rn vmn = Ret (Return result, vm') →
  n < fuel →
  dispatchLoop fuel r vm = Ret (result, vm').
Proof.
  revert fuel r vm. induction n as [|n IH]; intros fuel r vm Hsteps Hlast Hfuel;
    (destruct fuel as [|fuel]; [lia|]); simpl in *.
  - injection Hsteps as -> ->. by rewrite (bind_Ret_intro _ _ _ _ _ Hlast).
  - destruct (instruction r vm) as [[[r'|?] vm1]|] eqn:Hinstr; try done.
    rewrite (bind_Ret_intro _ _ _ _ _ Hinstr). apply IH; [done..|lia].
Qed.

(** *** Runtime errors *)

(** X6.  [runtimeError] ends in [resetStack]: it leaves the stack empty,
    no frame active, and the list of open upvalues empty.  [run] returns
    [INTERPRET_RUNTIME_ERROR] only after [runtimeError], so the VM is in
    that state, with no open upvalue, after every such return. *)
Theorem runtime_error_resets (format : string) (args : list FormatArg)
    (fuel : nat) (vm0 vm0' vm vm' : VMState) :
  (runtimeError format args vm0 = Ret ((), vm0') →
   stackTop vm0' = 0%Z ∧ frameCount vm0' = 0%Z ∧ openUpvalues vm0' = None)
  ∧ (run fuel vm = Ret (INTERPRET_RUNTIME_ERROR, vm') →
     stackTop vm' = 0%Z ∧ frameCount vm' = 0%Z ∧ openUpvalues vm' = None).
Proof.
  split; [apply runtimeError_reset|].
  unfold run. intros (r & vm1 & _ & H)%bind_Ret.
  apply dispatchLoop_return in H as (n & rn & vmn & _ & _ & Hlast).
  by apply instruction_return in Hlast as [[_ Hreset]|[[=] _]].
Qed.

(** *** The stacks after [interpret] *)

(** [interpret], from the function of the script to the first
    instruction. *)
Definition enter (function : ObjRef) : M Registers :=
  push (OBJ_VAL function);;
  closure ← newClosure function;
  pop;;
  push (OBJ_VAL closure);;
  call closure 0;;
  LOAD_FRAME.

(** The code of the script keeps the discipline of the compiler: when it
    returns from the frame of the script, the stack holds the closure of
    the script and the value to return, and nothing else. *)
Definition script_balanced (source : string) (vm0 : VMState) : Prop :=
  ∀ function vm1 r vm2 n rn vmn,
    compile source vm0 = Ret (Some function, vm1) →
    enter function vm1 = Ret (r, vm2) →
    steps n r vm2 = Some (rn, vmn) →
    at_script_return rn vmn →
    stackTop vmn = 2%Z.

Lemma interpret_enter (fuel : nat) (source : string)
    (result : InterpretResult) (vm0 vm' : VMState) :
  interpret fuel source vm0 = Ret (result, vm') →
  (result = INTERPRET_COMPILE_ERROR ∧ compile source vm0 = Ret (None, vm'))
  ∨ ∃ function vm1 r vm2,
      compile source vm0 = Ret (Some function, vm1)
      ∧ enter function vm1 = Ret (r, vm2)
      ∧ dispatchLoop fuel r vm2 = Ret (result, vm').
Proof.
  unfold interpret. intros (function & vm1 & Hcompile & H)%bind_Ret.
  destruct function as [function|].
  - right. exists function, vm1.
    apply bind_Ret in H as (? & va & Ha & H).
    apply bind_Ret in H as (closure & vb & Hb & H).
    apply bind_Ret in H as (? & vc & Hc & H).
    apply bind_Ret in H as (? & vd & Hd & H).
    apply bind_Ret in H as (? & ve & He & H).
    unfold run in H. apply bind_Ret in H as (r & vf & Hf & H).
    exists r, vf. split; [done|]. split; [|done].
    unfold enter.
    rewrite (bind_Ret_intro _ _ _ _ _ Ha), (bind_Ret_intro _ _ _ _ _ Hb),
      (bind_Ret_intro _ _ _ _ _ Hc), (bind_Ret_intro _ _ _ _ _ Hd),
      (bind_Ret_intro _ _ _ _ _ He).
    done.
  - left. apply mret_Ret in H as [-> ->]. done.
Qed.

(** X1.  For a script that keeps the stack discipline of the compiler,
    [interpret] leaves no frame active and the value stack empty when it
    returns [INTERPRET_OK] or [INTERPRET_RUNTIME_ERROR]. *)
Theorem interpret_leaves_stacks_empty (fuel : nat) (source : string)
    (result : InterpretResult) (vm0 vm' : VMState) :
  script_balanced source vm0 →
  interpret fuel source vm0 = Ret (result, vm') →
  result = INTERPRET_OK ∨ result = INTERPRET_RUNTIME_ERROR →
  frameCount vm' = 0%Z ∧ stackTop vm' = 0%Z.
Proof.
  intros Hbalanced Hrun Hresult.
  apply interpret_enter in Hrun
    as [[-> _]|(function & vm1 & r & vm2 & Hcompile & Henter & Hloop)].
  { by destruct Hresult. }
  apply dispatchLoop_return in Hloop as (n & rn & vmn & _ & Hsteps & Hlast).
  apply instruction_return in Hlast
    as [[_ (Htop & Hfc & _)]|(_ & Hat & Hfc & Htop & _)]; [done|].
  split; [done|].
  rewrite Htop, (Hbalanced _ _ _ _ _ _ _ Hcompile Henter Hsteps Hat). done.
Qed.

(** *** Running a computation forwards *)

Lemma bind_gets {A B : Type} (f : VMState → A) (k : A → M B) (vm : VMState) :
  (gets f ≫= k) vm = k (f vm) vm.
Proof. done. Qed.

Lemma bind_modify {B : Type} (f : VMState → VMState) (k : () → M B)
    (vm : VMState) :
  (modify f ≫= k) vm = k () (f vm).
Proof. done. Qed.

Lemma bind_mret {A B : Type} (a : A) (k : A → M B) (vm : VMState) :
  (mret a ≫= k) vm = k a vm.
Proof. done. Qed.

Lemma bind_defined {A B : Type} (a : A) (k : A → M B) (vm : VMState) :
  (defined (Some a) ≫= k) vm = k a vm.
Proof. done. Qed.

Lemma bind_assoc {A B C : Type} (m : M A) (f : A → M B) (g : B → M C)
    (vm : VMState) :
  ((m ≫= f) ≫= g) vm = (m ≫= λ a, f a ≫= g) vm.
Proof. unfold mbind, M_bind. by destruct (m vm) as [[a vm1]|]. Qed.

(** One step of a computation whose first part is known. *)
Ltac mstep :=
  first
  [ rewrite bind_assoc
  | rewrite bind_gets
  | rewrite bind_modify
  | rewrite bind_mret
  | rewrite bind_defined
  | match goal with
    | H : ?m ?vm = Ret (?a, ?vm1) |- context [(?m ≫= _) ?vm] =>
        rewrite (bind_Ret_intro m _ vm vm1 a H)
    end ];
  cbv beta iota.

(** *** The diagnostic of an error *)

Lemma stackTrace_stderr (i : nat) (u : ()) (vm vm' : VMState) :
  stackTrace i vm = Ret (u, vm') →
  ∃ trace, vm' = set_stderr (stderr vm ++ trace) vm.
Proof.
  revert vm. induction i as [|i IH]; intros vm H; simpl in H.
  - apply mret_Ret in H as [_ ->]. exists []. rewrite app_nil_r. by destruct vm.
  - unfold function_of, chunk_of, name_of, chars_of in H. minv H.
    all: apply IH in H as [trace ->]; simpl; eexists;
      by rewrite <- app_assoc.
Qed.

(** [fail] stores the instruction pointer, writes the message and the
    trace, and resets the stacks; it changes nothing else. *)
Lemma fail_spec (r : Registers) (format : string) (args : list FormatArg)
    (outcome : Outcome) (vm vm' : VMState) :
  fail r format args vm = Ret (outcome, vm') →
  outcome = Return INTERPRET_RUNTIME_ERROR
  ∧ is_reset vm'
  ∧ (∃ trace, stderr vm' = stderr vm ++ Message format args :: trace)
  ∧ globals vm' = globals vm ∧ strings vm' = strings vm
  ∧ objects vm' = objects vm ∧ stack vm' = stack vm
  ∧ stdout vm' = stdout vm.
Proof.
  intros H. pose proof (fail_reset _ _ _ _ _ _ H) as [-> Hreset].
  split; [done|]. split; [done|].
  unfold fail, STORE_FRAME, runtimeError, resetStack in H. minv H.
  match goal with
  | Ht : stackTrace _ _ = Ret _ |- _ =>
      apply stackTrace_stderr in Ht as [trace ->]
  end.
  simpl. split; [|done]. exists trace. by rewrite <- app_assoc.
Qed.

(** The frame can be reported in the trace: its closure, the function of
    the closure, the line of the instruction before [ip] and the name of
    the function can all be read. *)
Definition traceable_frame (heap : list Obj) (frame : CallFrame) : bool :=
  match heap !! closure frame with
  | Some (ObjClosure function _) =>
      match heap !! function with
      | Some (ObjFunction _ _ chunk name) =>
          match array_get (lines chunk) (ip frame - 1) with
          | Some _ =>
              match name with
              | None => true
              | Some n =>
                  match heap !! n with
                  | Some (ObjString _) => true
                  | _ => false
                  end
              end
          | None => false
          end
      | _ => false
      end
  | _ => false
  end.

(** Every active frame can be reported, the current one with the
    instruction pointer of the registers. *)
Definition traceable (r : Registers) (vm : VMState) : bool :=
  match array_get (frames vm) (r_frame r) with
  | Some frame =>
      match array_set (frames vm) (r_frame r)
              {| closure := closure frame; ip := r_ip r;
                 slots := slots frame |} with
      | Some fs =>
          bool_decide (Z.to_nat (frameCount vm) ≤ length fs)
          && forallb (traceable_frame (objects vm))
               (take (Z.to_nat (frameCount vm)) fs)
      | None => false
      end
  | None => false
  end.

Definition frame_traceable (heap : list Obj) (frame : CallFrame) : Prop :=
  ∃ function upvalues arity count chunk name line,
    heap !! closure frame = Some (ObjClosure function upvalues)
    ∧ heap !! function = Some (ObjFunction arity count chunk name)
    ∧ array_get (lines chunk) (ip frame - 1) = Some line
    ∧ match name with
      | None => True
      | Some n => ∃ chars, heap !! n = Some (ObjString chars)
      end.

Lemma traceable_frame_true (heap : list Obj) (frame : CallFrame) :
  traceable_frame heap frame = true → frame_traceable heap frame.
Proof.
  unfold traceable_frame, frame_traceable. intros H.
  destruct (heap !! closure frame) as [[| | |function upvalues| | | |]|];
    try done.
  destruct (heap !! function) as [[|arity count chunk name| | | | | |]|]
    eqn:Hfunction; try done.
  destruct (array_get _ _) as [line|] eqn:Hline; [|done].
  exists function, upvalues, arity, count, chunk, name, line.
  split; [done|]. split; [done|]. split; [done|].
  destruct name as [n|]; [|done].
  destruct (heap !! n) as [[chars| | | | | | |]|]; try done. by exists chars.
Qed.

Lemma traceable_true (r : Registers) (vm : VMState) :
  traceable r vm = true →
  ∃ frame fs,
    array_get (frames vm) (r_frame r) = Some frame
    ∧ array_set (frames vm) (r_frame r)
        {| closure := closure frame; ip := r_ip r; slots := slots frame |}
      = Some fs
    ∧ ∀ i, i < Z.to_nat (frameCount vm) →
        ∃ f, fs !! i = Some f ∧ frame_traceable (objects vm) f.
Proof.
  unfold traceable. intros H.
  destruct (array_get _ _) as [frame|] eqn:Hframe; [|done].
  destruct (array_set _ _ _) as [fs|] eqn:Hfs; [|done].
  apply andb_true_iff in H as [Hlen%bool_decide_eq_true Hall].
  exists frame, fs. split; [done|]. split; [done|].
  intros i Hi. destruct (lookup_lt_is_Some_2 fs i) as [f Hf]; [lia|].
  exists f. split; [done|]. apply traceable_frame_true.
  rewrite forallb_forall in Hall. apply Hall.
  apply list_elem_of_In, list_elem_of_lookup. exists i.
  by rewrite lookup_take_lt.
Qed.

Lemma stackTrace_defined (i : nat) (vm : VMState) :
  (∀ j, j < i → ∃ f, frames vm !! j = Some f
                     ∧ frame_traceable (objects vm) f) →
  ∃ trace, stackTrace i vm = Ret ((), set_stderr (stderr vm ++ trace) vm).
Proof.
  revert vm. induction i as [|i IH]; intros vm Hframes.
  - exists []. simpl. rewrite app_nil_r. by destruct vm.
  - destruct (Hframes i) as (f & Hf & function & upvalues & arity & count
                             & chunk & name & line & Hc & Hfn & Hline & Hname);
      [lia|].
    destruct (IH (set_stderr (stderr vm ++ [TraceLine line
                (match name with
                 | None => None
                 | Some n => match objects vm !! n with
                             | Some (ObjString chars) => Some chars
                             | _ => None
                             end
                 end)]) vm)) as [trace Htrace].
    { intros j Hj. simpl. apply Hframes. lia. }
    exists (TraceLine line
              (match name with
               | None => None
               | Some n => match objects vm !! n with
                           | Some (ObjString chars) => Some chars
                           | _ => None
                           end
               end) :: trace).
    cbn [stackTrace]. rewrite bind_gets, Hf, bind_defined.
    unfold function_of, chunk_of, name_of, chars_of, deref.
    repeat (first [rewrite bind_assoc | rewrite bind_gets
                  | rewrite Hc | rewrite Hfn | rewrite Hline
                  | rewrite bind_defined | rewrite bind_mret]; cbv beta iota).
    destruct name as [n|].
    + destruct Hname as [chars Hn].
      repeat (first [rewrite bind_assoc | rewrite bind_gets | rewrite Hn
                    | rewrite bind_defined | rewrite bind_mret
                    | rewrite bind_modify]; cbv beta iota).
      rewrite Hn in Htrace. rewrite Htrace. simpl.
      by rewrite <- app_assoc.
    + repeat (first [rewrite bind_mret | rewrite bind_modify]; cbv beta iota).
      rewrite Htrace. simpl. by rewrite <- app_assoc.
Qed.

(** Where every active frame can be reported, [fail] returns. *)
Lemma fail_defined (r : Registers) (format : string) (args : list FormatArg)
    (vm : VMState) :
  traceable r vm = true →
  ∃ vm', fail r format args vm = Ret (Return INTERPRET_RUNTIME_ERROR, vm').
Proof.
  intros (frame & fs & Hframe & Hfs & Hall)%traceable_true.
  destruct (stackTrace_defined (Z.to_nat (frameCount vm))
              (set_stderr (stderr vm ++ [Message format args])
                 (set_frames fs vm))) as [trace Htrace]; [done|].
  unfold fail, STORE_FRAME, runtimeError, resetStack.
  repeat (first [rewrite bind_assoc | rewrite bind_gets | rewrite Hframe
                | rewrite Hfs | rewrite bind_defined | rewrite bind_modify];
          cbv beta iota).
  cbn [frameCount set_stderr set_frames]. rewrite (bind_Ret_intro _ _ _ _ _ Htrace).
  eexists. reflexivity.
Qed.

(** *** Assignment to a global variable *)

Lemma set_globals_same (vm : VMState) : set_globals (globals vm) vm = vm.
Proof. by destruct vm. Qed.

Lemma READ_STRING_Ret (r r' : Registers) (name : ObjRef) (vm vm' : VMState) :
  READ_STRING r vm = Ret ((name, r'), vm') →
  vm' = vm ∧ ∃ chars, chars_of name vm = Ret (chars, vm).
Proof.
  intros H. unfold READ_STRING, READ_CONSTANT, READ_BYTE, chunk_of,
    AS_STRING, AS_OBJ_OF in H.
  minv H. split; [done|].
  match goal with
  | Ho : objects _ !! _ = Some ?obj, Ht : type_of ?obj = OBJ_STRING |- _ =>
      destruct obj; try discriminate Ht;
      eexists; unfold chars_of, deref; rewrite bind_assoc, bind_gets;
      rewrite Ho; reflexivity
  end.
Qed.

(** X5.  [OP_SET_GLOBAL] with a name that the globals table does not
    hold reports "Undefined variable" with the name, returns
    [INTERPRET_RUNTIME_ERROR] and leaves the table as it was; with a name
    that the table holds, it binds the name to the value on top of the
    stack and goes on, the stack unchanged. *)
Theorem set_global_defined_or_error (r r1 r2 : Registers) (b : Z)
    (name : ObjRef) (value : Value) (vm : VMState) :
  READ_BYTE r vm = Ret ((b, r1), vm) →
  opcode_of_byte b = Some OP_SET_GLOBAL →
  READ_STRING r1 vm = Ret ((name, r2), vm) →
  PEEK vm = Ret (value, vm) →
  (globals vm !! name = None → traceable r2 vm = true →
   ∃ chars trace vm',
     chars_of name vm = Ret (chars, vm)
     ∧ instruction r vm = Ret (Return INTERPRET_RUNTIME_ERROR, vm')
     ∧ stderr vm' = stderr vm
         ++ Message "Undefined variable '%s'." [ArgString chars] :: trace
     ∧ globals vm' = globals vm)
  ∧ (∀ old,
       globals vm !! name = Some old →
       let vm' := set_globals (<[name := value]> (globals vm)) vm in
       instruction r vm = Ret (Dispatch r2, vm')
       ∧ PEEK vm' = Ret (value, vm')).
Proof.
  intros Hread Hop Hname Hpeek.
  assert (instruction r vm
    = (let set := tableSet (globals vm) name value in
       if set.2 then
         (chars ← chars_of name;
          fail r2 "Undefined variable '%s'." [ArgString chars])
           (set_globals (tableDelete set.1 name) vm)
       else Ret (Dispatch r2, set_globals set.1 vm))) as ->.
  { unfold instruction. mstep. rewrite Hop. mstep.
    do 3 mstep. cbv zeta. mstep.
    destruct (tableSet (globals vm) name value).2; [|done].
    by mstep. }
  unfold tableSet, tableDelete. cbn [fst snd].
  split.
  - intros Hnone Htrace.
    destruct (READ_STRING_Ret _ _ _ _ _ Hname) as [_ [chars Hchars]].
    destruct (fail_defined r2 "Undefined variable '%s'." [ArgString chars]
                vm Htrace) as [vm' Hfail].
    rewrite bool_decide_eq_true_2 by done.
    rewrite delete_insert_eq, delete_id by done.
    rewrite set_globals_same. mstep. rewrite Hfail.
    apply fail_spec in Hfail as (_ & _ & [trace Hstderr] & Hglobals & _).
    by exists chars, trace, vm'.
  - intros old Hold.
    rewrite bool_decide_eq_false_2 by (rewrite Hold; discriminate).
    split; [done|].
    unfold PEEK, peek in *. do 2 rewrite bind_gets in *. simpl.
    destruct (array_get _ _); [|done].
    by apply mret_Ret in Hpeek as [-> _].
Qed.

(** *** Addition *)




(** An object value refers to an object of the heap. *)
Definition valid_value (vm : VMState) (value : Value) : Prop :=
  match value with
  | OBJ_VAL o => is_Some (objects vm !! o)
  | _ => True
  end.


Lemma peek_Ret (distance : Z) (value : Value) (vm vm' : VMState) :
  peek distance vm = Ret (value, vm') →
  array_get (stack vm) (stackTop vm - 1 - distance) = Some value ∧ vm' = vm.
Proof. intros H. unfold peek in H. by minv H. Qed.

Lemma array_get_set {A : Type} (a : list A) (i : Z) (x y : A) :
  array_get a i = Some x →
  array_set a i y = Some (<[Z.to_nat i := y]> a).
Proof.
  unfold array_get, array_set. destruct (i <? 0)%Z eqn:Hi; [done|].
  intros Hx%lookup_lt_Some.
  apply Z.ltb_ge in Hi.
  rewrite (proj2 (Z.leb_le _ _)) by done.
  by rewrite (proj2 (Z.ltb_lt _ _)) by lia.
Qed.


Lemma chars_of_string (o : ObjRef) (chars : string) (vm : VMState) :
  objects vm !! o = Some (ObjString chars) →
  chars_of o vm = Ret (chars, vm).
Proof.
  intros Ho. unfold chars_of, deref.
  by rewrite bind_assoc, bind_gets, Ho, bind_defined.
Qed.

Lemma pop_defined (value : Value) (vm : VMState) :
  array_get (stack vm) (stackTop vm - 1) = Some value →
  pop vm = Ret (value, set_stackTop (stackTop vm - 1) vm).
Proof.
  intros Hget. unfold pop. by rewrite !bind_gets, bind_modify, Hget.
Qed.

Lemma push_defined (value old : Value) (vm : VMState) :
  array_get (stack vm) (stackTop vm) = Some old →
  push value vm
  = Ret ((), set_stackTop (stackTop vm + 1)
               (set_stack (<[Z.to_nat (stackTop vm) := value]> (stack vm)) vm)).
Proof.
  intros Hget. unfold push.
  by rewrite !bind_gets, (array_get_set _ _ _ _ Hget), bind_defined,
    !bind_modify.
Qed.


(** *** The list of open upvalues *)

(** [open_seg heap from l to]: following [next] from [from] passes the
    upvalues of [l], each open and pointing at the stack slot given with
    it, and arrives at [to]. *)
Inductive open_seg (heap : list Obj)
    : option ObjRef → list (ObjRef * Z) → option ObjRef → Prop :=
| open_seg_nil (to : option ObjRef) : open_seg heap to [] to
| open_seg_cons (u : ObjRef) (slot : Z) (closed : Value)
    (next : option ObjRef) (l : list (ObjRef * Z)) (to : option ObjRef) :
    heap !! u = Some (ObjUpvalue (StackSlot slot) closed next) →
    open_seg heap next l to →
    open_seg heap (Some u) ((u, slot) :: l) to.

(** The list that starts at [head] holds the upvalues of [l]. *)
Definition open_list (heap : list Obj) (head : option ObjRef)
    (l : list (ObjRef * Z)) : Prop :=
  open_seg heap head l None.

(** Sorted by stack address, highest first, no address twice. *)
Definition descending (l : list (ObjRef * Z)) : Prop :=
  StronglySorted (λ x y, (y.2 < x.2)%Z) l.

Definition head_ref (l : list (ObjRef * Z)) : option ObjRef :=
  fst <$> head l.

Lemma open_seg_app (heap : list Obj) (l1 l2 : list (ObjRef * Z))
    (from mid to : option ObjRef) :
  open_seg heap from l1 mid → open_seg heap mid l2 to →
  open_seg heap from (l1 ++ l2) to.
Proof.
  induction 1 as [|u slot closed next l mid Hu _ IH]; [done|].
  intros H2. simpl. econstructor; [done|]. by apply IH.
Qed.

Lemma open_seg_snoc (heap : list Obj) (l : list (ObjRef * Z)) (p : ObjRef)
    (slot : Z) (from to : option ObjRef) :
  open_seg heap from (l ++ [(p, slot)]) to →
  open_seg heap from l (Some p)
  ∧ ∃ closed, heap !! p = Some (ObjUpvalue (StackSlot slot) closed to).
Proof.
  revert from. induction l as [|[u s] l IH]; intros from H; simpl in H.
  - inversion H as [|? ? closed next ? ? Hu Hrest]; subst.
    inversion Hrest; subst. split; [constructor|by exists closed].
  - inversion H as [|? ? closed next ? ? Hu Hrest]; subst.
    apply IH in Hrest as [Hseg Hp]. split; [|done]. by econstructor.
Qed.

(** A segment does not depend on the objects outside it. *)
Lemma open_seg_frame (heap heap' : list Obj) (l : list (ObjRef * Z))
    (from to : option ObjRef) :
  open_seg heap from l to →
  (∀ u, u ∈ l.*1 → heap' !! u = heap !! u) →
  open_seg heap' from l to.
Proof.
  induction 1 as [|u slot closed next l to Hu _ IH]; intros Hsame;
    [constructor|].
  econstructor.
  - rewrite Hsame; [done|]. simpl. by left.
  - apply IH. intros u' Hu'. apply Hsame. simpl. by right.
Qed.

Lemma open_seg_head (heap : list Obj) (l : list (ObjRef * Z))
    (from to : option ObjRef) :
  open_seg heap from l to → l ≠ [] → from = head_ref l.
Proof. by destruct 1. Qed.

Lemma open_seg_lookup (heap : list Obj) (l : list (ObjRef * Z))
    (from to : option ObjRef) (u : ObjRef) (slot : Z) :
  open_seg heap from l to → (u, slot) ∈ l →
  ∃ closed next, heap !! u = Some (ObjUpvalue (StackSlot slot) closed next).
Proof.
  induction 1 as [|u' slot' closed next l to Hu _ IH]; intros Hin.
  - by apply elem_of_nil in Hin.
  - apply elem_of_cons in Hin as [[= -> ->]|Hin]; [by eauto|by apply IH].
Qed.

(** In a sorted list no upvalue occurs twice. *)
Lemma descending_NoDup (heap : list Obj) (l : list (ObjRef * Z))
    (from to : option ObjRef) :
  open_seg heap from l to → descending l → NoDup l.*1.
Proof.
  induction 1 as [|u slot closed next l to Hu Hseg IH]; intros Hdesc;
    [constructor|].
  apply StronglySorted_cons in Hdesc as [Hall Hdesc].
  simpl. constructor; [|by apply IH].
  intros ([u' slot'] & [= <-] & Hin)%list_elem_of_fmap.
  destruct (open_seg_lookup _ _ _ _ _ _ Hseg Hin) as (? & ? & Hu').
  rewrite Forall_forall in Hall. specialize (Hall _ Hin). simpl in Hall.
  rewrite Hu in Hu'. injection Hu' as -> _ _. lia.
Qed.

Lemma open_seg_in_heap (heap : list Obj) (l : list (ObjRef * Z))
    (from to : option ObjRef) (u : ObjRef) :
  open_seg heap from l to → u ∈ l.*1 → u < length heap.
Proof.
  intros Hseg ([u' slot] & -> & Hin)%list_elem_of_fmap.
  destruct (open_seg_lookup _ _ _ _ _ _ Hseg Hin) as (? & ? & Hu).
  by apply lookup_lt_Some in Hu.
Qed.

(** A sorted list is no longer than the heap has objects. *)
Lemma descending_length (heap : list Obj) (l : list (ObjRef * Z))
    (from to : option ObjRef) :
  open_seg heap from l to → descending l → length l ≤ length heap.
Proof.
  intros Hseg Hdesc.
  rewrite <- (length_fmap fst l), <- (length_seq (length heap) 0).
  apply submseteq_length, NoDup_submseteq.
  - by eapply descending_NoDup.
  - intros u Hu. apply elem_of_seq.
    pose proof (open_seg_in_heap _ _ _ _ _ Hseg Hu). lia.
Qed.

(** The loop of [captureUpvalue] passes the upvalues above [local] and
    stops at the first that is not above it. *)
Lemma captureWalk_spec (heap : list Obj) (local : Z) (l : list (ObjRef * Z)) :
  ∀ (fuel : nat) (prev from : option ObjRef),
  open_list heap from l → length l ≤ fuel →
  ∃ l1 l2 prev',
    l = l1 ++ l2
    ∧ captureWalk fuel heap local prev from = Ret (prev', head_ref l2)
    ∧ Forall (λ x, (local < x.2)%Z) l1
    ∧ (∀ x, head l2 = Some x → (x.2 ≤ local)%Z)
    ∧ open_seg heap from l1 (head_ref l2)
    ∧ open_list heap (head_ref l2) l2
    ∧ (l1 = [] ∧ prev' = prev
       ∨ ∃ l1' p slot, l1 = l1' ++ [(p, slot)] ∧ prev' = Some p).
Proof.
  induction l as [|[u slot] l IH]; intros fuel prev from Hlist Hfuel.
  - inversion Hlist; subst. exists [], [], prev.
    split; [done|]. split; [by destruct fuel|]. split; [constructor|].
    split; [done|]. split; [constructor|]. split; [constructor|]. by left.
  - inversion Hlist as [|? ? closed next ? ? Hu Hrest]; subst.
    destruct (decide (local < slot)%Z) as [Hlt|Hge].
    + destruct fuel as [|fuel]; [simpl in Hfuel; lia|].
      destruct (IH fuel (Some u) next Hrest)
        as (l1 & l2 & prev' & -> & Hwalk & Hall & Hhd & Hseg & Hl2 & Hprev);
        [simpl in Hfuel; lia|].
      exists ((u, slot) :: l1), l2, prev'. split; [done|].
      split.
      { simpl. rewrite Hu. by rewrite (proj2 (Z.ltb_lt _ _)) by done. }
      split; [by constructor|]. split; [done|].
      split; [by econstructor|]. split; [done|]. right.
      destruct Hprev as [[-> ->]|(l1' & p & sp & -> & ->)].
      * by exists [], u, slot.
      * by exists ((u, slot) :: l1'), p, sp.
    + exists [], ((u, slot) :: l), prev. split; [done|].
      split.
      { destruct fuel; simpl; rewrite Hu;
          by rewrite (proj2 (Z.ltb_ge _ _)) by lia. }
      split; [constructor|]. split; [intros x [= <-]; simpl; lia|].
      split; [constructor|]. split; [done|]. by left.
Qed.

Lemma descending_slots_NoDup (l : list (ObjRef * Z)) :
  descending l → NoDup l.*2.
Proof.
  induction l as [|x l IH]; intros Hdesc; [constructor|].
  apply StronglySorted_cons in Hdesc as [Hall Hdesc].
  simpl. constructor; [|by apply IH].
  intros (y & Heq & Hin)%list_elem_of_fmap.
  rewrite Forall_forall in Hall. specialize (Hall _ Hin). simpl in Hall. lia.
Qed.

(** Below the first upvalue that is not above [local], every upvalue of a
    sorted list is below [local], unless that first one is at [local]. *)
Lemma descending_below (l2 : list (ObjRef * Z)) (local : Z) :
  descending l2 →
  (∀ x, head l2 = Some x → (x.2 < local)%Z) →
  Forall (λ x, (x.2 < local)%Z) l2.
Proof.
  destruct l2 as [|x l2]; intros Hdesc Hhd; [constructor|].
  apply StronglySorted_cons in Hdesc as [Hall _].
  specialize (Hhd x eq_refl).
  constructor; [done|]. eapply Forall_impl; [done|]. simpl. lia.
Qed.

Lemma descending_insert (l1 l2 : list (ObjRef * Z)) (created : ObjRef)
    (local : Z) :
  descending (l1 ++ l2) →
  Forall (λ x, (local < x.2)%Z) l1 →
  Forall (λ x, (x.2 < local)%Z) l2 →
  descending (l1 ++ (created, local) :: l2).
Proof.
  intros Hdesc Habove Hbelow.
  apply StronglySorted_app in Hdesc as (Hcross & Hd1 & Hd2).
  rewrite Forall_forall in Habove, Hbelow.
  apply StronglySorted_app_2; [|done|].
  - intros x1 x2 Hx1 [->|Hx2]%elem_of_cons.
    + simpl. by apply Habove.
    + by apply Hcross.
  - apply StronglySorted_cons. split; [|done].
    apply Forall_forall. intros x Hx. simpl. by apply Hbelow.
Qed.

Lemma lookup_extended (heap : list Obj) (obj : Obj) (u : ObjRef) :
  u < length heap → (heap ++ [obj]) !! u = heap !! u.
Proof. intros Hu. by rewrite lookup_app_l. Qed.

Lemma set_next_defined (u : ObjRef) (location : Location) (closed : Value)
    (next next' : option ObjRef) (vm : VMState) :
  objects vm !! u = Some (ObjUpvalue location closed next) →
  set_next u next' vm
  = Ret ((), set_objects
               (<[u := ObjUpvalue location closed next']> (objects vm)) vm).
Proof.
  intros Hu. unfold set_next, deref, store.
  repeat (first [rewrite bind_assoc | rewrite bind_gets | rewrite Hu
                | rewrite bind_defined]; cbv beta iota).
  rewrite decide_True; [done|]. by apply lookup_lt_Some in Hu.
Qed.

Lemma newUpvalue_defined (slot : Z) (vm : VMState) :
  newUpvalue slot vm
  = Ret (length (objects vm),
         set_objects (objects vm ++ [ObjUpvalue (StackSlot slot) NIL_VAL None])
           vm).
Proof. done. Qed.

(** X3.  With the open upvalues in a list sorted by stack address,
    highest first: where the list holds an upvalue for the slot,
    [captureUpvalue] returns that upvalue and changes nothing; where it
    holds none, [captureUpvalue] creates an open upvalue for the slot and
    links it into the list at the place that keeps the list sorted, so
    that no slot has two open upvalues. *)
Theorem captureUpvalue_shares_or_splices (local : Z)
    (l : list (ObjRef * Z)) (vm : VMState) :
  open_list (objects vm) (openUpvalues vm) l →
  descending l →
  (∀ u, (u, local) ∈ l → captureUpvalue local vm = Ret (u, vm))
  ∧ ((∀ u, (u, local) ∉ l) →
     ∃ l1 l2 vm',
       let created := length (objects vm) in
       let l' := l1 ++ (created, local) :: l2 in
       l = l1 ++ l2
       ∧ captureUpvalue local vm = Ret (created, vm')
       ∧ open_list (objects vm') (openUpvalues vm') l'
       ∧ descending l'
       ∧ NoDup l'.*2
       ∧ vm' = set_objects (objects vm')
                 (set_openUpvalues (openUpvalues vm') vm)).
Proof.
  intros Hlist Hdesc.
  destruct (captureWalk_spec (objects vm) local l (length (objects vm)) None
              (openUpvalues vm) Hlist)
    as (l1 & l2 & prev' & -> & Hwalk & Habove & Hhd & Hseg1 & Hseg2 & Hprev).
  { by eapply descending_length. }
  assert (captureUpvalue local vm
    = ((found ← match head_ref l2 with
                | Some u =>
                    location ← location_of u;
                    mret (bool_decide (location = StackSlot local))
                | None => mret false
                end;
        match head_ref l2, found with
        | Some u, true => mret u
        | _, _ =>
            createdUpvalue ← newUpvalue local;
            set_next createdUpvalue (head_ref l2);;
            match prev' with
            | None => modify (set_openUpvalues (Some createdUpvalue))
            | Some prev => set_next prev (Some createdUpvalue)
            end;;
            mret createdUpvalue
        end) : M ObjRef) vm) as ->.
  { unfold captureUpvalue. rewrite !bind_gets.
    unfold mbind at 1, M_bind at 1. by rewrite Hwalk. }
  pose proof (proj2 (proj2 (proj1 (StronglySorted_app _ _ _) Hdesc))) as Hd2.
  split.
  - intros u Hin.
    apply elem_of_app in Hin as [Hin|Hin].
    { rewrite Forall_forall in Habove. specialize (Habove _ Hin).
      simpl in Habove. lia. }
    destruct l2 as [|[u2 s2] l2]; [by apply elem_of_nil in Hin|].
    specialize (Hhd _ eq_refl). simpl in Hhd.
    assert (u2 = u ∧ s2 = local) as [-> ->].
    { apply elem_of_cons in Hin as [[= -> ->]|Hin]; [done|].
      apply StronglySorted_cons in Hd2 as [Hall _].
      rewrite Forall_forall in Hall. specialize (Hall _ Hin).
      simpl in Hall. lia. }
    inversion Hseg2 as [|? ? closed next ? ? Hu _]; subst.
    simpl. unfold location_of, deref.
    repeat (first [rewrite bind_assoc | rewrite bind_gets | rewrite Hu
                  | rewrite bind_defined | rewrite bind_mret];
            cbv beta iota).
    by rewrite bool_decide_eq_true_2.
  - intros Hnone.
    assert (Forall (λ x, (x.2 < local)%Z) l2) as Hbelow.
    { apply descending_below; [done|]. intros [u2 s2] Hx.
      specialize (Hhd _ Hx). simpl in *.
      destruct (decide (s2 = local)) as [->|]; [|lia].
      destruct (Hnone u2). apply elem_of_app. right.
      destruct l2; [done|]. injection Hx as ->. by left. }
    assert ((match head_ref l2 with
             | Some u =>
                 location ← location_of u;
                 mret (bool_decide (location = StackSlot local))
             | None => mret false
             end : M bool) vm = Ret (false, vm)) as Hfound.
    { destruct l2 as [|[u2 s2] l2]; [done|].
      inversion Hseg2 as [|? ? closed next ? ? Hu _]; subst.
      simpl. unfold location_of, deref.
      repeat (first [rewrite bind_assoc | rewrite bind_gets | rewrite Hu
                    | rewrite bind_defined | rewrite bind_mret];
              cbv beta iota).
      rewrite bool_decide_eq_false_2; [done|].
      intros [= ->]. apply Forall_cons in Hbelow as [Hlt _].
      simpl in Hlt. lia. }
    rewrite (bind_Ret_intro _ _ _ _ _ Hfound).
    set (heap := objects vm) in *.
    set (created := length heap).
    set (fresh := ObjUpvalue (StackSlot local) NIL_VAL None).
    set (linked := ObjUpvalue (StackSlot local) NIL_VAL (head_ref l2)).
    set (heap2 := <[created := linked]> (heap ++ [fresh])).
    assert (heap2 !! created = Some linked) as Hcreated.
    { apply list_lookup_insert_eq. rewrite length_app. simpl. unfold created.
      lia. }
    assert (∀ u, u < length heap → heap2 !! u = heap !! u) as Hold2.
    { intros u Hu. unfold heap2.
      rewrite list_lookup_insert_ne by (unfold created; lia).
      by apply lookup_extended. }
    assert ((createdUpvalue ← newUpvalue local;
             set_next createdUpvalue (head_ref l2);;
             match prev' with
             | None => modify (set_openUpvalues (Some createdUpvalue))
             | Some prev => set_next prev (Some createdUpvalue)
             end;;
             mret createdUpvalue) vm
            = (match prev' with
               | None => modify (set_openUpvalues (Some created))
               | Some prev => set_next prev (Some created)
               end;;
               mret created) (set_objects heap2 vm)) as Hcreate.
    { erewrite bind_Ret_intro; [|apply newUpvalue_defined].
      erewrite bind_Ret_intro.
      2:{ eapply set_next_defined. simpl. fold heap.
          by rewrite lookup_app_r, Nat.sub_diag. }
      done. }
    assert (∀ k : M ObjRef,
              match head_ref l2, false with
              | Some u, true => mret u
              | _, _ => k
              end = k) as -> by (by destruct (head_ref l2)).
    rewrite Hcreate. clear Hcreate Hfound.
    pose proof (descending_NoDup _ _ _ _ Hlist Hdesc) as Hnodup.
    assert (∀ u, u ∈ (l1 ++ l2).*1 → u < length heap) as Hin_heap.
    { intros u Hu. eapply open_seg_in_heap; [exact Hlist|done]. }
    exists l1, l2.
    destruct Hprev as [[-> ->]|(l1' & p & sp & -> & ->)].
    + eexists. cbv zeta. split; [done|]. rewrite bind_modify.
      split; [reflexivity|].
      cbn [objects openUpvalues set_objects set_openUpvalues app].
      split.
      { econstructor; [exact Hcreated|].
        eapply open_seg_frame; [exact Hseg2|].
        intros u Hu. apply Hold2, Hin_heap. done. }
      split; [by apply (descending_insert [])|].
      split; [apply descending_slots_NoDup; by apply (descending_insert [])|].
      by destruct vm.
    + apply open_seg_snoc in Hseg1 as [Hseg1 [closed Hp]].
      assert (p < length heap) as Hp_heap by (by apply lookup_lt_Some in Hp).
      rewrite !fmap_app, <- app_assoc in Hnodup.
      apply NoDup_app in Hnodup as (_ & Hp1 & Hnodup).
      simpl in Hnodup. apply NoDup_cons in Hnodup as [Hp2 _].
      set (heap3 := <[p := ObjUpvalue (StackSlot sp) closed (Some created)]>
                      heap2).
      eexists. cbv zeta. split; [done|].
      erewrite bind_Ret_intro.
      2:{ eapply set_next_defined. simpl. rewrite Hold2 by done. exact Hp. }
      split; [reflexivity|].
      cbn [objects openUpvalues set_objects set_openUpvalues]. fold heap3.
      assert (∀ u, u < length heap → u ≠ p → heap3 !! u = heap !! u) as Hold3.
      { intros u Hu Hne. unfold heap3.
        rewrite list_lookup_insert_ne by done. by apply Hold2. }
      split.
      { rewrite <- app_assoc. eapply open_seg_app.
        - eapply open_seg_frame; [exact Hseg1|].
          intros u Hu. apply Hold3.
          + apply Hin_heap. rewrite !fmap_app. apply elem_of_app. left.
            apply elem_of_app. by left.
          + intros ->. by apply (Hp1 p); [|left].
        - simpl. econstructor.
          { unfold heap3. apply list_lookup_insert_eq. unfold heap2.
            rewrite length_insert, length_app. lia. }
          econstructor.
          { unfold heap3. rewrite list_lookup_insert_ne; [exact Hcreated|].
            unfold created. lia. }
          eapply open_seg_frame; [exact Hseg2|].
          intros u Hu. apply Hold3.
          + apply Hin_heap. rewrite fmap_app. apply elem_of_app. by right.
          + by intros ->. }
      split; [by apply descending_insert|].
      split; [apply descending_slots_NoDup; by apply descending_insert|].
      by destruct vm.
Qed.

(** *** Closing upvalues *)

(** The upvalue has been closed with the given value: it holds the value
    in [closed], and [location] points at [closed]. *)
Definition closed_with (heap : list Obj) (stack : list Value)
    (x : ObjRef * Z) : Prop :=
  ∃ value next,
    array_get stack x.2 = Some value
    ∧ heap !! x.1 = Some (ObjUpvalue ClosedField value next).

Lemma store_defined (o : ObjRef) (obj old : Obj) (vm : VMState) :
  objects vm !! o = Some old →
  store o obj vm = Ret ((), set_objects (<[o := obj]> (objects vm)) vm).
Proof.
  intros Ho. unfold store. rewrite bind_gets.
  rewrite decide_True; [done|]. by apply lookup_lt_Some in Ho.
Qed.

Lemma open_list_nil (heap : list Obj) (from : option ObjRef) :
  open_list heap from [] → from = None.
Proof. by inversion 1. Qed.

Lemma open_list_cons (heap : list Obj) (from : option ObjRef) (u : ObjRef)
    (slot : Z) (l : list (ObjRef * Z)) :
  open_list heap from ((u, slot) :: l) →
  from = Some u
  ∧ ∃ closed next,
      heap !! u = Some (ObjUpvalue (StackSlot slot) closed next)
      ∧ open_list heap next l.
Proof. inversion 1; subst. split; [done|]. by eexists _, _. Qed.

(** The loop of [closeUpvalues] closes the upvalues at the front of the
    list that point at [last] or above, and unlinks them. *)
Lemma closeLoop_spec (last : Z) (l : list (ObjRef * Z)) :
  ∀ (fuel : nat) (vm : VMState),
  open_list (objects vm) (openUpvalues vm) l →
  NoDup l.*1 →
  Forall (λ x, is_Some (array_get (stack vm) x.2)) l →
  length l ≤ fuel →
  ∃ l1 l2 vm',
    l = l1 ++ l2
    ∧ closeLoop fuel last vm = Ret ((), vm')
    ∧ Forall (λ x, (last ≤ x.2)%Z ∧ closed_with (objects vm') (stack vm) x) l1
    ∧ (∀ x, head l2 = Some x → (x.2 < last)%Z)
    ∧ open_list (objects vm') (openUpvalues vm') l2
    ∧ (∀ o, o ∉ l1.*1 → objects vm' !! o = objects vm !! o)
    ∧ vm' = set_objects (objects vm') (set_openUpvalues (openUpvalues vm') vm).
Proof.
  induction l as [|[u slot] l IH]; intros fuel vm Hlist Hnodup Hstack Hfuel.
  - apply open_list_nil in Hlist as Hhead. exists [], [], vm.
    split; [done|]. split.
    { destruct fuel; simpl; by rewrite bind_gets, Hhead. }
    split; [constructor|]. split; [done|].
    split; [by rewrite Hhead; constructor|]. split; [done|]. by destruct vm.
  - apply open_list_cons in Hlist as Hcons.
    destruct Hcons as (Hhead & closed & next & Hu & Hrest).
    apply Forall_cons in Hstack as [[value Hvalue] Hstack]. simpl in Hvalue.
    apply NoDup_cons in Hnodup as [Hfresh Hnodup].
    destruct (decide (last ≤ slot)%Z) as [Hle|Hgt].
    + destruct fuel as [|fuel]; [simpl in Hfuel; lia|].
      set (vm1 := set_openUpvalues next
                    (set_objects
                       (<[u := ObjUpvalue ClosedField value next]> (objects vm))
                       vm)).
      assert (closeLoop (S fuel) last vm = closeLoop fuel last vm1) as ->.
      { cbn [closeLoop]. rewrite bind_gets, Hhead. unfold deref.
        rewrite bind_assoc, bind_gets, Hu, bind_defined.
        rewrite (proj2 (Z.leb_le _ _)) by done.
        rewrite bind_gets, Hvalue, bind_defined.
        erewrite bind_Ret_intro; [|by eapply store_defined].
        by rewrite bind_modify. }
      destruct (IH fuel vm1)
        as (l1 & l2 & vm' & -> & Hrun & Hclosed & Hhd & Hopen & Hsame & Hvm').
      { simpl. eapply open_seg_frame; [exact Hrest|].
        intros o Ho. rewrite list_lookup_insert_ne; [done|]. by intros ->. }
      { done. }
      { done. }
      { simpl in Hfuel. lia. }
      exists ((u, slot) :: l1), l2, vm'. split; [done|]. split; [done|].
      split.
      { constructor; [|done]. split; [done|]. exists value, next.
        split; [done|]. simpl. rewrite Hsame.
        - simpl. apply list_lookup_insert_eq. by apply lookup_lt_Some in Hu.
        - intros (x & Hx & Hin)%list_elem_of_fmap. apply Hfresh.
          apply list_elem_of_fmap. exists x. split; [done|].
          apply elem_of_app. by left. }
      split; [done|]. split; [done|]. split.
      { intros o Ho. rewrite Hsame.
        - simpl. rewrite list_lookup_insert_ne; [done|].
          intros <-. apply Ho. simpl. by left.
        - intros Hin. apply Ho. simpl. by right. }
      rewrite Hvm' at 1. by destruct vm.
    + exists [], ((u, slot) :: l), vm. split; [done|]. split.
      { destruct fuel; cbn [closeLoop]; rewrite bind_gets, Hhead;
          unfold deref; rewrite bind_assoc, bind_gets, Hu, bind_defined;
          by rewrite (proj2 (Z.leb_gt _ _)) by lia. }
      split; [constructor|]. split; [intros x [= <-]; simpl; lia|].
      split; [done|]. split; [done|].
      by destruct vm.
Qed.

(** X4.  With the open upvalues in a list sorted by stack address,
    highest first, each pointing into the stack: [closeUpvalues(last)]
    unlinks the upvalues that point at [last] or above, each holding the
    value of its slot in [closed] and pointing at [closed]; the upvalues
    that stay on the list all point below [last]. *)
Theorem closeUpvalues_closes_above (last : Z) (l : list (ObjRef * Z))
    (vm : VMState) :
  open_list (objects vm) (openUpvalues vm) l →
  descending l →
  Forall (λ x, is_Some (array_get (stack vm) x.2)) l →
  ∃ l1 l2 vm',
    l = l1 ++ l2
    ∧ closeUpvalues last vm = Ret ((), vm')
    ∧ open_list (objects vm') (openUpvalues vm') l2
    ∧ Forall (λ x, (x.2 < last)%Z) l2
    ∧ Forall (λ x, (last ≤ x.2)%Z ∧ closed_with (objects vm') (stack vm) x) l1
    ∧ vm' = set_objects (objects vm') (set_openUpvalues (openUpvalues vm') vm).
Proof.
  intros Hlist Hdesc Hstack.
  destruct (closeLoop_spec last l (length (objects vm)) vm Hlist)
    as (l1 & l2 & vm' & -> & Hrun & Hclosed & Hhd & Hopen & _ & Hvm').
  { by eapply descending_NoDup. }
  { done. }
  { by eapply descending_length. }
  exists l1, l2, vm'. split; [done|].
  split; [by unfold closeUpvalues; rewrite bind_gets|].
  split; [done|]. split; [|done].
  apply descending_below; [|done].
  by apply StronglySorted_app in Hdesc as (_ & _ & ?).
Qed.

(** *** Calls *)

(** Running the reads and writes at the head of a computation. *)
Ltac mrun :=
  repeat (first [ rewrite bind_assoc | rewrite bind_gets | rewrite bind_modify
                | rewrite bind_mret | rewrite bind_defined ];
          cbv beta iota).

(** The state that [resetStack] leaves. *)
Definition reset_of (vm : VMState) : VMState :=
  set_openUpvalues None (set_frameCount 0 (set_stackTop 0 vm)).

(** Every active frame can be reported in a trace, with the instruction
    pointer that the frame holds. *)
Definition reportable (vm : VMState) : bool :=
  bool_decide (Z.to_nat (frameCount vm) ≤ length (frames vm))
  && forallb (traceable_frame (objects vm))
       (take (Z.to_nat (frameCount vm)) (frames vm)).

Lemma reportable_true (vm : VMState) :
  reportable vm = true →
  ∀ i, i < Z.to_nat (frameCount vm) →
    ∃ f, frames vm !! i = Some f ∧ frame_traceable (objects vm) f.
Proof.
  unfold reportable. intros [Hlen%bool_decide_eq_true Hall]%andb_true_iff i Hi.
  destruct (lookup_lt_is_Some_2 (frames vm) i) as [f Hf]; [lia|].
  exists f. split; [done|]. apply traceable_frame_true.
  rewrite forallb_forall in Hall. apply Hall.
  apply list_elem_of_In, list_elem_of_lookup. exists i.
  by rewrite lookup_take_lt.
Qed.

(** Where every active frame can be reported, [runtimeError] writes the
    message and a trace, and resets the stacks. *)
Lemma runtimeError_defined (format : string) (args : list FormatArg)
    (vm : VMState) :
  reportable vm = true →
  ∃ trace,
    runtimeError format args vm
    = Ret ((), reset_of
                 (set_stderr (stderr vm ++ Message format args :: trace) vm)).
Proof.
  intros Hall. pose proof (reportable_true vm Hall) as Hframes.
  destruct (stackTrace_defined (Z.to_nat (frameCount vm))
              (set_stderr (stderr vm ++ [Message format args]) vm))
    as [trace Htrace]; [done|].
  exists trace. unfold runtimeError, resetStack.
  rewrite bind_modify, bind_gets. cbn [frameCount set_stderr].
  rewrite (bind_Ret_intro _ _ _ _ _ Htrace).
  rewrite !bind_modify. unfold modify, reset_of. simpl.
  by rewrite <- app_assoc.
Qed.

(** X16.  [call] refuses a call with the wrong number of arguments
    ("Expected n arguments but got m.") and a call at the maximal depth
    ("Stack overflow."), each with the stacks reset.  Otherwise it adds
    one frame for the closure, which starts at the first instruction of
    the function and whose slots begin at the callee, below the
    arguments; the value stack is not touched. *)
Theorem call_checks_arity_and_depth (closure function : ObjRef)
    (upvalues : list (option ObjRef)) (arity count argCount : Z)
    (chunk : Chunk) (name : option ObjRef) (vm : VMState) :
  objects vm !! closure = Some (ObjClosure function upvalues) →
  objects vm !! function = Some (ObjFunction arity count chunk name) →
  (argCount ≠ arity → reportable vm = true →
   ∃ trace,
     call closure argCount vm
     = Ret (false,
            reset_of
              (set_stderr
                 (stderr vm
                  ++ Message "Expected %d arguments but got %d."
                       [ArgInt arity; ArgInt argCount] :: trace) vm)))
  ∧ (argCount = arity → frameCount vm = FRAMES_MAX → reportable vm = true →
     ∃ trace,
       call closure argCount vm
       = Ret (false,
              reset_of
                (set_stderr (stderr vm ++ Message "Stack overflow." [] :: trace)
                   vm)))
  ∧ (argCount = arity → frameCount vm ≠ FRAMES_MAX →
     (0 ≤ frameCount vm < Z.of_nat (length (frames vm)))%Z →
     (0 ≤ stackTop vm - argCount - 1)%Z →
     call closure argCount vm
     = Ret (true,
            set_frameCount (frameCount vm + 1)
              (set_frames
                 (<[Z.to_nat (frameCount vm) :=
                      {| closure := closure; ip := 0;
                         slots := stackTop vm - argCount - 1 |}]> (frames vm))
                 vm))).
Proof.
  intros Hclosure Hfunction.
  assert (∀ k : Z → M bool,
            (function ← function_of closure; arity ← arity_of function;
             k arity) vm = k arity vm) as Hhead.
  { intros k. unfold function_of, arity_of, deref.
    by rewrite !bind_assoc, bind_gets, Hclosure, bind_defined, bind_mret,
      !bind_assoc, bind_gets, Hfunction, bind_defined, bind_mret. }
  unfold call. rewrite Hhead. split; [|split].
  - intros Hne Hall. rewrite (proj2 (Z.eqb_neq _ _) Hne). cbn [negb].
    destruct (runtimeError_defined "Expected %d arguments but got %d."
                [ArgInt arity; ArgInt argCount] vm Hall) as [trace Herror].
    exists trace. by rewrite (bind_Ret_intro _ _ _ _ _ Herror).
  - intros -> Hmax Hall. rewrite Z.eqb_refl. cbn [negb].
    rewrite bind_gets, Hmax, Z.eqb_refl.
    destruct (runtimeError_defined "Stack overflow." [] vm Hall)
      as [trace Herror].
    exists trace. by rewrite (bind_Ret_intro _ _ _ _ _ Herror).
  - intros -> Hmax Hframes Htop. rewrite Z.eqb_refl. cbn [negb].
    rewrite bind_gets, (proj2 (Z.eqb_neq _ _) Hmax), !bind_gets.
    rewrite (proj2 (Z.ltb_ge _ _)) by lia. rewrite bind_mret.
    unfold array_set.
    rewrite (proj2 (Z.leb_le _ _)) by lia.
    rewrite (proj2 (Z.ltb_lt _ _)) by lia. cbn [andb].
    by rewrite bind_defined, !bind_modify.
Qed.

Lemma traceable_frame_alloc (heap more : list Obj) (frame : CallFrame) :
  traceable_frame heap frame = true →
  traceable_frame (heap ++ more) frame = true.
Proof.
  unfold traceable_frame. intros H.
  destruct (heap !! closure frame) as [[| | |function upvalues| | | |]|]
    eqn:Hclosure; try done.
  rewrite (lookup_app_l_Some _ _ _ _ Hclosure).
  destruct (heap !! function) as [[|arity count chunk name| | | | | |]|]
    eqn:Hfunction; try done.
  rewrite (lookup_app_l_Some _ _ _ _ Hfunction).
  destruct (array_get _ _); [|done].
  destruct name as [n|]; [|done].
  destruct (heap !! n) as [[chars| | | | | | |]|] eqn:Hn; try done.
  by rewrite (lookup_app_l_Some _ _ _ _ Hn).
Qed.

Lemma reportable_alloc (more : list Obj) (st : list Value) (vm : VMState) :
  reportable vm = true →
  reportable (set_stack st (set_objects (objects vm ++ more) vm)) = true.
Proof.
  unfold reportable. cbn [frameCount frames objects set_stack set_objects].
  intros [Hlen Hall]%andb_true_iff. apply andb_true_iff. split; [done|].
  rewrite forallb_forall in Hall |- *. intros f Hf.
  by apply traceable_frame_alloc, Hall.
Qed.

(** X17.  [callValue] refuses every value that is not a closure, a
    class, a bound method or a native function: numbers, booleans, nil,
    strings, instances.  It reports "Can only call functions and
    classes." and resets the stacks. *)
Theorem callValue_rejects_non_callable (callee : Value) (argCount : Z)
    (vm : VMState) :
  match callee with
  | OBJ_VAL o =>
      ∃ obj, objects vm !! o = Some obj
             ∧ type_of obj ∈ [OBJ_STRING; OBJ_FUNCTION; OBJ_INSTANCE;
                              OBJ_UPVALUE]
  | _ => True
  end →
  reportable vm = true →
  ∃ trace,
    callValue callee argCount vm
    = Ret (false,
           reset_of
             (set_stderr
                (stderr vm
                 ++ Message "Can only call functions and classes." [] :: trace)
                vm)).
Proof.
  intros Hcallee Hall.
  destruct (runtimeError_defined "Can only call functions and classes." []
              vm Hall) as [trace Herror].
  exists trace. unfold callValue.
  destruct callee as [| | |o];
    try (by rewrite (bind_Ret_intro _ _ _ _ _ Herror)).
  destruct Hcallee as (obj & Hobj & Htype).
  unfold deref. rewrite bind_assoc, bind_gets, Hobj, bind_defined.
  destruct obj; try (by rewrite (bind_Ret_intro _ _ _ _ _ Herror));
    exfalso; simpl in Htype;
    repeat (apply elem_of_cons in Htype as [Htype|Htype]; [done|]);
    by apply elem_of_nil in Htype.
Qed.

(** X18.  Calling a class puts a new instance of the class, without
    fields, in the place of the callee.  Where the class has an [init]
    method, the call goes on as a call of that method with the same
    arguments; where it has none, the call is complete if there are no
    arguments, and otherwise fails with "Expected 0 arguments but got
    n.". *)
Theorem callValue_class (klass name init : ObjRef)
    (methods : gmap ObjRef Value) (argCount : Z) (vm : VMState) :
  objects vm !! klass = Some (ObjClass name methods) →
  initString vm = Some init →
  (0 ≤ stackTop vm - argCount - 1 < Z.of_nat (length (stack vm)))%Z →
  let instance := length (objects vm) in
  let vm1 :=
    set_stack
      (<[Z.to_nat (stackTop vm - argCount - 1) := OBJ_VAL instance]> (stack vm))
      (set_objects (objects vm ++ [ObjInstance klass ∅]) vm) in
  (∀ initializer function upvalues,
     methods !! init = Some (OBJ_VAL initializer) →
     objects vm !! initializer = Some (ObjClosure function upvalues) →
     callValue (OBJ_VAL klass) argCount vm = call initializer argCount vm1)
  ∧ (methods !! init = None → argCount = 0%Z →
     callValue (OBJ_VAL klass) argCount vm = Ret (true, vm1))
  ∧ (methods !! init = None → argCount ≠ 0%Z → reportable vm = true →
     ∃ trace,
       callValue (OBJ_VAL klass) argCount vm
       = Ret (false,
              reset_of
                (set_stderr
                   (stderr vm
                    ++ Message "Expected 0 arguments but got %d."
                         [ArgInt argCount] :: trace) vm1))).
Proof.
  intros Hklass Hinit Hslot instance vm1.
  assert (∀ k : option Value → M bool,
            callValue (OBJ_VAL klass) argCount vm
            = match methods !! init with
              | Some initializer =>
                  (initializer ← AS_CLOSURE initializer;
                   call initializer argCount) vm1
              | None =>
                  (if negb (argCount =? 0)%Z then
                     runtimeError "Expected 0 arguments but got %d."
                       [ArgInt argCount];;
                     mret false
                   else mret true) vm1
              end) as Hhead.
  { intros _. unfold callValue, deref.
    rewrite bind_assoc, bind_gets, Hklass, bind_defined.
    unfold newInstance, allocateObject, set_callee_slot.
    rewrite !bind_assoc, bind_gets, bind_assoc, bind_modify, bind_mret.
    rewrite !bind_assoc, bind_gets, !bind_assoc, bind_gets.
    cbn [stack stackTop set_objects]. unfold array_set.
    rewrite (proj2 (Z.leb_le _ _)) by lia.
    rewrite (proj2 (Z.ltb_lt _ _)) by lia. cbn [andb].
    rewrite bind_assoc, bind_defined, bind_modify.
    unfold methods_of, deref.
    rewrite !bind_assoc, bind_gets. cbn [objects set_stack set_objects].
    rewrite (lookup_app_l_Some _ _ _ _ Hklass), bind_defined, bind_mret.
    rewrite bind_gets. cbn [initString set_stack set_objects].
    rewrite Hinit, bind_defined. unfold tableGet. fold instance. fold vm1.
    by destruct (methods !! init). }
  specialize (Hhead (λ _, mret true)). rewrite Hhead. clear Hhead.
  split; [|split].
  - intros initializer function upvalues -> Hclosure.
    unfold AS_CLOSURE, AS_OBJ_OF, deref.
    rewrite !bind_assoc, bind_gets. unfold vm1 at 1.
    cbn [objects set_stack set_objects].
    rewrite (lookup_app_l_Some _ _ _ _ Hclosure), bind_defined.
    by rewrite decide_True.
  - by intros -> ->.
  - intros -> Hne Hall. rewrite (proj2 (Z.eqb_neq _ _) Hne). cbn [negb].
    destruct (runtimeError_defined "Expected 0 arguments but got %d."
                [ArgInt argCount] vm1) as [trace Herror].
    { by apply reportable_alloc. }
    exists trace. by rewrite (bind_Ret_intro _ _ _ _ _ Herror).
Qed.

(** X19.  Calling a native function runs it at once, with no new frame:
    its result takes the place of the callee and the arguments.  The
    number of arguments is not checked.  The native [exit] ends the
    process. *)
Theorem callValue_native (o : ObjRef) (native : NativeFn) (argCount : Z)
    (vm : VMState) :
  objects vm !! o = Some (ObjNative native) →
  (native = exitNative →
   callValue (OBJ_VAL o) argCount vm = Halt ProcessExit)
  ∧ (native ≠ exitNative →
     (0 ≤ stackTop vm - argCount - 1 < Z.of_nat (length (stack vm)))%Z →
     callValue (OBJ_VAL o) argCount vm
     = Ret (true,
            set_stackTop (stackTop vm - argCount)
              (set_stack
                 (<[Z.to_nat (stackTop vm - argCount - 1) :=
                      NUMBER_VAL (hostNumber native (nativeCalls vm))]>
                    (stack vm))
                 (set_nativeCalls (S (nativeCalls vm)) vm)))).
Proof.
  intros Hnative. unfold callValue, deref.
  rewrite bind_assoc, bind_gets, Hnative, bind_defined.
  split; [by intros ->|]. intros Hne Hslot.
  assert (callNative native
          = (n ← gets nativeCalls;
             modify (set_nativeCalls (S n));;
             mret (NUMBER_VAL (hostNumber native n)))) as ->
    by (by destruct native).
  mrun. cbn [stackTop set_nativeCalls].
  rewrite (proj2 (Z.ltb_ge _ _)) by lia.
  mrun. unfold push. mrun.
  cbn [stack stackTop set_stackTop set_nativeCalls]. unfold array_set.
  rewrite (proj2 (Z.leb_le _ _)) by lia.
  rewrite (proj2 (Z.ltb_lt _ _)) by lia. cbn [andb].
  mrun. unfold mret, M_ret. do 2 f_equal.
  replace (stackTop vm - (argCount + 1))%Z with (stackTop vm - argCount - 1)%Z
    by lia.
  unfold set_stackTop, set_stack. cbn. f_equal. lia.
Qed.

(** *** Global variables *)

Lemma peek_top (value : Value) (vm : VMState) :
  PEEK vm = Ret (value, vm) →
  array_get (stack vm) (stackTop vm - 1) = Some value ∧ (0 < stackTop vm)%Z.
Proof.
  intros [Hget _]%peek_Ret. rewrite Z.sub_0_r in Hget. split; [done|].
  unfold array_get in Hget. destruct (_ <? 0)%Z eqn:Hlt; [done|].
  apply Z.ltb_ge in Hlt. lia.
Qed.

Lemma DROP_defined (vm : VMState) :
  (0 < stackTop vm)%Z → DROP vm = Ret ((), set_stackTop (stackTop vm - 1) vm).
Proof.
  intros Htop. unfold DROP. rewrite bind_gets.
  rewrite (proj2 (Z.ltb_ge _ _)) by lia. by rewrite bind_mret.
Qed.

(** X20.  [OP_DEFINE_GLOBAL] binds the name to the value on top of the
    stack and pops the value.  It does not look at an earlier binding of
    the name: defining a global again replaces its value, and is no
    error. *)
Theorem define_global_binds (r r1 r2 : Registers) (b : Z) (name : ObjRef)
    (value : Value) (vm : VMState) :
  READ_BYTE r vm = Ret ((b, r1), vm) →
  opcode_of_byte b = Some OP_DEFINE_GLOBAL →
  READ_STRING r1 vm = Ret ((name, r2), vm) →
  PEEK vm = Ret (value, vm) →
  instruction r vm
  = Ret (Dispatch r2,
         set_stackTop (stackTop vm - 1)
           (set_globals (<[name := value]> (globals vm)) vm)).
Proof.
  intros Hread Hop Hname Hpeek.
  destruct (peek_top _ _ Hpeek) as [_ Htop].
  unfold instruction. mstep. rewrite Hop. mstep. do 3 mstep. mrun.
  unfold tableSet. cbn [fst].
  erewrite bind_Ret_intro; [|by apply DROP_defined].
  done.
Qed.

(** X21.  [OP_GET_GLOBAL] pushes the value that the globals table holds
    for the name.  For a name that the table does not hold it reports
    "Undefined variable" with the name, resets the stacks, and [run]
    returns [INTERPRET_RUNTIME_ERROR]. *)
Theorem get_global_defined_or_error (r r1 r2 : Registers) (b : Z)
    (name : ObjRef) (vm : VMState) :
  READ_BYTE r vm = Ret ((b, r1), vm) →
  opcode_of_byte b = Some OP_GET_GLOBAL →
  READ_STRING r1 vm = Ret ((name, r2), vm) →
  (∀ value old,
     globals vm !! name = Some value →
     array_get (stack vm) (stackTop vm) = Some old →
     instruction r vm
     = Ret (Dispatch r2,
            set_stackTop (stackTop vm + 1)
              (set_stack (<[Z.to_nat (stackTop vm) := value]> (stack vm)) vm)))
  ∧ (globals vm !! name = None → traceable r2 vm = true →
     ∃ chars trace vm',
       chars_of name vm = Ret (chars, vm)
       ∧ instruction r vm = Ret (Return INTERPRET_RUNTIME_ERROR, vm')
       ∧ stderr vm' = stderr vm
           ++ Message "Undefined variable '%s'." [ArgString chars] :: trace
       ∧ is_reset vm' ∧ globals vm' = globals vm).
Proof.
  intros Hread Hop Hname.
  assert (instruction r vm
          = match globals vm !! name with
            | None =>
                (chars ← chars_of name;
                 fail r2 "Undefined variable '%s'." [ArgString chars]) vm
            | Some value => (PUSH value;; mret (Dispatch r2)) vm
            end) as ->.
  { unfold instruction. mstep. rewrite Hop. mstep. do 2 mstep.
    unfold tableGet. by destruct (globals vm !! name). }
  split.
  - intros value old -> Hslot. unfold PUSH.
    by rewrite (bind_Ret_intro _ _ _ _ _ (push_defined value old vm Hslot)).
  - intros -> Htrace.
    destruct (READ_STRING_Ret _ _ _ _ _ Hname) as [_ [chars Hchars]].
    destruct (fail_defined r2 "Undefined variable '%s'." [ArgString chars]
                vm Htrace) as [vm' Hfail].
    rewrite (bind_Ret_intro _ _ _ _ _ Hchars).
    pose proof (fail_spec _ _ _ _ _ _ Hfail)
      as (_ & Hreset & [trace Hstderr] & Hglobals & _).
    by exists chars, trace, vm'.
Qed.

(** *** Arithmetic and comparison *)

(** X22.  [OP_SUBTRACT], [OP_MULTIPLY], [OP_DIVIDE], [OP_GREATER] and
    [OP_LESS] replace two numbers by the result on them as doubles, the
    left operand being the lower one on the stack.  If either operand is
    not a number they report "Operands must be numbers.", and [run]
    returns [INTERPRET_RUNTIME_ERROR]; strings are not compared. *)
Theorem binary_op_numbers_or_error (r r1 : Registers) (byte : Z)
    (op : OpCode) (f : float → float → Value) (a b : Value) (vm : VMState) :
  READ_BYTE r vm = Ret ((byte, r1), vm) →
  opcode_of_byte byte = Some op →
  (op, f) ∈ [(OP_SUBTRACT, λ x y, NUMBER_VAL (x - y)%float);
             (OP_MULTIPLY, λ x y, NUMBER_VAL (x * y)%float);
             (OP_DIVIDE, λ x y, NUMBER_VAL (x / y)%float);
             (OP_GREATER, λ x y, BOOL_VAL (PrimFloat.ltb y x));
             (OP_LESS, λ x y, BOOL_VAL (PrimFloat.ltb x y))] →
  PEEK vm = Ret (b, vm) →
  PEEK2 vm = Ret (a, vm) →
  (∀ x y, a = NUMBER_VAL x → b = NUMBER_VAL y →
     instruction r vm
     = Ret (Dispatch r1,
            set_stackTop (stackTop vm - 1)
              (set_stack (<[Z.to_nat (stackTop vm - 2) := f x y]> (stack vm))
                 vm)))
  ∧ (IS_NUMBER a && IS_NUMBER b = false → traceable r1 vm = true →
     ∃ trace vm',
       instruction r vm = Ret (Return INTERPRET_RUNTIME_ERROR, vm')
       ∧ stderr vm' = stderr vm
           ++ Message "Operands must be numbers." [] :: trace
       ∧ is_reset vm').
Proof.
  intros Hread Hop Hin Hb Ha.
  assert (instruction r vm = BINARY_OP r1 f vm) as ->.
  { unfold instruction. mstep. rewrite Hop. mstep.
    repeat (apply elem_of_cons in Hin as [Hin|Hin];
            [by injection Hin as -> ->|]).
    by apply elem_of_nil in Hin. }
  clear Hin. unfold BINARY_OP. mstep.
  pose proof (peek_Ret _ _ _ _ Hb) as [Hgetb _].
  pose proof (peek_Ret _ _ _ _ Ha) as [Hgeta _].
  rewrite Z.sub_0_r in Hgetb.
  split.
  - intros x y -> ->. cbn [IS_NUMBER]. repeat mstep. cbn [IS_NUMBER negb].
    unfold POP, PUSH.
    rewrite (bind_Ret_intro _ _ _ _ _ (pop_defined _ _ Hgetb)).
    cbn [AS_NUMBER]. mstep.
    erewrite bind_Ret_intro; [|by apply (pop_defined (NUMBER_VAL x))].
    cbn [AS_NUMBER]. mstep.
    erewrite bind_Ret_intro.
    2:{ apply (push_defined _ (NUMBER_VAL x)). cbn [stack stackTop set_stackTop].
        exact Hgeta. }
    unfold mret, M_ret. do 2 f_equal.
    unfold set_stackTop, set_stack. cbn.
    f_equal; [|lia]. do 2 f_equal. lia.
  - intros Hnot Htrace.
    assert ((if IS_NUMBER b then a0 ← PEEK2; mret (IS_NUMBER a0)
             else mret false) vm
            = Ret (false, vm)) as Hcheck.
    { destruct (IS_NUMBER b) eqn:Hnb; [|done]. mstep.
      rewrite andb_true_r in Hnot. by rewrite Hnot. }
    rewrite (bind_Ret_intro _ _ _ _ _ Hcheck). cbn [negb].
    destruct (fail_defined r1 "Operands must be numbers." [] vm Htrace)
      as [vm' Hfail].
    pose proof (fail_spec _ _ _ _ _ _ Hfail)
      as (_ & Hreset & [trace Hstderr] & _).
    by exists trace, vm'.
Qed.

(** *** Jumps *)

Lemma byte_value_range (b : Byte.byte) : (0 ≤ byte_value b < 256)%Z.
Proof.
  unfold byte_value. pose proof (Byte.to_N_bounded b) as H.
  split; [lia|]. apply N2Z.inj_le in H. simpl in H. lia.
Qed.

(** [READ_SHORT] reads a 16-bit offset, most significant byte first. *)
Lemma short_value (hi lo : Byte.byte) :
  Z.land (Z.lor (Z.shiftl (byte_value hi) 8) (byte_value lo)) 65535
  = (256 * byte_value hi + byte_value lo)%Z.
Proof.
  pose proof (byte_value_range hi) as Hhi.
  pose proof (byte_value_range lo) as Hlo.
  assert (Z.land (Z.shiftl (byte_value hi) 8) (byte_value lo) = 0%Z) as Hdisjoint.
  { apply Z.bits_inj'. intros n Hn. rewrite Z.land_spec, Z.bits_0.
    destruct (Z.lt_ge_cases n 8) as [Hlt|Hge].
    - by rewrite Z.shiftl_spec_low.
    - rewrite andb_comm.
      replace (Z.testbit (byte_value lo) n) with false; [done|].
      symmetry. destruct (Z.eq_dec (byte_value lo) 0%Z) as [->|Hne];
        [apply Z.bits_0|].
      apply Z.bits_above_log2; [lia|].
      apply Z.log2_lt_pow2; [lia|].
      apply Z.lt_le_trans with (2 ^ 8)%Z; [simpl; lia|].
      apply Z.pow_le_mono_r; lia. }
  rewrite <- Z.add_nocarry_lor by done.
  rewrite Z.shiftl_mul_pow2 by lia.
  change 65535%Z with (Z.ones 16). rewrite Z.land_ones by lia.
  change (2 ^ 8)%Z with 256%Z. change (2 ^ 16)%Z with 65536%Z.
  rewrite Z.mod_small; lia.
Qed.

(** X23.  The jump instructions take a 16-bit operand, most significant
    byte first, relative to the instruction that follows them.
    [OP_JUMP] goes forward by it and [OP_LOOP] backward;
    [OP_JUMP_IF_FALSE] goes forward if the value on top of the stack is
    [nil] or [false] and falls through for all other values, and leaves
    the value on the stack in both cases. *)
Theorem jump_instructions (r : Registers) (op : OpCode)
    (arity count : Z) (chunk : Chunk) (name : option ObjRef)
    (b hi lo : Byte.byte) (vm : VMState) :
  objects vm !! r_fn r = Some (ObjFunction arity count chunk name) →
  array_get (code chunk) (r_ip r) = Some b →
  opcode_of_byte (byte_value b) = Some op →
  array_get (code chunk) (r_ip r + 1) = Some hi →
  array_get (code chunk) (r_ip r + 2) = Some lo →
  let offset := (256 * byte_value hi + byte_value lo)%Z in
  let next := (r_ip r + 3)%Z in
  (op = OP_JUMP →
   instruction r vm = Ret (Dispatch (set_r_ip (next + offset) r), vm))
  ∧ (op = OP_LOOP →
     instruction r vm = Ret (Dispatch (set_r_ip (next - offset) r), vm))
  ∧ (op = OP_JUMP_IF_FALSE →
     ∀ value, PEEK vm = Ret (value, vm) →
       instruction r vm
       = Ret (Dispatch
                (set_r_ip (if isFalsey value then next + offset else next) r),
              vm)).
Proof.
  intros Hfn Hb Hop Hhi Hlo offset next.
  assert (READ_BYTE r vm = Ret ((byte_value b, set_r_ip (r_ip r + 1) r), vm))
    as Hread.
  { unfold READ_BYTE, chunk_of, deref. mrun. rewrite Hfn. mrun.
    rewrite Hb. by mrun. }
  assert (READ_SHORT (set_r_ip (r_ip r + 1) r) vm
          = Ret ((offset, set_r_ip next r), vm)) as Hshort.
  { unfold READ_SHORT, chunk_of, deref. mrun. cbn [r_fn r_ip set_r_ip].
    rewrite Hfn. mrun. rewrite Hhi. mrun.
    replace (r_ip r + 1 + 1)%Z with (r_ip r + 2)%Z by lia.
    rewrite Hlo. mrun. rewrite short_value. unfold mret, M_ret.
    do 3 f_equal. unfold set_r_ip, next. cbn. f_equal. lia. }
  split; [|split].
  - intros ->. unfold instruction. mstep. rewrite Hop. mstep. by mstep.
  - intros ->. unfold instruction. mstep. rewrite Hop. mstep. by mstep.
  - intros -> value Hpeek. unfold instruction. mstep. rewrite Hop. mstep.
    do 2 mstep. by destruct (isFalsey value).
Qed.

(** *** Returning from a call *)

Lemma closeUpvalues_run (last : Z) (l : list (ObjRef * Z)) (vm : VMState) :
  open_list (objects vm) (openUpvalues vm) l →
  descending l →
  Forall (λ x, is_Some (array_get (stack vm) x.2)) l →
  ∃ l1 l2 vm',
    l = l1 ++ l2
    ∧ closeUpvalues last vm = Ret ((), vm')
    ∧ Forall (λ x, (last ≤ x.2)%Z ∧ closed_with (objects vm') (stack vm) x) l1
    ∧ Forall (λ x, (x.2 < last)%Z) l2
    ∧ open_list (objects vm') (openUpvalues vm') l2
    ∧ (∀ o, o ∉ l1.*1 → objects vm' !! o = objects vm !! o)
    ∧ vm' = set_objects (objects vm') (set_openUpvalues (openUpvalues vm') vm).
Proof.
  intros Hlist Hdesc Hstack.
  destruct (closeLoop_spec last l (length (objects vm)) vm Hlist)
    as (l1 & l2 & vm' & -> & Hrun & Hclosed & Hhd & Hopen & Hrest & Hvm').
  { by eapply descending_NoDup. }
  { done. }
  { by eapply descending_length. }
  exists l1, l2, vm'. split; [done|].
  split; [by unfold closeUpvalues; rewrite bind_gets|].
  split; [done|]. split; [|done].
  apply descending_below; [|done].
  by apply StronglySorted_app in Hdesc as (_ & _ & ?).
Qed.

Lemma READ_BYTE_Ret (r r1 : Registers) (b : Z) (vm vm' : VMState) :
  READ_BYTE r vm = Ret ((b, r1), vm') →
  r1 = set_r_ip (r_ip r + 1) r ∧ vm' = vm.
Proof.
  intros H. unfold READ_BYTE, chunk_of, deref in H. by minv H.
Qed.

(** X24.  [OP_RETURN] in a called function pops the result, closes the
    upvalues that point into the frame of the function, drops the frame,
    and leaves the result where the callee was, as the top of the stack;
    execution goes on in the caller, at the instruction pointer that its
    frame holds.  The open upvalues that remain point below the frame. *)
Theorem return_pops_frame (r r1 : Registers) (b : Z) (result : Value)
    (l : list (ObjRef * Z)) (caller : CallFrame) (function : ObjRef)
    (upvalues : list (option ObjRef)) (vm : VMState) :
  READ_BYTE r vm = Ret ((b, r1), vm) →
  opcode_of_byte b = Some OP_RETURN →
  PEEK vm = Ret (result, vm) →
  open_list (objects vm) (openUpvalues vm) l →
  descending l →
  Forall (λ x, is_Some (array_get (stack vm) x.2)) l →
  frameCount vm ≠ 1%Z →
  array_get (frames vm) (frameCount vm - 2) = Some caller →
  objects vm !! closure caller = Some (ObjClosure function upvalues) →
  (0 ≤ r_stackStart r < Z.of_nat (length (stack vm)))%Z →
  ∃ l1 l2 vm',
    l = l1 ++ l2
    ∧ instruction r vm
      = Ret (Dispatch {| r_frame := frameCount vm - 2;
                         r_stackStart := slots caller;
                         r_ip := ip caller; r_fn := function |}, vm')
    ∧ frameCount vm' = (frameCount vm - 1)%Z
    ∧ stackTop vm' = (r_stackStart r + 1)%Z
    ∧ stack vm' = <[Z.to_nat (r_stackStart r) := result]> (stack vm)
    ∧ open_list (objects vm') (openUpvalues vm') l2
    ∧ Forall (λ x, (x.2 < r_stackStart r)%Z) l2
    ∧ Forall (λ x, (r_stackStart r ≤ x.2)%Z
                   ∧ closed_with (objects vm') (stack vm) x) l1.
Proof.
  intros Hread Hop Hpeek Hlist Hdesc Hstack Hcount Hcaller Hclosure Hslot.
  destruct (READ_BYTE_Ret _ _ _ _ _ Hread) as [-> _].
  destruct (peek_top _ _ Hpeek) as [Hget Htop].
  destruct (closeUpvalues_run (r_stackStart r) l
              (set_stackTop (stackTop vm - 1) vm))
    as (l1 & l2 & vm1 & -> & Hclose & Hclosed & Hbelow & Hopen & Hrest & Hvm1);
    [done..|].
  cbn [stack objects openUpvalues set_stackTop] in *.
  assert (objects vm1 !! closure caller = Some (ObjClosure function upvalues))
    as Hclosure1.
  { rewrite Hrest; [done|].
    intros ([u slot] & Heq & Hin)%list_elem_of_fmap.
    destruct (open_seg_lookup _ _ _ _ _ _ Hlist
                ltac:(apply elem_of_app; left; exact Hin))
      as (? & ? & Hu).
    simpl in Heq. congruence. }
  set (final :=
    set_stackTop (r_stackStart r + 1)
      (set_stack (<[Z.to_nat (r_stackStart r) := result]> (stack vm))
         (set_frameCount (frameCount vm - 1) vm1))).
  exists l1, l2, final.
  assert (frames vm1 = frames vm ∧ stack vm1 = stack vm
          ∧ frameCount vm1 = frameCount vm) as (Hframes & Hstack1 & Hcount1).
  { by rewrite Hvm1. }
  split; [done|]. split.
  { unfold instruction. mstep. rewrite Hop. mstep. unfold POP.
    rewrite (bind_Ret_intro _ _ _ _ _ (pop_defined _ _ Hget)).
    cbn [r_stackStart set_r_ip].
    rewrite (bind_Ret_intro _ _ _ _ _ Hclose). mrun.
    rewrite Hcount1.
    rewrite (proj2 (Z.eqb_neq (frameCount vm - 1) 0)) by lia.
    mrun. unfold PUSH, push. mrun.
    cbn [stack stackTop set_stackTop set_frameCount]. rewrite Hstack1.
    unfold array_set.
    rewrite (proj2 (Z.leb_le _ _)) by lia.
    rewrite (proj2 (Z.ltb_lt _ _)) by lia. cbn [andb]. mrun.
    unfold LOAD_FRAME. mrun.
    cbn [frames frameCount set_stackTop set_stack set_frameCount].
    rewrite Hframes.
    replace (frameCount vm - 1 - 1)%Z with (frameCount vm - 2)%Z by lia.
    rewrite Hcaller. mrun. unfold function_of, deref. mrun.
    cbn [objects set_stackTop set_stack set_frameCount].
    rewrite Hclosure1. by mrun. }
  unfold final. cbn [frameCount stackTop stack objects openUpvalues
    set_stackTop set_stack set_frameCount].
  done.
Qed.

(** X25.  Closing does not change what an upvalue holds: a read through
    an open upvalue gives the same value before and after
    [closeUpvalues], whether the upvalue is closed by it (the value is
    then read from the upvalue itself) or stays open. *)
Theorem closing_keeps_upvalue_values (last : Z) (l : list (ObjRef * Z))
    (u : ObjRef) (slot : Z) (vm : VMState) :
  open_list (objects vm) (openUpvalues vm) l →
  descending l →
  Forall (λ x, is_Some (array_get (stack vm) x.2)) l →
  (u, slot) ∈ l →
  ∃ value vm',
    closeUpvalues last vm = Ret ((), vm')
    ∧ read_location u vm = Ret (value, vm)
    ∧ read_location u vm' = Ret (value, vm').
Proof.
  intros Hlist Hdesc Hstack Hin.
  destruct (open_seg_lookup _ _ _ _ _ _ Hlist Hin) as (closed & next & Hu).
  pose proof Hstack as Hvalue. rewrite Forall_forall in Hvalue.
  destruct (Hvalue _ Hin) as [value Hslot]. simpl in Hslot.
  pose proof (descending_NoDup _ _ _ _ Hlist Hdesc) as Hnodup.
  destruct (closeUpvalues_run last l vm)
    as (l1 & l2 & vm' & -> & Hclose & Hclosed & _ & _ & Hrest & Hvm');
    [done..|].
  exists value, vm'. split; [done|]. split.
  { unfold read_location, deref. mrun. rewrite Hu. mrun. by rewrite Hslot. }
  assert (stack vm' = stack vm) as Hstack' by (by rewrite Hvm').
  apply elem_of_app in Hin as [Hin|Hin].
  - rewrite Forall_forall in Hclosed.
    destruct (Hclosed _ Hin) as (_ & value' & next' & Hslot' & Hu').
    simpl in *. unfold read_location, deref. mrun. rewrite Hu'. mrun.
    assert (value' = value) as -> by congruence. done.
  - assert (u ∉ l1.*1) as Hout.
    { rewrite fmap_app in Hnodup. apply NoDup_app in Hnodup as (_ & Hdisj & _).
      intros Hu1. apply (Hdisj u Hu1).
      apply list_elem_of_fmap. by exists (u, slot). }
    unfold read_location, deref. mrun. rewrite (Hrest u Hout), Hu. mrun.
    by rewrite Hstack', Hslot.
Qed.

(** *** Fields and methods *)

(** The value is an object of the given type. *)
Definition has_type (vm : VMState) (value : Value) (type : ObjType) : bool :=
  match value with
  | OBJ_VAL o =>
      match objects vm !! o with
      | Some obj => bool_decide (type_of obj = type)
      | None => false
      end
  | _ => false
  end.

Lemma isObjType_valid (value : Value) (type : ObjType) (vm : VMState) :
  valid_value vm value →
  isObjType value type vm = Ret (has_type vm value type, vm).
Proof.
  destruct value as [| | |o]; try done.
  intros [obj Hobj]. unfold isObjType, deref. simpl. mrun.
  by rewrite Hobj.
Qed.

Lemma instance_fields (o klass : ObjRef) (fields : gmap ObjRef Value)
    (vm : VMState) :
  objects vm !! o = Some (ObjInstance klass fields) →
  IS_INSTANCE (OBJ_VAL o) vm = Ret (true, vm)
  ∧ AS_INSTANCE (OBJ_VAL o) vm = Ret (o, vm)
  ∧ fields_of o vm = Ret (fields, vm)
  ∧ klass_of o vm = Ret (klass, vm).
Proof.
  intros Ho. unfold IS_INSTANCE, isObjType, AS_INSTANCE, AS_OBJ_OF, fields_of,
    klass_of, deref.
  repeat split; mrun; rewrite Ho; by mrun.
Qed.

(** X26.  [OP_SET_PROPERTY] stores the value on top of the stack in the
    field of the instance below it, adding the field if the instance has
    none of that name, and leaves the value in the place of both.  On
    anything that is not an instance it reports "Only instances have
    fields.", and [run] returns [INTERPRET_RUNTIME_ERROR]. *)
Theorem set_property_stores (r r1 r2 : Registers) (b : Z) (name : ObjRef)
    (value receiver : Value) (vm : VMState) :
  READ_BYTE r vm = Ret ((b, r1), vm) →
  opcode_of_byte b = Some OP_SET_PROPERTY →
  READ_STRING r1 vm = Ret ((name, r2), vm) →
  PEEK vm = Ret (value, vm) →
  PEEK2 vm = Ret (receiver, vm) →
  (∀ o klass fields,
     receiver = OBJ_VAL o →
     objects vm !! o = Some (ObjInstance klass fields) →
     instruction r vm
     = Ret (Dispatch r2,
            set_stackTop (stackTop vm - 1)
              (set_stack (<[Z.to_nat (stackTop vm - 2) := value]> (stack vm))
                 (set_objects
                    (<[o := ObjInstance klass (<[name := value]> fields)]>
                       (objects vm)) vm))))
  ∧ (valid_value vm receiver → has_type vm receiver OBJ_INSTANCE = false →
     traceable r1 vm = true →
     ∃ trace vm',
       instruction r vm = Ret (Return INTERPRET_RUNTIME_ERROR, vm')
       ∧ stderr vm' = stderr vm
           ++ Message "Only instances have fields." [] :: trace
       ∧ is_reset vm' ∧ objects vm' = objects vm).
Proof.
  intros Hread Hop Hname Hvalue Hreceiver.
  pose proof (peek_Ret _ _ _ _ Hvalue) as [Hgetv _].
  pose proof (peek_Ret _ _ _ _ Hreceiver) as [Hgetr _].
  rewrite Z.sub_0_r in Hgetv.
  split.
  - intros o klass fields -> Ho.
    destruct (instance_fields _ _ _ _ Ho) as (His & Has & Hfields & _).
    unfold instruction. mstep. rewrite Hop. mstep. repeat mstep.
    cbn [negb]. repeat mstep. unfold set_fields, deref. mrun. rewrite Ho. mrun.
    rewrite (bind_Ret_intro _ _ _ _ _ (store_defined _ _ _ _ Ho)).
    unfold POP, PUSH, tableSet. cbn [fst].
    erewrite bind_Ret_intro; [|by apply pop_defined].
    erewrite bind_Ret_intro.
    2:{ apply DROP_defined. cbn [stackTop set_stackTop set_objects].
        unfold array_get in Hgetr. destruct (_ <? 0)%Z eqn:Hlt; [done|].
        apply Z.ltb_ge in Hlt. lia. }
    erewrite bind_Ret_intro.
    2:{ apply (push_defined _ (OBJ_VAL o)).
        cbn [stack stackTop set_stackTop set_objects]. exact Hgetr. }
    unfold mret, M_ret. do 2 f_equal.
    unfold set_stackTop, set_stack, set_objects. cbn.
    f_equal; [|lia]. do 2 f_equal. lia.
  - intros Hvalid Htype Htrace.
    unfold instruction. mstep. rewrite Hop. mstep. mstep.
    unfold IS_INSTANCE. rewrite (bind_Ret_intro _ _ _ _ _
                                   (isObjType_valid _ OBJ_INSTANCE _ Hvalid)).
    rewrite Htype. cbn [negb].
    destruct (fail_defined r1 "Only instances have fields." [] vm Htrace)
      as [vm' Hfail].
    pose proof (fail_spec _ _ _ _ _ _ Hfail)
      as (_ & Hreset & [trace Hstderr] & _ & _ & Hobjects & _).
    by exists trace, vm'.
Qed.

Lemma replace_top (value old : Value) (vm : VMState) :
  array_get (stack vm) (stackTop vm - 1) = Some old →
  (DROP;; PUSH value) vm
  = Ret ((), set_stack (<[Z.to_nat (stackTop vm - 1) := value]> (stack vm)) vm).
Proof.
  intros Hget.
  assert (0 < stackTop vm)%Z as Htop.
  { unfold array_get in Hget. destruct (_ <? 0)%Z eqn:Hlt; [done|].
    apply Z.ltb_ge in Hlt. lia. }
  rewrite (bind_Ret_intro _ _ _ _ _ (DROP_defined _ Htop)).
  unfold PUSH. erewrite (push_defined value old); [|done].
  cbn [stack stackTop set_stackTop]. do 2 f_equal.
  destruct vm. unfold set_stackTop, set_stack. cbn. f_equal. lia.
Qed.

(** Where an active frame cannot be reported, the loop of [runtimeError]
    reads outside an object or an array. *)
Lemma stackTrace_undefined (i : nat) (vm : VMState) :
  bool_decide (i ≤ length (frames vm))
  && forallb (traceable_frame (objects vm)) (take i (frames vm)) = false →
  stackTrace i vm = Halt UndefinedBehaviour.
Proof.
  revert vm. induction i as [|i IH]; intros vm Hbad.
  { rewrite take_0 in Hbad. cbn [forallb] in Hbad.
    rewrite andb_true_r in Hbad. apply bool_decide_eq_false in Hbad. lia. }
  cbn [stackTrace]. rewrite bind_gets.
  destruct (frames vm !! i) as [f|] eqn:Hf; [|done].
  rewrite bind_defined.
  destruct (traceable_frame (objects vm) f) eqn:Hok.
  - destruct (traceable_frame_true _ _ Hok)
      as (function & upvalues & arity & count & chunk & name & line
          & Hc & Hfn & Hline & Hname).
    assert (bool_decide (i ≤ length (frames vm))
            && forallb (traceable_frame (objects vm)) (take i (frames vm))
            = false) as Hrest.
    { pose proof (lookup_lt_Some _ _ _ Hf) as Hlt.
      rewrite (take_S_r _ _ _ Hf), forallb_app in Hbad. simpl in Hbad.
      rewrite Hok in Hbad. rewrite bool_decide_eq_true_2 in Hbad by lia.
      rewrite bool_decide_eq_true_2 by lia.
      simpl in *. by rewrite !andb_true_r in Hbad. }
    unfold function_of, chunk_of, name_of, chars_of, deref.
    repeat (first [rewrite bind_assoc | rewrite bind_gets
                  | rewrite Hc | rewrite Hfn | rewrite Hline
                  | rewrite bind_defined | rewrite bind_mret]; cbv beta iota).
    destruct name as [n|].
    + destruct Hname as [chars Hn].
      repeat (first [rewrite bind_assoc | rewrite bind_gets | rewrite Hn
                    | rewrite bind_defined | rewrite bind_mret
                    | rewrite bind_modify]; cbv beta iota).
      by apply IH.
    + repeat (first [rewrite bind_assoc | rewrite bind_mret
                    | rewrite bind_modify]; cbv beta iota).
      by apply IH.
  - unfold traceable_frame in Hok.
    unfold function_of, chunk_of, name_of, chars_of, deref.
    repeat (first [rewrite bind_assoc | rewrite bind_gets]; cbv beta iota).
    destruct (objects vm !! closure f) as [[| | |function upvalues| | | |]|];
      try done.
    repeat (first [rewrite bind_assoc | rewrite bind_gets | rewrite bind_defined
                  | rewrite bind_mret]; cbv beta iota).
    destruct (objects vm !! function) as [[|arity count chunk name| | | | | |]|]
      eqn:Hfn; try done.
    repeat (first [rewrite bind_assoc | rewrite bind_gets | rewrite bind_defined
                  | rewrite bind_mret | rewrite Hfn]; cbv beta iota).
    destruct (array_get (lines chunk) (ip f - 1)); [|done].
    repeat (first [rewrite bind_assoc | rewrite bind_gets | rewrite bind_defined
                  | rewrite bind_mret | rewrite Hfn]; cbv beta iota).
    destruct name as [n|]; [|done].
    repeat (first [rewrite bind_assoc | rewrite bind_gets]; cbv beta iota).
    by destruct (objects vm !! n) as [[chars| | | | | | |]|].
Qed.

Lemma runtimeError_undefined (format : string) (args : list FormatArg)
    (vm : VMState) :
  reportable vm = false →
  runtimeError format args vm = Halt UndefinedBehaviour.
Proof.
  intros Hbad. unfold runtimeError.
  rewrite bind_modify, bind_gets. cbn [frameCount set_stderr].
  unfold mbind, M_bind. by rewrite stackTrace_undefined.
Qed.

(** A frame that can be reported has stored an instruction pointer behind
    its first instruction. *)
Lemma reportable_stored_ip (vm : VMState) (frame : CallFrame) :
  reportable vm = true → (0 < frameCount vm)%Z →
  frames vm !! Z.to_nat (frameCount vm - 1) = Some frame →
  (0 < ip frame)%Z.
Proof.
  intros Hall Hcount Hframe.
  destruct (reportable_true vm Hall (Z.to_nat (frameCount vm - 1)))
    as (f & Hf & function & upvalues & arity & count & chunk & name & line
        & _ & _ & Hline & _); [lia|].
  rewrite Hframe in Hf. injection Hf as <-.
  unfold array_get in Hline. destruct (_ <? 0)%Z eqn:Hlt; [done|].
  apply Z.ltb_ge in Hlt. lia.
Qed.

(** X27.  [OP_GET_PROPERTY] on an instance replaces the instance on top
    of the stack by the value of the field of that name, if the instance
    has one: a field hides a method of the same name.  Without such a
    field it replaces the instance by a new bound method of the instance
    and the method of that name of its class.  If the class has none, the
    instruction reports "Undefined property" with the name, with a trace
    that is made with the instruction pointers that the frames hold:
    this instruction has not stored its own.  It does so where every
    active frame can be reported with the pointer it holds ([reportable]:
    its closure, function and name can be read, and so can the line of
    the instruction before the pointer); elsewhere the behaviour is
    undefined, as in a frame that still holds the pointer to its first
    instruction, where the line is read in front of the array.  On
    anything but an instance it reports "Only instances have
    properties.". *)
Theorem get_property_field_method_or_error (r r1 r2 : Registers) (b : Z)
    (name : ObjRef) (receiver : Value) (vm : VMState) :
  READ_BYTE r vm = Ret ((b, r1), vm) →
  opcode_of_byte b = Some OP_GET_PROPERTY →
  READ_STRING r1 vm = Ret ((name, r2), vm) →
  PEEK vm = Ret (receiver, vm) →
  let top := Z.to_nat (stackTop vm - 1) in
  (∀ o klass fields value,
     receiver = OBJ_VAL o →
     objects vm !! o = Some (ObjInstance klass fields) →
     fields !! name = Some value →
     instruction r vm
     = Ret (Dispatch r2, set_stack (<[top := value]> (stack vm)) vm))
  ∧ (∀ o klass fields kname methods method function upvalues,
       receiver = OBJ_VAL o →
       objects vm !! o = Some (ObjInstance klass fields) →
       fields !! name = None →
       objects vm !! klass = Some (ObjClass kname methods) →
       methods !! name = Some (OBJ_VAL method) →
       objects vm !! method = Some (ObjClosure function upvalues) →
       instruction r vm
       = Ret (Dispatch r2,
              set_stack (<[top := OBJ_VAL (length (objects vm))]> (stack vm))
                (set_objects
                   (objects vm ++ [ObjBoundMethod (OBJ_VAL o) method]) vm)))
  ∧ (∀ o klass fields kname methods,
       receiver = OBJ_VAL o →
       objects vm !! o = Some (ObjInstance klass fields) →
       fields !! name = None →
       objects vm !! klass = Some (ObjClass kname methods) →
       methods !! name = None →
       reportable vm = true →
       ∃ chars trace,
         chars_of name vm = Ret (chars, vm)
         ∧ instruction r vm
           = Ret (Return INTERPRET_RUNTIME_ERROR,
                  reset_of
                    (set_stderr
                       (stderr vm
                        ++ Message "Undefined property '%s'." [ArgString chars]
                           :: trace) vm)))
  ∧ (∀ o klass fields kname methods,
       receiver = OBJ_VAL o →
       objects vm !! o = Some (ObjInstance klass fields) →
       fields !! name = None →
       objects vm !! klass = Some (ObjClass kname methods) →
       methods !! name = None →
       reportable vm = false →
       instruction r vm = Halt UndefinedBehaviour)
  ∧ (∀ frame,
       (0 < frameCount vm)%Z →
       frames vm !! Z.to_nat (frameCount vm - 1) = Some frame →
       ip frame = 0%Z →
       reportable vm = false)
  ∧ (valid_value vm receiver → has_type vm receiver OBJ_INSTANCE = false →
     traceable r1 vm = true →
     ∃ trace vm',
       instruction r vm = Ret (Return INTERPRET_RUNTIME_ERROR, vm')
       ∧ stderr vm' = stderr vm
           ++ Message "Only instances have properties." [] :: trace
       ∧ is_reset vm').
Proof.
  intros Hread Hop Hname Hreceiver top.
  pose proof (peek_Ret _ _ _ _ Hreceiver) as [Hget _].
  rewrite Z.sub_0_r in Hget.
  assert (∀ o klass fields,
            receiver = OBJ_VAL o →
            objects vm !! o = Some (ObjInstance klass fields) →
            instruction r vm
            = match fields !! name with
              | Some value => (DROP;; PUSH value;; mret (Dispatch r2)) vm
              | None =>
                  (bound ← bindMethod klass name;
                   if negb bound then mret (Return INTERPRET_RUNTIME_ERROR)
                   else mret (Dispatch r2)) vm
              end) as Hinstance.
  { intros o klass fields -> Ho.
    destruct (instance_fields _ _ _ _ Ho) as (His & Has & Hfields & Hklass).
    unfold instruction. mstep. rewrite Hop. mstep. repeat mstep.
    cbn [negb]. repeat mstep. unfold tableGet.
    destruct (fields !! name); [done|]. by mstep. }
  split; [|split; [|split; [|split; [|split]]]].
  - intros o klass fields value Hr Ho Hfield.
    rewrite (Hinstance o klass fields Hr Ho), Hfield.
    rewrite <- bind_assoc.
    by rewrite (bind_Ret_intro _ _ _ _ _ (replace_top value _ _ Hget)).
  - intros o klass fields kname methods method function upvalues
      Hr Ho Hfield Hklass Hmethod Hclosure.
    rewrite (Hinstance o klass fields Hr Ho), Hfield. subst receiver.
    unfold bindMethod, methods_of, deref. mrun. rewrite Hklass. mrun.
    unfold tableGet. rewrite Hmethod. mrun.
    change (peek 0) with PEEK. rewrite (bind_Ret_intro _ _ _ _ _ Hreceiver).
    unfold AS_CLOSURE, AS_OBJ_OF, deref. mrun. rewrite Hclosure. mrun.
    rewrite decide_True by done. mrun.
    unfold newBoundMethod, allocateObject. mrun.
    rewrite ?bind_assoc. erewrite bind_Ret_intro; [|by apply pop_defined].
    rewrite ?bind_assoc. erewrite bind_Ret_intro.
    2:{ apply (push_defined _ (OBJ_VAL o)).
        cbn [stack stackTop set_stackTop set_objects]. exact Hget. }
    mrun. cbn [negb]. unfold mret, M_ret. do 2 f_equal.
    destruct vm. unfold set_stackTop, set_stack, set_objects, top. cbn.
    f_equal. lia.
  - intros o klass fields kname methods Hr Ho Hfield Hklass Hmethod Hall.
    rewrite (Hinstance o klass fields Hr Ho), Hfield.
    destruct (READ_STRING_Ret _ _ _ _ _ Hname) as [_ [chars Hchars]].
    destruct (runtimeError_defined "Undefined property '%s'."
                [ArgString chars] vm Hall) as [trace Herror].
    exists chars, trace. split; [done|].
    unfold bindMethod, methods_of, deref. mrun. rewrite Hklass. mrun.
    unfold tableGet. rewrite Hmethod. mrun.
    rewrite (bind_Ret_intro _ _ _ _ _ Hchars).
    mrun. rewrite (bind_Ret_intro _ _ _ _ _ Herror). by mrun.
  - intros o klass fields kname methods Hr Ho Hfield Hklass Hmethod Hbad.
    rewrite (Hinstance o klass fields Hr Ho), Hfield.
    destruct (READ_STRING_Ret _ _ _ _ _ Hname) as [_ [chars Hchars]].
    unfold bindMethod, methods_of, deref. mrun. rewrite Hklass. mrun.
    unfold tableGet. rewrite Hmethod. mrun.
    rewrite (bind_Ret_intro _ _ _ _ _ Hchars).
    mrun. unfold mbind, M_bind.
    by rewrite (runtimeError_undefined _ _ vm Hbad).
  - intros frame Hcount Hframe Hip.
    destruct (reportable vm) eqn:Hall; [|done].
    pose proof (reportable_stored_ip vm frame Hall Hcount Hframe). lia.
  - intros Hvalid Htype Htrace.
    unfold instruction. mstep. rewrite Hop. mstep. mstep.
    unfold IS_INSTANCE. rewrite (bind_Ret_intro _ _ _ _ _
                                   (isObjType_valid _ OBJ_INSTANCE _ Hvalid)).
    rewrite Htype. cbn [negb].
    destruct (fail_defined r1 "Only instances have properties." [] vm Htrace)
      as [vm' Hfail].
    pose proof (fail_spec _ _ _ _ _ _ Hfail)
      as (_ & Hreset & [trace Hstderr] & _).
    by exists trace, vm'.
Qed.

(** *** Inheritance *)

Lemma class_methods (o name : ObjRef) (methods : gmap ObjRef Value)
    (vm : VMState) :
  objects vm !! o = Some (ObjClass name methods) →
  IS_CLASS (OBJ_VAL o) vm = Ret (true, vm)
  ∧ AS_CLASS (OBJ_VAL o) vm = Ret (o, vm)
  ∧ methods_of o vm = Ret (methods, vm).
Proof.
  intros Ho. unfold IS_CLASS, isObjType, AS_CLASS, AS_OBJ_OF, methods_of, deref.
  repeat split; mrun; rewrite Ho; by mrun.
Qed.

(** X28.  [OP_INHERIT] copies the methods of the superclass into the
    subclass on top of the stack and pops the subclass: afterwards the
    subclass has every method of the superclass, and beside them the
    methods it had under other names.  If the value below the subclass is
    not a class it reports "Superclass must be a class.", and [run]
    returns [INTERPRET_RUNTIME_ERROR]. *)
Theorem inherit_copies_methods (r r1 : Registers) (b : Z)
    (superclass subclass : Value) (vm : VMState) :
  READ_BYTE r vm = Ret ((b, r1), vm) →
  opcode_of_byte b = Some OP_INHERIT →
  PEEK2 vm = Ret (superclass, vm) →
  PEEK vm = Ret (subclass, vm) →
  (∀ sup sub supername inherited subname own,
     superclass = OBJ_VAL sup → subclass = OBJ_VAL sub →
     objects vm !! sup = Some (ObjClass supername inherited) →
     objects vm !! sub = Some (ObjClass subname own) →
     ∃ methods,
       instruction r vm
       = Ret (Dispatch r1,
              set_stackTop (stackTop vm - 1)
                (set_objects (<[sub := ObjClass subname methods]> (objects vm))
                   vm))
       ∧ (∀ name method, inherited !! name = Some method →
            methods !! name = Some method)
       ∧ (∀ name, inherited !! name = None → methods !! name = own !! name))
  ∧ (valid_value vm superclass → has_type vm superclass OBJ_CLASS = false →
     traceable r1 vm = true →
     ∃ trace vm',
       instruction r vm = Ret (Return INTERPRET_RUNTIME_ERROR, vm')
       ∧ stderr vm' = stderr vm
           ++ Message "Superclass must be a class." [] :: trace
       ∧ is_reset vm' ∧ objects vm' = objects vm).
Proof.
  intros Hread Hop Hsuper Hsub.
  destruct (peek_top _ _ Hsub) as [_ Htop].
  split.
  - intros sup sub supername inherited subname own -> -> Hsup Hsubclass.
    destruct (class_methods _ _ _ _ Hsup) as (Hissup & Hassup & Hmsup).
    destruct (class_methods _ _ _ _ Hsubclass) as (_ & Hassub & Hmsub).
    exists (inherited ∪ own). split; [|split].
    + unfold instruction. mstep. rewrite Hop. mstep. repeat mstep.
      cbn [negb]. repeat mstep. unfold set_methods, deref. mrun.
      rewrite Hsubclass. mrun.
      rewrite (bind_Ret_intro _ _ _ _ _ (store_defined _ _ _ _ Hsubclass)).
      erewrite bind_Ret_intro; [|by apply DROP_defined].
      done.
    + intros name method Hname. by apply lookup_union_Some_l.
    + intros name Hname. by apply lookup_union_r.
  - intros Hvalid Htype Htrace.
    unfold instruction. mstep. rewrite Hop. mstep. mstep.
    unfold IS_CLASS. rewrite (bind_Ret_intro _ _ _ _ _
                                (isObjType_valid _ OBJ_CLASS _ Hvalid)).
    rewrite Htype. cbn [negb].
    destruct (fail_defined r1 "Superclass must be a class." [] vm Htrace)
      as [vm' Hfail].
    pose proof (fail_spec _ _ _ _ _ _ Hfail)
      as (_ & Hreset & [trace Hstderr] & _ & _ & Hobjects & _).
    by exists trace, vm'.
Qed.

(** *** The trace of an error *)

(** The line that [runtimeError] prints for a frame: the source line of
    the instruction before the instruction pointer that the frame holds,
    and the name of the function, or none for the script. *)
Definition trace_line (heap : list Obj) (frame : CallFrame)
    : option Diagnostic :=
  match heap !! closure frame with
  | Some (ObjClosure function _) =>
      match heap !! function with
      | Some (ObjFunction _ _ chunk name) =>
          line ← array_get (lines chunk) (ip frame - 1);
          match name with
          | None => Some (TraceLine line None)
          | Some n =>
              match heap !! n with
              | Some (ObjString chars) => Some (TraceLine line (Some chars))
              | _ => None
              end
          end
      | _ => None
      end
  | _ => None
  end.

Lemma stackTrace_lines (i : nat) :
  ∀ (vm : VMState) (trace : list Diagnostic),
  i ≤ length (frames vm) →
  Forall2 (λ frame d, trace_line (objects vm) frame = Some d)
    (reverse (take i (frames vm))) trace →
  stackTrace i vm = Ret ((), set_stderr (stderr vm ++ trace) vm).
Proof.
  induction i as [|i IH]; intros vm trace Hlen Htrace.
  - rewrite take_0 in Htrace. apply Forall2_nil_inv_l in Htrace as ->.
    simpl. rewrite app_nil_r. by destruct vm.
  - destruct (lookup_lt_is_Some_2 (frames vm) i) as [frame Hframe]; [lia|].
    rewrite (take_S_r _ _ _ Hframe), reverse_app in Htrace. simpl in Htrace.
    apply Forall2_cons_inv_l in Htrace as (d & rest & Hd & Hrest & ->).
    unfold trace_line in Hd.
    destruct (objects vm !! closure frame)
      as [[| | |function upvalues| | | |]|] eqn:Hclosure; try done.
    destruct (objects vm !! function)
      as [[|arity count chunk name| | | | | |]|] eqn:Hfunction; try done.
    destruct (array_get (lines chunk) (ip frame - 1)) as [line|] eqn:Hline;
      [|done].
    simpl in Hd.
    assert (∀ who,
              d = TraceLine line who →
              (modify (λ vm, set_stderr (stderr vm ++ [TraceLine line who]) vm);;
               stackTrace i) vm
              = Ret ((), set_stderr (stderr vm ++ d :: rest) vm)) as Hgo.
    { intros who ->. mrun. rewrite (IH _ rest); [|simpl; lia|done].
      cbn [stderr set_stderr]. rewrite <- app_assoc. by destruct vm. }
    cbn [stackTrace].
    unfold function_of, chunk_of, name_of, chars_of, deref.
    repeat (first [ rewrite bind_assoc | rewrite bind_gets | rewrite bind_mret
                  | rewrite bind_defined | rewrite Hframe | rewrite Hclosure
                  | rewrite Hfunction | rewrite Hline ];
            cbv beta iota).
    destruct name as [n|].
    + destruct (objects vm !! n) as [[chars| | | | | | |]|] eqn:Hn; try done.
      repeat (first [ rewrite bind_assoc | rewrite bind_gets
                    | rewrite bind_mret | rewrite bind_defined | rewrite Hn ];
              cbv beta iota).
      injection Hd as <-. by apply Hgo.
    + rewrite bind_mret. injection Hd as <-. by apply Hgo.
Qed.

(** X29.  [runtimeError] writes the message and then one line for each
    active frame, the innermost first.  The line of a frame gives the
    source line of the instruction before the instruction pointer that
    the frame holds, with the name of its function, or as the script if
    the function has no name.  Then the stacks are reset. *)
Theorem runtimeError_traces_frames (format : string) (args : list FormatArg)
    (trace : list Diagnostic) (vm : VMState) :
  Z.to_nat (frameCount vm) ≤ length (frames vm) →
  Forall2 (λ frame d, trace_line (objects vm) frame = Some d)
    (reverse (take (Z.to_nat (frameCount vm)) (frames vm))) trace →
  runtimeError format args vm
  = Ret ((), reset_of
               (set_stderr (stderr vm ++ Message format args :: trace) vm)).
Proof.
  intros Hlen Htrace. unfold runtimeError, resetStack. mrun.
  cbn [frameCount set_stderr].
  rewrite (bind_Ret_intro _ _ _ _ _
             (stackTrace_lines _
                (set_stderr (stderr vm ++ [Message format args]) vm)
                trace Hlen Htrace)).
  mrun. unfold modify, reset_of. cbn [stderr set_stderr].
  rewrite <- app_assoc. by destruct vm.
Qed.

(** *** Method invocation *)

(** X30.  [invoke] looks for a field of the given name before it looks
    for a method: a field of the receiver that holds a callable value is
    called in the place of the method of the same name, the value having
    taken the place of the receiver on the stack.  Without such a field
    the method of the class is called on the receiver; if the class has
    none, the error is "Undefined property" with the name.  A receiver
    that is not an instance gives "Only instances have methods.". *)
Theorem invoke_field_shadows_method (name : ObjRef) (argCount : Z)
    (receiver : Value) (vm : VMState) :
  peek argCount vm = Ret (receiver, vm) →
  (∀ o klass fields value,
     receiver = OBJ_VAL o →
     objects vm !! o = Some (ObjInstance klass fields) →
     fields !! name = Some value →
     invoke name argCount vm
     = callValue value argCount
         (set_stack
            (<[Z.to_nat (stackTop vm - argCount - 1) := value]> (stack vm)) vm))
  ∧ (∀ o klass fields kname methods method function upvalues,
       receiver = OBJ_VAL o →
       objects vm !! o = Some (ObjInstance klass fields) →
       fields !! name = None →
       objects vm !! klass = Some (ObjClass kname methods) →
       methods !! name = Some (OBJ_VAL method) →
       objects vm !! method = Some (ObjClosure function upvalues) →
       invoke name argCount vm = call method argCount vm)
  ∧ (∀ o klass fields kname methods chars,
       receiver = OBJ_VAL o →
       objects vm !! o = Some (ObjInstance klass fields) →
       fields !! name = None →
       objects vm !! klass = Some (ObjClass kname methods) →
       methods !! name = None →
       objects vm !! name = Some (ObjString chars) →
       reportable vm = true →
       ∃ trace,
         invoke name argCount vm
         = Ret (false,
                reset_of
                  (set_stderr
                     (stderr vm
                      ++ Message "Undefined property '%s'." [ArgString chars]
                         :: trace) vm)))
  ∧ (valid_value vm receiver → has_type vm receiver OBJ_INSTANCE = false →
     reportable vm = true →
     ∃ trace,
       invoke name argCount vm
       = Ret (false,
              reset_of
                (set_stderr
                   (stderr vm
                    ++ Message "Only instances have methods." [] :: trace)
                   vm))).
Proof.
  intros Hpeek.
  pose proof (peek_Ret _ _ _ _ Hpeek) as [Hget _].
  assert (∀ o klass fields,
            receiver = OBJ_VAL o →
            objects vm !! o = Some (ObjInstance klass fields) →
            invoke name argCount vm
            = match fields !! name with
              | Some value =>
                  (set_callee_slot argCount value;;
                   callValue value argCount) vm
              | None => invokeFromClass klass name argCount vm
              end) as Hinstance.
  { intros o klass fields -> Ho.
    destruct (instance_fields _ _ _ _ Ho) as (His & Has & Hfields & Hklass).
    unfold invoke. repeat mstep. cbn [negb]. repeat mstep. unfold tableGet.
    destruct (fields !! name); [done|]. by mstep. }
  split; [|split; [|split]].
  - intros o klass fields value Hr Ho Hfield.
    rewrite (Hinstance o klass fields Hr Ho), Hfield.
    unfold set_callee_slot. mrun.
    replace (stackTop vm - argCount - 1)%Z with (stackTop vm - 1 - argCount)%Z
      by lia.
    by rewrite (array_get_set _ _ _ value Hget), bind_defined, bind_modify.
  - intros o klass fields kname methods method function upvalues
      Hr Ho Hfield Hklass Hmethod Hclosure.
    rewrite (Hinstance o klass fields Hr Ho), Hfield.
    unfold invokeFromClass, methods_of, deref. mrun. rewrite Hklass. mrun.
    unfold tableGet. rewrite Hmethod.
    unfold AS_CLOSURE, AS_OBJ_OF, deref. mrun. rewrite Hclosure. mrun.
    by rewrite decide_True.
  - intros o klass fields kname methods chars
      Hr Ho Hfield Hklass Hmethod Hname Hall.
    rewrite (Hinstance o klass fields Hr Ho), Hfield.
    destruct (runtimeError_defined "Undefined property '%s'."
                [ArgString chars] vm Hall) as [trace Herror].
    exists trace.
    unfold invokeFromClass, methods_of, deref. mrun. rewrite Hklass. mrun.
    unfold tableGet. rewrite Hmethod.
    rewrite (bind_Ret_intro _ _ _ _ _ (chars_of_string _ _ _ Hname)).
    by rewrite (bind_Ret_intro _ _ _ _ _ Herror).
  - intros Hvalid Htype Hall.
    destruct (runtimeError_defined "Only instances have methods." [] vm Hall)
      as [trace Herror].
    exists trace. unfold invoke. mstep.
    unfold IS_INSTANCE. rewrite (bind_Ret_intro _ _ _ _ _
                                   (isObjType_valid _ OBJ_INSTANCE _ Hvalid)).
    rewrite Htype. cbn [negb].
    by rewrite (bind_Ret_intro _ _ _ _ _ Herror).
Qed.

End Interpreter.

(** ** Examples *)

(** A numbering of the opcodes: the order of the cases of [run]. *)
Definition example_opcodes : list OpCode :=
  [OP_CONSTANT; OP_NIL; OP_TRUE; OP_FALSE; OP_POP; OP_GET_LOCAL;
   OP_SET_LOCAL; OP_GET_GLOBAL; OP_DEFINE_GLOBAL; OP_SET_GLOBAL;
   OP_GET_UPVALUE; OP_SET_UPVALUE; OP_GET_PROPERTY; OP_SET_PROPERTY;
   OP_GET_SUPER; OP_EQUAL; OP_GREATER; OP_LESS; OP_ADD; OP_SUBTRACT;
   OP_MULTIPLY; OP_DIVIDE; OP_NOT; OP_NEGATE; OP_PRINT; OP_JUMP;
   OP_JUMP_IF_FALSE; OP_LOOP; OP_CALL; OP_INVOKE; OP_SUPER_INVOKE;
   OP_CLOSURE; OP_CLOSE_UPVALUE; OP_RETURN; OP_CLASS; OP_INHERIT; OP_METHOD].

Definition example_opcode (b : Z) : option OpCode :=
  example_opcodes !! Z.to_nat b.

Definition example_host (native : NativeFn) (n : nat) : float := 0%float.

Definition example_Value_of_double (d : float) : option Value :=
  Some (NUMBER_VAL d).

Definition bytes (l : list nat) : list Byte.byte := omap Byte.of_nat l.

(** A VM with four frames and eight stack slots, after [initVM]. *)
Definition example_vm : VMState :=
  match initVM (mkVM (replicate 4 (mkFrame 0 0 0)) 0 (replicate 8 NIL_VAL) 0
                  ∅ ∅ None None [] [] [] 0) with
  | Ret (_, vm) => vm
  | Halt _ => mkVM [] 0 [] 0 ∅ ∅ None None [] [] [] 0
  end.

(** The script of [print 1 + 2;], of [print "a" + "b";], of
    [print 1 + "x";] and of [x = 1;]: in each, two constants, an
    instruction on them, and the return of nil. *)
Definition example_script (op : nat) (c0 c1 : Value) : Obj :=
  ObjFunction 0 0
    (mkChunk (bytes [0; 0; 0; 1; op; 24; 1; 33]) (replicate 8 1%Z) [c0; c1])
    None.

Definition compile_numbers (source : string) : M (option ObjRef) :=
  function ← allocateObject (example_script 18 (NUMBER_VAL 1) (NUMBER_VAL 2));
  mret (Some function).


Definition compile_mixed (source : string) : M (option ObjRef) :=
  x ← copyString "x";
  function ← allocateObject (example_script 18 (NUMBER_VAL 1) (OBJ_VAL x));
  mret (Some function).

(** The registers and the VM after [interpret] has run [n] instructions
    of the script that [compile] returns. *)
Definition example_at (compile : string → M (option ObjRef)) (n : nat)
    : option (Registers * VMState) :=
  match (function ← compile ""; function ← defined function;
         enter 4 function) example_vm with
  | Ret (r, vm) => steps 4 example_opcode example_host
                     example_Value_of_double n r vm
  | Halt _ => None
  end.

Lemma interpret_leaves_stacks_empty_witness :
  ∃ vm',
    interpret 4 example_opcode example_host example_Value_of_double
      compile_numbers 10 "print 1 + 2;" example_vm = Ret (INTERPRET_OK, vm')
    ∧ frameCount vm' = 0%Z ∧ stackTop vm' = 0%Z.
Proof.
  destruct (interpret 4 example_opcode example_host example_Value_of_double
              compile_numbers 10 "print 1 + 2;" example_vm)
    as [[result vm']|] eqn:Hrun; [|by vm_compute in Hrun].
  assert (result = INTERPRET_OK) as ->.
  { vm_compute in Hrun. by injection Hrun as <- _. }
  exists vm'. split; [done|].
  apply (interpret_leaves_stacks_empty 4 example_opcode example_host
           example_Value_of_double compile_numbers 10 "print 1 + 2;"
           INTERPRET_OK example_vm vm'); [|done|by left].
  intros function vm1 r vm2 n rn vmn Hcompile Henter Hsteps [Hfc Hfetch].
  vm_compute in Hcompile. injection Hcompile as <- <-.
  vm_compute in Henter. injection Henter as <- <-.
  do 6 (destruct n as [|n];
        [vm_compute in Hsteps; injection Hsteps as <- <-;
         first [by vm_compute in Hfetch | by vm_compute in Hfc | done]|]).
  by vm_compute in Hsteps.
Defined.

Lemma runtime_error_resets_witness :
  match example_at compile_mixed 0 with
  | Some (_, vm) =>
      (∃ vm0', runtimeError "Stack overflow." [] example_vm = Ret ((), vm0')
               ∧ openUpvalues vm0' = None)
      ∧ (∃ vm', run 4 example_opcode example_host example_Value_of_double
                  10 vm = Ret (INTERPRET_RUNTIME_ERROR, vm')
                ∧ openUpvalues vm' = None)
  | None => False
  end.
Proof.
  destruct (example_at compile_mixed 0) as [[r vm]|] eqn:Hat;
    [|by vm_compute in Hat].
  vm_compute in Hat. injection Hat as <- <-.
  match goal with
  | |- _ ∧ (∃ vm', run _ _ _ _ _ ?vm = _ ∧ _) =>
      destruct (runtimeError "Stack overflow." [] example_vm)
        as [[[] vm0']|] eqn:Herr; [|by vm_compute in Herr];
      destruct (run 4 example_opcode example_host example_Value_of_double
                  10 vm) as [[result vm']|] eqn:Hrun;
        [|by vm_compute in Hrun];
      assert (result = INTERPRET_RUNTIME_ERROR) as ->
        by (vm_compute in Hrun; by injection Hrun as <- _);
      destruct (runtime_error_resets 4 example_opcode example_host
                  example_Value_of_double "Stack overflow." [] 10
                  example_vm vm0' vm vm')
        as [H0 H1]
  end.
  split.
  - exists vm0'. split; [done|]. by apply H0.
  - exists vm'. split; [done|]. by apply H1.
Defined.

(** Two open upvalues, for the slots 5 and 2. *)
Definition example_upvalues : VMState :=
  mkVM (replicate 4 (mkFrame 0 0 0)) 0
    [NIL_VAL; BOOL_VAL true; NUMBER_VAL 2; NIL_VAL; NIL_VAL; NUMBER_VAL 5;
     NIL_VAL; NIL_VAL] 6 ∅ ∅ None (Some 0)
    [ObjUpvalue (StackSlot 5) NIL_VAL (Some 1);
     ObjUpvalue (StackSlot 2) NIL_VAL None] [] [] 0.

Lemma example_upvalues_open :
  open_list (objects example_upvalues) (openUpvalues example_upvalues)
    [(0, 5%Z); (1, 2%Z)].
Proof. repeat econstructor. Qed.

Lemma example_upvalues_descending : descending [(0, 5%Z); (1, 2%Z)].
Proof. repeat constructor; simpl; lia. Qed.

Lemma captureUpvalue_shares_or_splices_witness :
  captureUpvalue 2 example_upvalues = Ret (1, example_upvalues)
  ∧ ∃ l1 l2 vm',
      [(0, 5%Z); (1, 2%Z)] = l1 ++ l2
      ∧ captureUpvalue 3 example_upvalues = Ret (2, vm')
      ∧ descending (l1 ++ (2, 3%Z) :: l2).
Proof.
  split.
  - apply (captureUpvalue_shares_or_splices 2 [(0, 5%Z); (1, 2%Z)]
             example_upvalues example_upvalues_open
             example_upvalues_descending).
    apply elem_of_cons. right. apply elem_of_cons. by left.
  - destruct (captureUpvalue_shares_or_splices 3 [(0, 5%Z); (1, 2%Z)]
                example_upvalues example_upvalues_open
                example_upvalues_descending) as [_ Hnew].
    destruct Hnew as (l1 & l2 & vm' & Hl & Hrun & _ & Hdesc & _).
    { intros u Hin. repeat (apply elem_of_cons in Hin as [Hin|Hin];
                            [by simplify_eq|]).
      by apply elem_of_nil in Hin. }
    by exists l1, l2, vm'.
Defined.

Lemma closeUpvalues_closes_above_witness :
  ∃ l1 l2 vm',
    [(0, 5%Z); (1, 2%Z)] = l1 ++ l2
    ∧ closeUpvalues 3 example_upvalues = Ret ((), vm')
    ∧ open_list (objects vm') (openUpvalues vm') l2
    ∧ Forall (λ x, (x.2 < 3)%Z) l2.
Proof.
  destruct (closeUpvalues_closes_above 3 [(0, 5%Z); (1, 2%Z)]
              example_upvalues example_upvalues_open
              example_upvalues_descending)
    as (l1 & l2 & vm' & Hl & Hrun & Hopen & Hbelow & _).
  { repeat constructor; by eexists. }
  by exists l1, l2, vm'.
Defined.

(** The script of an assignment to the global variable [name]. *)
Definition compile_assign (name : string) (source : string)
    : M (option ObjRef) :=
  name ← copyString name;
  function ← allocateObject
    (ObjFunction 0 0
       (mkChunk (bytes [0; 0; 9; 1; 4; 1; 33]) (replicate 7 1%Z)
          [NUMBER_VAL 1; OBJ_VAL name]) None);
  mret (Some function).

Definition example_state (compile : string → M (option ObjRef)) (n : nat)
    : Registers * VMState :=
  default (mkRegisters 0 0 0 0, example_vm) (example_at compile n).

Lemma set_global_defined_or_error_witness :
  let undefined := example_state (compile_assign "x") 1 in
  let defined := example_state (compile_assign "clock") 1 in
  (∃ chars trace vm1,
     instruction 4 example_opcode example_host example_Value_of_double
       undefined.1 undefined.2 = Ret (Return INTERPRET_RUNTIME_ERROR, vm1)
     ∧ stderr vm1 = stderr undefined.2
         ++ Message "Undefined variable '%s'." [ArgString chars] :: trace
     ∧ globals vm1 = globals undefined.2)
  ∧ (∃ r2 vm1,
       instruction 4 example_opcode example_host example_Value_of_double
         defined.1 defined.2 = Ret (Dispatch r2, vm1)
       ∧ PEEK vm1 = Ret (NUMBER_VAL 1, vm1)).
Proof.
  intros undefined defined. split.
  - destruct (set_global_defined_or_error 4 example_opcode example_host
                example_Value_of_double undefined.1 (mkRegisters 0 0 3 10)
                (mkRegisters 0 0 4 10) 9 9 (NUMBER_VAL 1) undefined.2)
      as [Herror _]; [by vm_compute..|].
    destruct Herror as (chars & trace & vm1 & _ & Hrun & Hstderr & Hglobals);
      [by vm_compute..|].
    exists chars, trace, vm1.
    split; [exact Hrun|]. split; [exact Hstderr|exact Hglobals].
  - destruct (set_global_defined_or_error 4 example_opcode example_host
                example_Value_of_double defined.1 (mkRegisters 0 0 3 9)
                (mkRegisters 0 0 4 9) 9 1 (NUMBER_VAL 1) defined.2)
      as [_ Hdefined]; [by vm_compute..|].
    assert (globals defined.2 !! 1 = Some (OBJ_VAL 2)) as Hold
      by (by vm_compute).
    apply Hdefined in Hold. cbv zeta in Hold. destruct Hold as [Hrun Hpeek].
    eexists _, _. split; [exact Hrun|exact Hpeek].
Defined.


(** A VM that holds a function of one parameter, its closure, a class
    without methods and a class whose [init] is the closure; the closure
    and the number 7 are on the stack. *)
Definition example_run {A : Type} (m : M A) (vm : VMState) : VMState :=
  match m vm with
  | Ret (_, vm') => vm'
  | Halt _ => vm
  end.

Definition example_calls : VMState :=
  example_run
    (function ← allocateObject
                  (ObjFunction 1 0 (mkChunk (bytes [1; 33]) [1%Z; 1%Z] []) None);
     closure ← allocateObject (ObjClosure function []);
     allocateObject (ObjClass 0 ∅);;
     allocateObject (ObjClass 0 {[0 := OBJ_VAL closure]});;
     push (OBJ_VAL closure);;
     push (NUMBER_VAL 7))
    example_vm.

(** A closed goal, by computation. *)
Ltac computed := clear; vm_compute; first [done | by repeat split | by eexists].

Lemma call_checks_arity_and_depth_witness :
  (∃ trace vm',
     call 4 10 2 example_calls = Ret (false, vm')
     ∧ stderr vm'
       = Message "Expected %d arguments but got %d." [ArgInt 1; ArgInt 2]
         :: trace
     ∧ frameCount vm' = 0%Z)
  ∧ (∃ trace vm',
       call 0 10 1 example_calls = Ret (false, vm')
       ∧ stderr vm' = Message "Stack overflow." [] :: trace)
  ∧ (∃ vm',
       call 4 10 1 example_calls = Ret (true, vm')
       ∧ frameCount vm' = 1%Z
       ∧ frames vm' !! 0 = Some (mkFrame 10 0 0)).
Proof.
  split; [|split].
  - destruct (call_checks_arity_and_depth 4 10 9 [] 1 0 2
                (mkChunk (bytes [1; 33]) [1%Z; 1%Z] []) None example_calls)
      as [Harity _]; [computed..|].
    destruct Harity as [trace Hcall]; [done|computed|].
    eexists trace, _. split; [exact Hcall|]. computed.
  - destruct (call_checks_arity_and_depth 0 10 9 [] 1 0 1
                (mkChunk (bytes [1; 33]) [1%Z; 1%Z] []) None example_calls)
      as (_ & Hdepth & _); [computed..|].
    destruct Hdepth as [trace Hcall]; [done|computed..|].
    eexists trace, _. split; [exact Hcall|]. computed.
  - destruct (call_checks_arity_and_depth 4 10 9 [] 1 0 1
                (mkChunk (bytes [1; 33]) [1%Z; 1%Z] []) None example_calls)
      as (_ & _ & Hframe); [computed..|].
    eexists. split; [apply Hframe; computed|]. computed.
Defined.

Lemma callValue_rejects_non_callable_witness :
  (∃ trace vm',
     callValue 4 example_host (NUMBER_VAL 7) 0 example_calls
     = Ret (false, vm')
     ∧ stderr vm' = Message "Can only call functions and classes." [] :: trace)
  ∧ (∃ trace vm',
       callValue 4 example_host (OBJ_VAL 0) 0 example_calls
       = Ret (false, vm')
       ∧ stderr vm'
         = Message "Can only call functions and classes." [] :: trace).
Proof.
  split.
  - destruct (callValue_rejects_non_callable 4 example_host (NUMBER_VAL 7) 0
                example_calls) as [trace Hcall]; [done|computed|].
    eexists trace, _. split; [exact Hcall|]. computed.
  - destruct (callValue_rejects_non_callable 4 example_host (OBJ_VAL 0) 0
                example_calls) as [trace Hcall]; [|computed|].
    { exists (ObjString "init"). split; [computed|]. simpl. set_solver. }
    eexists trace, _. split; [exact Hcall|]. computed.
Defined.

Lemma callValue_class_witness :
  (∃ vm',
     callValue 4 example_host (OBJ_VAL 11) 0 example_calls = Ret (true, vm')
     ∧ stack vm' !! 1 = Some (OBJ_VAL 13)
     ∧ objects vm' !! 13 = Some (ObjInstance 11 ∅)
     ∧ frameCount vm' = 0%Z)
  ∧ (∃ trace vm',
       callValue 4 example_host (OBJ_VAL 11) 1 example_calls
       = Ret (false, vm')
       ∧ stderr vm'
         = Message "Expected 0 arguments but got %d." [ArgInt 1] :: trace)
  ∧ (∃ vm',
       callValue 4 example_host (OBJ_VAL 12) 1 example_calls = Ret (true, vm')
       ∧ stack vm' !! 0 = Some (OBJ_VAL 13)
       ∧ frames vm' !! 0 = Some (mkFrame 10 0 0)).
Proof.
  split; [|split].
  - destruct (callValue_class 4 example_host 11 0 0 ∅ 0 example_calls)
      as (_ & Hdone & _); [computed..|].
    eexists. split; [by apply Hdone|]. computed.
  - destruct (callValue_class 4 example_host 11 0 0 ∅ 1 example_calls)
      as (_ & _ & Hfail); [computed..|].
    destruct Hfail as [trace Hcall]; [done|done|computed|].
    eexists trace, _. split; [exact Hcall|]. computed.
  - destruct (callValue_class 4 example_host 12 0 0 {[0 := OBJ_VAL 10]} 1
                example_calls) as (Hinit & _); [computed..|].
    eexists. split.
    { rewrite (Hinit 10 9 []); computed. }
    computed.
Defined.

Lemma callValue_native_witness :
  (∃ vm',
     callValue 4 example_host (OBJ_VAL 2) 1 example_calls = Ret (true, vm')
     ∧ stackTop vm' = 1%Z
     ∧ stack vm' !! 0 = Some (NUMBER_VAL 0)
     ∧ frameCount vm' = 0%Z)
  ∧ callValue 4 example_host (OBJ_VAL 4) 0 example_calls = Halt ProcessExit.
Proof.
  split.
  - destruct (callValue_native 4 example_host 2 clockNative 1 example_calls)
      as [_ Hcall]; [computed|].
    eexists. split; [apply Hcall; [done|computed]|]. computed.
  - destruct (callValue_native 4 example_host 4 exitNative 0 example_calls)
      as [Hexit _]; [computed|]. by apply Hexit.
Defined.

(** The script of [var x = 1; x; y;] *)
Definition globals_chunk (x y : ObjRef) : Chunk :=
  mkChunk (bytes [0; 0; 8; 1; 7; 1; 7; 2; 1; 33]) (replicate 10 1%Z)
    [NUMBER_VAL 1; OBJ_VAL x; OBJ_VAL y].

Definition compile_globals (source : string) : M (option ObjRef) :=
  x ← copyString "x";
  y ← copyString "y";
  function ← allocateObject (ObjFunction 0 0 (globals_chunk x y) None);
  mret (Some function).

Lemma define_global_binds_witness :
  let before := example_state compile_globals 1 in
  ∃ r vm',
    instruction 4 example_opcode example_host example_Value_of_double
      before.1 before.2 = Ret (Dispatch r, vm')
    ∧ globals vm' !! 9 = Some (NUMBER_VAL 1)
    ∧ stackTop vm' = 1%Z.
Proof.
  intros before. eexists _, _. split.
  { apply (define_global_binds 4 example_opcode example_host
             example_Value_of_double before.1 (mkRegisters 0 0 3 11)
             (mkRegisters 0 0 4 11) 8 9 (NUMBER_VAL 1) before.2); computed. }
  computed.
Defined.

Lemma get_global_defined_or_error_witness :
  let defined := example_state compile_globals 2 in
  let undefined := example_state compile_globals 3 in
  (∃ r vm',
     instruction 4 example_opcode example_host example_Value_of_double
       defined.1 defined.2 = Ret (Dispatch r, vm')
     ∧ stack vm' !! 1 = Some (NUMBER_VAL 1) ∧ stackTop vm' = 2%Z)
  ∧ (∃ trace vm',
       instruction 4 example_opcode example_host example_Value_of_double
         undefined.1 undefined.2 = Ret (Return INTERPRET_RUNTIME_ERROR, vm')
       ∧ stderr vm'
         = Message "Undefined variable '%s'." [ArgString "y"] :: trace).
Proof.
  intros defined undefined. split.
  - destruct (get_global_defined_or_error 4 example_opcode example_host
                example_Value_of_double defined.1 (mkRegisters 0 0 5 11)
                (mkRegisters 0 0 6 11) 7 9 defined.2) as [Hpush _];
      [computed..|].
    eexists _, _. split.
    { apply (Hpush (NUMBER_VAL 1) (NUMBER_VAL 1)); computed. }
    computed.
  - destruct (get_global_defined_or_error 4 example_opcode example_host
                example_Value_of_double undefined.1 (mkRegisters 0 0 7 11)
                (mkRegisters 0 0 8 11) 7 10 undefined.2) as [_ Herror];
      [computed..|].
    destruct Herror as (chars & trace & vm' & Hchars & Hrun & Hstderr & _);
      [computed..|].
    exists trace, vm'. split; [exact Hrun|].
    rewrite Hstderr. clear Hrun Hstderr.
    assert (chars = "y") as ->.
    { vm_compute in Hchars. by injection Hchars as <-. }
    clear Hchars. vm_compute. reflexivity.
Defined.

(** The script of [3 - 2 > "x";] *)
Definition compile_compare (source : string) : M (option ObjRef) :=
  x ← copyString "x";
  function ← allocateObject
    (ObjFunction 0 0
       (mkChunk (bytes [0; 0; 0; 1; 19; 0; 2; 16; 1; 33]) (replicate 10 1%Z)
          [NUMBER_VAL 3; NUMBER_VAL 2; OBJ_VAL x]) None);
  mret (Some function).

Lemma binary_op_numbers_or_error_witness :
  let numbers := example_state compile_compare 2 in
  let mixed := example_state compile_compare 4 in
  (∃ r vm',
     instruction 4 example_opcode example_host example_Value_of_double
       numbers.1 numbers.2 = Ret (Dispatch r, vm')
     ∧ stack vm' !! 1 = Some (NUMBER_VAL 1) ∧ stackTop vm' = 2%Z)
  ∧ (∃ trace vm',
       instruction 4 example_opcode example_host example_Value_of_double
         mixed.1 mixed.2 = Ret (Return INTERPRET_RUNTIME_ERROR, vm')
       ∧ stderr vm' = Message "Operands must be numbers." [] :: trace).
Proof.
  intros numbers mixed. split.
  - destruct (binary_op_numbers_or_error 4 example_opcode example_host
                example_Value_of_double numbers.1 (mkRegisters 0 0 5 10) 19
                OP_SUBTRACT (λ x y, NUMBER_VAL (x - y)%float)
                (NUMBER_VAL 3) (NUMBER_VAL 2) numbers.2) as [Hnumbers _];
      [computed|computed|set_solver|computed|computed|].
    eexists _, _. split; [by apply Hnumbers|]. computed.
  - destruct (binary_op_numbers_or_error 4 example_opcode example_host
                example_Value_of_double mixed.1 (mkRegisters 0 0 8 10) 16
                OP_GREATER (λ x y, BOOL_VAL (PrimFloat.ltb y x))
                (NUMBER_VAL 1) (OBJ_VAL 9) mixed.2) as [_ Herror];
      [computed|computed|set_solver|computed|computed|].
    destruct Herror as (trace & vm' & Hrun & Hstderr & _); [done|computed|].
    exists trace, vm'. split; [exact Hrun|].
    rewrite Hstderr. clear. vm_compute. reflexivity.
Defined.

(** [false], a conditional jump over 258 bytes, a jump over 5 bytes and
    a loop back over 7 bytes. *)
Definition jumps_chunk : Chunk :=
  mkChunk (bytes [3; 26; 1; 2; 25; 0; 5; 27; 0; 7; 1; 33]) (replicate 12 1%Z)
    [].

Definition compile_jumps (source : string) : M (option ObjRef) :=
  function ← allocateObject (ObjFunction 0 0 jumps_chunk None);
  mret (Some function).

Lemma jump_instructions_witness :
  let vm := (example_state compile_jumps 1).2 in
  let run (ip : Z) :=
    instruction 4 example_opcode example_host example_Value_of_double
      (mkRegisters 0 0 ip 9) vm in
  run 1%Z = Ret (Dispatch (mkRegisters 0 0 262 9), vm)
  ∧ run 4%Z = Ret (Dispatch (mkRegisters 0 0 12 9), vm)
  ∧ run 7%Z = Ret (Dispatch (mkRegisters 0 0 3 9), vm).
Proof.
  intros vm run. split; [|split].
  - destruct (jump_instructions 4 example_opcode example_host
                example_Value_of_double (mkRegisters 0 0 1 9)
                OP_JUMP_IF_FALSE 0 0 jumps_chunk None
                Byte.x1a Byte.x01 Byte.x02 vm) as (_ & _ & Hjump);
      [computed..|].
    apply (Hjump eq_refl (BOOL_VAL false)). computed.
  - destruct (jump_instructions 4 example_opcode example_host
                example_Value_of_double (mkRegisters 0 0 4 9)
                OP_JUMP 0 0 jumps_chunk None
                Byte.x19 Byte.x00 Byte.x05 vm) as (Hjump & _);
      [computed..|].
    by apply Hjump.
  - destruct (jump_instructions 4 example_opcode example_host
                example_Value_of_double (mkRegisters 0 0 7 9)
                OP_LOOP 0 0 jumps_chunk None
                Byte.x1b Byte.x00 Byte.x07 vm) as (_ & Hloop & _);
      [computed..|].
    by apply Hloop.
Defined.

(** A script that has called a function of no parameters: the function
    is about to return 8, and its local 7 has been captured. *)
Definition example_return : VMState :=
  mkVM [mkFrame 1 3 0; mkFrame 3 1 1; mkFrame 0 0 0; mkFrame 0 0 0] 2
    [OBJ_VAL 1; OBJ_VAL 3; NUMBER_VAL 7; NUMBER_VAL 8; NIL_VAL; NIL_VAL;
     NIL_VAL; NIL_VAL] 4 ∅ ∅ None (Some 4)
    [ObjFunction 0 0 (mkChunk (bytes [0; 0; 28; 0; 33]) (replicate 5 1%Z) [])
       None;
     ObjClosure 0 [];
     ObjFunction 0 0 (mkChunk (bytes [33]) [2%Z] []) (Some 5);
     ObjClosure 2 [];
     ObjUpvalue (StackSlot 2) NIL_VAL None;
     ObjString "f"] [] [] 0.

Lemma return_pops_frame_witness :
  ∃ vm',
    instruction 4 example_opcode example_host example_Value_of_double
      (mkRegisters 1 1 0 2) example_return
    = Ret (Dispatch (mkRegisters 0 0 3 0), vm')
    ∧ frameCount vm' = 1%Z
    ∧ stackTop vm' = 2%Z
    ∧ stack vm' !! 1 = Some (NUMBER_VAL 8).
Proof.
  destruct (return_pops_frame 4 example_opcode example_host
              example_Value_of_double (mkRegisters 1 1 0 2)
              (mkRegisters 1 1 1 2) 33 (NUMBER_VAL 8) [(4, 2%Z)]
              (mkFrame 1 3 0) 0 [] example_return)
    as (l1 & l2 & vm' & _ & Hrun & Hcount & Htop & Hstack & _);
    [done|done|done|repeat econstructor|repeat constructor
    |repeat constructor; by eexists|done|done|done|simpl; lia|].
  exists vm'. split; [exact Hrun|]. split; [exact Hcount|].
  split; [exact Htop|]. by rewrite Hstack.
Defined.

Lemma closing_keeps_upvalue_values_witness :
  ∃ vm',
    closeUpvalues 3 example_upvalues = Ret ((), vm')
    ∧ read_location 0 example_upvalues = Ret (NUMBER_VAL 5, example_upvalues)
    ∧ read_location 0 vm' = Ret (NUMBER_VAL 5, vm')
    ∧ openUpvalues vm' = Some 1.
Proof.
  destruct (closing_keeps_upvalue_values 3 [(0, 5%Z); (1, 2%Z)] 0 5
              example_upvalues example_upvalues_open
              example_upvalues_descending)
    as (value & vm' & Hclose & Hbefore & Hafter).
  { repeat constructor; by eexists. }
  { apply elem_of_cons. by left. }
  assert (value = NUMBER_VAL 5) as ->.
  { vm_compute in Hbefore. by injection Hbefore as <-. }
  exists vm'. split; [exact Hclose|]. split; [exact Hbefore|].
  split; [exact Hafter|].
  vm_compute in Hclose. by injection Hclose as <-.
Defined.

(** A VM with the strings [x], [m] and [y], a class with the method [m],
    a class without methods, and an instance of the first class with the
    given fields.  The code of the script sets and gets properties and
    inherits; its frame has stored its instruction pointer once. *)
Definition example_objects (fields : gmap ObjRef Value) (operands : list Value)
    : VMState :=
  mkVM (mkFrame 3 1 0 :: replicate 3 (mkFrame 0 0 0)) 1
    (OBJ_VAL 3 :: operands ++ replicate (7 - length operands) NIL_VAL)
    (1 + Z.of_nat (length operands)) ∅ ∅ (Some 0) None
    [ObjString "x";
     ObjString "m";
     ObjFunction 0 0
       (mkChunk (bytes [13; 0; 12; 0; 12; 1; 12; 2; 35; 33])
          (replicate 10 1%Z) [OBJ_VAL 0; OBJ_VAL 1; OBJ_VAL 7]) None;
     ObjClosure 2 [];
     ObjClass 1 {[1 := OBJ_VAL 3]};
     ObjClass 0 ∅;
     ObjInstance 4 fields;
     ObjString "y"] [] [] 0.

Lemma set_property_stores_witness :
  (∃ r vm',
     instruction 4 example_opcode example_host example_Value_of_double
       (mkRegisters 0 0 0 2) (example_objects ∅ [OBJ_VAL 6; NUMBER_VAL 7])
     = Ret (Dispatch r, vm')
     ∧ objects vm' !! 6 = Some (ObjInstance 4 {[0 := NUMBER_VAL 7]})
     ∧ stack vm' !! 1 = Some (NUMBER_VAL 7) ∧ stackTop vm' = 2%Z)
  ∧ (∃ trace vm',
       instruction 4 example_opcode example_host example_Value_of_double
         (mkRegisters 0 0 0 2) (example_objects ∅ [OBJ_VAL 0; NUMBER_VAL 7])
       = Ret (Return INTERPRET_RUNTIME_ERROR, vm')
       ∧ stderr vm' = Message "Only instances have fields." [] :: trace).
Proof.
  split.
  - destruct (set_property_stores 4 example_opcode example_host
                example_Value_of_double (mkRegisters 0 0 0 2)
                (mkRegisters 0 0 1 2) (mkRegisters 0 0 2 2) 13 0
                (NUMBER_VAL 7) (OBJ_VAL 6)
                (example_objects ∅ [OBJ_VAL 6; NUMBER_VAL 7]))
      as [Hstore _]; [computed..|].
    eexists _, _. split; [by apply (Hstore 6 4 ∅)|]. computed.
  - destruct (set_property_stores 4 example_opcode example_host
                example_Value_of_double (mkRegisters 0 0 0 2)
                (mkRegisters 0 0 1 2) (mkRegisters 0 0 2 2) 13 0
                (NUMBER_VAL 7) (OBJ_VAL 0)
                (example_objects ∅ [OBJ_VAL 0; NUMBER_VAL 7]))
      as [_ Herror]; [computed..|].
    destruct Herror as (trace & vm' & Hrun & Hstderr & _); [computed..|].
    exists trace, vm'. split; [exact Hrun|]. by rewrite Hstderr.
Defined.

Lemma get_property_field_method_or_error_witness :
  let run (ip : Z) (fields : gmap ObjRef Value) :=
    instruction 4 example_opcode example_host example_Value_of_double
      (mkRegisters 0 0 ip 2) (example_objects fields [OBJ_VAL 6]) in
  (∃ r vm',
     run 4%Z {[1 := NUMBER_VAL 7]} = Ret (Dispatch r, vm')
     ∧ stack vm' !! 1 = Some (NUMBER_VAL 7))
  ∧ (∃ r vm',
       run 4%Z ∅ = Ret (Dispatch r, vm')
       ∧ stack vm' !! 1 = Some (OBJ_VAL 8)
       ∧ objects vm' !! 8 = Some (ObjBoundMethod (OBJ_VAL 6) 3))
  ∧ (∃ trace vm',
       run 6%Z ∅ = Ret (Return INTERPRET_RUNTIME_ERROR, vm')
       ∧ stderr vm'
         = Message "Undefined property '%s'." [ArgString "y"] :: trace)
  ∧ instruction 4 example_opcode example_host example_Value_of_double
      (mkRegisters 0 0 6 2)
      (set_frames (mkFrame 3 0 0 :: replicate 3 (mkFrame 0 0 0))
         (example_objects ∅ [OBJ_VAL 6]))
    = Halt UndefinedBehaviour.
Proof.
  intros run. split; [|split; [|split]].
  - destruct (get_property_field_method_or_error 4 example_opcode example_host
                example_Value_of_double (mkRegisters 0 0 4 2)
                (mkRegisters 0 0 5 2) (mkRegisters 0 0 6 2) 12 1 (OBJ_VAL 6)
                (example_objects {[1 := NUMBER_VAL 7]} [OBJ_VAL 6]))
      as (Hfield & _); [computed..|].
    eexists _, _. split.
    { by apply (Hfield 6 4 {[1 := NUMBER_VAL 7]} (NUMBER_VAL 7)). }
    computed.
  - destruct (get_property_field_method_or_error 4 example_opcode example_host
                example_Value_of_double (mkRegisters 0 0 4 2)
                (mkRegisters 0 0 5 2) (mkRegisters 0 0 6 2) 12 1 (OBJ_VAL 6)
                (example_objects ∅ [OBJ_VAL 6]))
      as (_ & Hmethod & _); [computed..|].
    eexists _, _. split.
    { by apply (Hmethod 6 4 ∅ 1 {[1 := OBJ_VAL 3]} 3 2 []). }
    computed.
  - destruct (get_property_field_method_or_error 4 example_opcode example_host
                example_Value_of_double (mkRegisters 0 0 6 2)
                (mkRegisters 0 0 7 2) (mkRegisters 0 0 8 2) 12 7 (OBJ_VAL 6)
                (example_objects ∅ [OBJ_VAL 6]))
      as (_ & _ & Hundefined & _); [computed..|].
    destruct (Hundefined 6 4 ∅ 1 {[1 := OBJ_VAL 3]})
      as (chars & trace & Hchars & Hrun); [done..|].
    assert (chars = "y") as ->.
    { vm_compute in Hchars. by injection Hchars as <-. }
    eexists trace, _. split; [exact Hrun|]. computed.
  - destruct (get_property_field_method_or_error 4 example_opcode example_host
                example_Value_of_double (mkRegisters 0 0 6 2)
                (mkRegisters 0 0 7 2) (mkRegisters 0 0 8 2) 12 7 (OBJ_VAL 6)
                (set_frames (mkFrame 3 0 0 :: replicate 3 (mkFrame 0 0 0))
                   (example_objects ∅ [OBJ_VAL 6])))
      as (_ & _ & _ & Hbad & Hfresh & _); [computed..|].
    apply (Hbad 6 4 ∅ 1 {[1 := OBJ_VAL 3]}); [computed..|].
    apply (Hfresh (mkFrame 3 0 0)); computed.
Defined.

Lemma inherit_copies_methods_witness :
  ∃ r vm' methods,
    instruction 4 example_opcode example_host example_Value_of_double
      (mkRegisters 0 0 8 2) (example_objects ∅ [OBJ_VAL 4; OBJ_VAL 5])
    = Ret (Dispatch r, vm')
    ∧ objects vm' !! 5 = Some (ObjClass 0 methods)
    ∧ methods !! 1 = Some (OBJ_VAL 3).
Proof.
  destruct (inherit_copies_methods 4 example_opcode example_host
              example_Value_of_double (mkRegisters 0 0 8 2)
              (mkRegisters 0 0 9 2) 35 (OBJ_VAL 4) (OBJ_VAL 5)
              (example_objects ∅ [OBJ_VAL 4; OBJ_VAL 5]))
    as [Hinherit _]; [computed..|].
  destruct (Hinherit 4 5 1 {[1 := OBJ_VAL 3]} 0 ∅)
    as (methods & Hrun & Hinherited & _); [done..|].
  eexists _, _, methods. split; [exact Hrun|].
  split; [reflexivity|]. by apply Hinherited.
Defined.

Lemma runtimeError_traces_frames_witness :
  ∃ vm',
    runtimeError "Stack overflow." [] example_return = Ret ((), vm')
    ∧ stderr vm'
      = [Message "Stack overflow." []; TraceLine 2 (Some "f");
         TraceLine 1 None]
    ∧ frameCount vm' = 0%Z.
Proof.
  eexists. split.
  { apply (runtimeError_traces_frames "Stack overflow." []
             [TraceLine 2 (Some "f"); TraceLine 1 None] example_return).
    - simpl. lia.
    - by repeat constructor. }
  done.
Defined.

Lemma invoke_field_shadows_method_witness :
  (∃ vm',
     invoke 4 example_host 1 0 (example_objects ∅ [OBJ_VAL 6])
     = Ret (true, vm')
     ∧ frameCount vm' = 2%Z
     ∧ frames vm' !! 1 = Some (mkFrame 3 0 1))
  ∧ (∃ trace vm',
       invoke 4 example_host 1 0
         (example_objects {[1 := NUMBER_VAL 7]} [OBJ_VAL 6])
       = Ret (false, vm')
       ∧ stderr vm'
         = Message "Can only call functions and classes." [] :: trace).
Proof.
  split.
  - destruct (invoke_field_shadows_method 4 example_host 1 0 (OBJ_VAL 6)
                (example_objects ∅ [OBJ_VAL 6])) as (_ & Hmethod & _);
      [computed|].
    eexists. split.
    { rewrite (Hmethod 6 4 ∅ 1 {[1 := OBJ_VAL 3]} 3 2 []) by done.
      computed. }
    computed.
  - destruct (invoke_field_shadows_method 4 example_host 1 0 (OBJ_VAL 6)
                (example_objects {[1 := NUMBER_VAL 7]} [OBJ_VAL 6]))
      as (Hfield & _); [computed|].
    assert (∃ trace vm',
              callValue 4 example_host (NUMBER_VAL 7) 0
                (set_stack
                   (<[Z.to_nat (2 - 0 - 1) := NUMBER_VAL 7]>
                      (stack (example_objects {[1 := NUMBER_VAL 7]}
                                [OBJ_VAL 6])))
                   (example_objects {[1 := NUMBER_VAL 7]} [OBJ_VAL 6]))
              = Ret (false, vm')
              ∧ stderr vm'
                = Message "Can only call functions and classes." [] :: trace)
      as (trace & vm' & Hcall & Hstderr).
    { eexists _, _. split; [vm_compute; reflexivity|reflexivity]. }
    exists trace, vm'. split; [|exact Hstderr].
    rewrite (Hfield 6 4 {[1 := NUMBER_VAL 7]} (NUMBER_VAL 7)) by done.
    exact Hcall.
Defined.

End VM.
